(** * Quant-A: rolling factor analysis and quarterly rebalancing

    A shallow embedding of the core of the factor-analysis stock-selection
    script: the column resolver and lookback window, the post-processing of
    the factor model (explained-variance shares, factor count, composite
    scores, ranking), the quarter-by-quarter portfolio simulator and the
    derived period returns; further down, the printed quarter keys and
    what the charts read back from them, the base names and the window
    aggregation, and the file names the driver works with.

    Numbers.  Python floats are modelled by [num]: an exact rational or
    [NaN].  Rounding and the IEEE infinities are outside the model; NaN is
    kept because the code tests for it ([pd.notna], [fillna]) and because
    it propagates through the portfolio arithmetic.

    Libraries.  [StandardScaler], [FactorAnalysis] and the window
    aggregation are parameters of the definitions that call them;
    [sort_values] is modelled by its documented contract. *)

From Stdlib Require Import Bool String Ascii Arith ZArith QArith Qcanon.
From Stdlib Require Import Lia Lqa List Permutation Sorted.
From Stdlib Require DecimalString DecimalZ.
Import ListNotations.

(* ------------------------------------------------------------------ *)
(** ** Numbers *)

Module Num.

Inductive num : Type :=
| NaN : num
| Fin : Qc -> num.

Definition of_Z (z : Z) : num := Fin (Q2Qc (inject_Z z)).

Definition nadd (a b : num) : num :=
  match a, b with
  | Fin x, Fin y => Fin (x + y)%Qc
  | _, _ => NaN
  end.

Definition nsub (a b : num) : num :=
  match a, b with
  | Fin x, Fin y => Fin (x - y)%Qc
  | _, _ => NaN
  end.

Definition nmul (a b : num) : num :=
  match a, b with
  | Fin x, Fin y => Fin (x * y)%Qc
  | _, _ => NaN
  end.

(** Division.  [0/0] is NaN as in IEEE arithmetic.  A non-zero numerator
    over zero is an infinity in IEEE arithmetic, which [num] does not
    have: it is NaN here, and every statement below that divides carries
    a non-zero divisor. *)
Definition ndiv (a b : num) : num :=
  match a, b with
  | Fin x, Fin y => if Qc_eq_dec y 0%Qc then NaN else Fin (x / y)%Qc
  | _, _ => NaN
  end.

(** [pd.notna]. *)
Definition notna (a : num) : bool :=
  match a with NaN => false | Fin _ => true end.

(** [a < b] on floats: false as soon as one side is NaN. *)
Definition nltb (a b : num) : bool :=
  match a, b with
  | Fin x, Fin y => if Qclt_le_dec x y then true else false
  | _, _ => false
  end.

(** [a > b]. *)
Definition ngtb (a b : num) : bool := nltb b a.

Definition nlt (a b : num) : Prop :=
  match a, b with
  | Fin x, Fin y => (x < y)%Qc
  | _, _ => False
  end.

Definition nle (a b : num) : Prop :=
  match a, b with
  | Fin x, Fin y => (x <= y)%Qc
  | _, _ => False
  end.

(** Python's builtin [sum] and [np.sum]: a left fold from 0. *)
Definition nsum (l : list num) : num := fold_left nadd l (of_Z 0).

End Num.
Import Num.

(* ------------------------------------------------------------------ *)
(** ** Calendar dates

    [pd.Timestamp] values at midnight; the range limits of [Timestamp]
    are not modelled. *)

Module Dates.

Record date : Type := mkDate { year : Z; month : Z; day : Z }.

Definition is_leap (y : Z) : bool :=
  ((y mod 4 =? 0) && negb (y mod 100 =? 0) || (y mod 400 =? 0))%Z.

Definition days_in_month (y m : Z) : Z :=
  if (m =? 2)%Z then (if is_leap y then 29 else 28)%Z
  else if ((m =? 4) || (m =? 6) || (m =? 9) || (m =? 11))%Z then 30%Z
  else 31%Z.

(** Months since year 0, January = 0. *)
Definition month_index (d : date) : Z := (year d * 12 + (month d - 1))%Z.

(** [d - pd.DateOffset(months=k)]: the month moves back by [k], the day
    is clipped to the length of the target month. *)
Definition sub_months (d : date) (k : Z) : date :=
  let mi := (month_index d - k)%Z in
  let y := (mi / 12)%Z in
  let m := (mi mod 12 + 1)%Z in
  mkDate y m (Z.min (day d) (days_in_month y m)).

(** [pd.to_datetime(f'{year}-{month}-01') + pd.offsets.MonthEnd(0)]:
    the first of the month rolled forward to the month's last day. *)
Definition month_end (y m : Z) : date := mkDate y m (days_in_month y m).

(** Chronological order. *)
Definition date_leb (a b : date) : bool :=
  ((year a <? year b)
   || ((year a =? year b)
       && ((month a <? month b)
           || ((month a =? month b) && (day a <=? day b)))))%Z.

Definition date_le (a b : date) : Prop :=
  (year a < year b
   \/ (year a = year b
       /\ (month a < month b \/ (month a = month b /\ day a <= day b))))%Z.

Definition date_eqb (a b : date) : bool :=
  ((year a =? year b) && (month a =? month b) && (day a =? day b))%Z.

(** The quarter of a date, 1..4, and the dictionary key
    [f"{year}Q{quarter}"], kept as the pair it is printed from. *)
Definition quarter (d : date) : Z := ((month d - 1) / 3 + 1)%Z.

Definition qkey : Type := (Z * Z)%type.

Definition quarter_str (d : date) : qkey := (year d, quarter d).

Definition qkey_eqb (a b : qkey) : bool :=
  ((fst a =? fst b) && (snd a =? snd b))%Z.

(** [pd.date_range(start, end, freq='QS-JAN')]: the quarter starts
    (1 Jan, 1 Apr, 1 Jul, 1 Oct) lying between [start] and [end]. *)
Definition quarter_starts_of_year (y : Z) : list date :=
  map (fun m => mkDate y m 1) [1; 4; 7; 10]%Z.

Definition date_range_QS (start stop : date) : list date :=
  let years :=
    map (fun k => (year start + Z.of_nat k)%Z)
        (seq 0 (Z.to_nat (year stop - year start + 1))) in
  filter (fun d => date_leb start d && date_leb d stop)
         (flat_map quarter_starts_of_year years).

Definition BACKTEST_START_DATE : date := mkDate 2021 3 31.
Definition BACKTEST_END_DATE : date := mkDate 2024 12 31.

Definition quarters : list date :=
  date_range_QS BACKTEST_START_DATE BACKTEST_END_DATE.

End Dates.
Import Dates.

(* ------------------------------------------------------------------ *)
(** ** Column labels and the lookback window *)

Module Columns.

Local Open Scope string_scope.

(** Labels are UTF-8 byte strings.  The four report tags are multi-byte
    sequences; a byte-wise match of a tag inside a well-formed label is a
    match at a character boundary.  [\d] is taken as an ASCII digit. *)
Definition report_map : list (string * Z) :=
  [("一季", 3%Z); ("中报", 6%Z); ("三季", 9%Z); ("年报", 12%Z)].

Definition newline : ascii := ascii_of_nat 10.
Definition space : ascii := ascii_of_nat 32.

(** [col.replace('\n', ' ')]. *)
Fixpoint replace_newlines (s : string) : string :=
  match s with
  | EmptyString => EmptyString
  | String c s' =>
      String (if Ascii.eqb c newline then space else c) (replace_newlines s')
  end.

Fixpoint starts_with (p s : string) : bool :=
  match p, s with
  | EmptyString, _ => true
  | String a p', String b s' => Ascii.eqb a b && starts_with p' s'
  | String _ _, EmptyString => false
  end.

(** The alternation [(一季|中报|三季|年报)] tried at the head of [s]. *)
Definition tag_here (s : string) : option Z :=
  option_map snd (find (fun t => starts_with (fst t) s) report_map).

(** [.*?] followed by the alternation: the earliest position at which a
    tag starts, [.] matching anything but a line break. *)
Fixpoint first_tag (s : string) : option Z :=
  match tag_here s with
  | Some m => Some m
  | None =>
      match s with
      | EmptyString => None
      | String c s' => if Ascii.eqb c newline then None else first_tag s'
      end
  end.

Definition digit_of (c : ascii) : option Z :=
  let n := nat_of_ascii c in
  if (48 <=? n)%nat && (n <=? 57)%nat then Some (Z.of_nat (n - 48)) else None.

(** [(\d{4})] at the head of [s]: the year and the rest of the label. *)
Definition four_digits (s : string) : option (Z * string) :=
  match s with
  | String a (String b (String c (String d rest))) =>
      match digit_of a, digit_of b, digit_of c, digit_of d with
      | Some x, Some y, Some z, Some w =>
          Some ((x * 1000 + y * 100 + z * 10 + w)%Z, rest)
      | _, _, _, _ => None
      end
  | _ => None
  end.

(** [re.search(r'(\d{4}).*?(一季|中报|三季|年报)', s)]: the leftmost start
    at which the pattern matches; the groups are the year and the tag,
    the tag already mapped to its month through [report_map]. *)
Fixpoint re_search (s : string) : option (Z * Z) :=
  let next :=
    match s with
    | EmptyString => None
    | String _ s' => re_search s'
    end in
  match four_digits s with
  | Some (y, rest) =>
      match first_tag rest with
      | Some m => Some (y, m)
      | None => next
      end
  | None => next
  end.

(** The (year, month) pair a column label resolves to, if any. *)
Definition resolve (col : string) : option (Z * Z) :=
  re_search (replace_newlines col).

Definition t2_of (trade_date : date) : date := sub_months trade_date 6.
Definition t5_of (trade_date : date) : date := sub_months (t2_of trade_date) 9.

Definition in_window (trade_date : date) (col : string) : bool :=
  match resolve col with
  | Some (y, m) =>
      let report_date := month_end y m in
      date_leb (t5_of trade_date) report_date
      && date_leb report_date (t2_of trade_date)
  | None => false
  end.

(** Lines 118-129: the loop over [fundamental_df.columns[1:]]. *)
Definition window_cols (trade_date : date) (columns : list string)
  : list string :=
  filter (in_window trade_date) (tl columns).

End Columns.
Import Columns.


(* ------------------------------------------------------------------ *)
(** ** Factor extractor: [rolling_factor_analysis_and_ranking] *)

Module Extractor.

Definition matrix : Type := list (list num).

(** [window_data]: the indicator labels (the columns left after dropping
    the name column) and one row per security. *)
Record window_data : Type := mkWindow {
  indicators : list string;
  rows : list (string * list num)
}.

(** [np.nan_to_num] on the values [num] has. *)
Definition nan_to_num (x : num) : num :=
  match x with NaN => of_Z 0 | Fin _ => x end.

(** [np.sum(fa.components_**2, axis=1)]. *)
Definition eig_vals (components : matrix) : list num :=
  map (fun row => nsum (map (fun x => nmul x x) row)) components.

(** [eig_vals / np.sum(eig_vals)]. *)
Definition ratio (e : list num) : list num :=
  let total := nsum e in map (fun x => ndiv x total) e.

Fixpoint cumsum_from (acc : num) (l : list num) : list num :=
  match l with
  | [] => []
  | x :: l' => let a := nadd acc x in a :: cumsum_from a l'
  end.

(** [np.cumsum]. *)
Definition cumsum (l : list num) : list num := cumsum_from (of_Z 0) l.

(** The order [np.searchsorted] compares floats with: NaN sorts last. *)
Definition np_less (a b : num) : bool :=
  nltb a b || (negb (notna b) && notna a).

(** The binary search of [np.searchsorted(arr, key)] (side ['left']):
    while [lo < hi], probe the middle and keep the half that can still
    hold the insertion point. *)
Fixpoint binsearch_left (fuel : nat) (arr : list num) (key : num)
  (lo hi : nat) : nat :=
  match fuel with
  | O => lo
  | S fuel' =>
      if (lo <? hi)%nat then
        let mid := (lo + (hi - lo) / 2)%nat in
        if np_less (nth mid arr NaN) key
        then binsearch_left fuel' arr key (mid + 1) hi
        else binsearch_left fuel' arr key lo mid
      else lo
  end.

Definition searchsorted (arr : list num) (key : num) : nat :=
  binsearch_left (length arr) arr key 0 (length arr).

(** Lines 44-47: the factor count kept for the final fit. *)
Definition contrib_cumsum (components : matrix) : list num :=
  cumsum (ratio (eig_vals components)).

Definition n_factors_of (components : matrix) (min_cum_var : num) : nat :=
  (searchsorted (contrib_cumsum components) min_cum_var + 1)%nat.

(** Line 52. *)
Definition weights_of (components : matrix) : list num :=
  ratio (eig_vals components).

(** [np.dot(factor_scores, weights)], one inner product per row. *)
Definition dot (row w : list num) : num :=
  nsum (map (fun p => nmul (fst p) (snd p)) (combine row w)).

Definition total_scores (factor_scores : matrix) (weights : list num)
  : list num :=
  map (fun row => dot row weights) factor_scores.

Definition min_cum_var_default : num := Fin (Q2Qc (8 # 10)).
Definition max_factor_default : nat := 10.

Section Fit.

(** [StandardScaler().fit_transform]. *)
Variable scaler_fit_transform : matrix -> matrix.

(** [FactorAnalysis(n_components=k, rotation='varimax',
    random_state=0).fit_transform(X)] together with the fitted
    [components_]; [None] when the fit raises. *)
Variable fa_fit_transform : nat -> matrix -> option (matrix * matrix).

(** Lines 32-60: everything up to the sort.  The result pairs the fitted
    components (whose transpose is [loadings_df]) with the securities and
    their composite scores, in input row order. *)
Definition factor_scoring (wd : window_data) (min_cum_var : num)
  (max_factor : nat) : option (matrix * list (string * num)) :=
  let stock_info := map fst (rows wd) in
  let features := map snd (rows wd) in
  let n_variables := length (indicators wd) in
  let fit_factor := Nat.min max_factor n_variables in
  let features_scaled :=
    map (map nan_to_num) (scaler_fit_transform features) in
  match fa_fit_transform fit_factor features_scaled with
  | None => None
  | Some (_, components1) =>
      let n_factors := n_factors_of components1 min_cum_var in
      match fa_fit_transform n_factors features_scaled with
      | None => None
      | Some (factor_scores, components) =>
          let weights := weights_of components in
          Some (components,
                combine stock_info (total_scores factor_scores weights))
      end
  end.

End Fit.

(** [a] may stand before [b] in a list sorted by score, descending, rows
    without a score last ([na_position='last']). *)
Definition score_ge (a b : string * num) : Prop :=
  match snd b with
  | NaN => True
  | Fin y => match snd a with Fin x => (y <= x)%Qc | NaN => False end
  end.

(** [sort_values(by='综合得分', ascending=False)] with the default
    [kind] ('quicksort'): the result holds the same rows, ordered by
    score.  pandas promises the input order among equal keys only for
    [kind='mergesort'] or ['stable'], so the contract says nothing about
    it. *)
Definition sort_values_desc (l out : list (string * num)) : Prop :=
  Permutation l out /\ StronglySorted score_ge out.

(** The results [rolling_factor_analysis_and_ranking] can return. *)
Definition ranking_result
  (scaler_fit_transform : matrix -> matrix)
  (fa_fit_transform : nat -> matrix -> option (matrix * matrix))
  (wd : window_data) (min_cum_var : num) (max_factor : nat)
  (loadings : matrix) (ranked : list (string * num)) : Prop :=
  exists scored,
    factor_scoring scaler_fit_transform fa_fit_transform
      wd min_cum_var max_factor = Some (loadings, scored)
    /\ sort_values_desc scored ranked.

(** Rows with the same score keep the order they had in [l]. *)
Definition same_score (s : num) (r : string * num) : bool :=
  match s, snd r with
  | Fin x, Fin y => if Qc_eq_dec x y then true else false
  | NaN, NaN => true
  | _, _ => false
  end.

Definition ties_in_input_order (l out : list (string * num)) : Prop :=
  forall s, filter (same_score s) out = filter (same_score s) l.

(** The weight vector [w] replaced by [c * w]. *)
Definition rescale (c : Qc) (w : list num) : list num :=
  map (nmul (Fin c)) w.

Definition rescale_row (c : Qc) (r : string * num) : string * num :=
  (fst r, nmul (Fin c) (snd r)).

Definition all_finite (m : matrix) : Prop :=
  Forall (Forall (fun x => notna x = true)) m.

End Extractor.
Import Extractor.

(* ------------------------------------------------------------------ *)
(** ** Quarterly rebalance simulator: [backtest_and_analyze] *)

Module Simulator.

Definition INITIAL_CAPITAL : num := of_Z 1000000.
Definition TOP_N_STOCKS : nat := 5.

(** Python dictionaries keep insertion order: association lists with
    distinct keys, [d[k] = v] replacing in place or appending. *)
Section Dict.
Context {K V : Type} (eqb : K -> K -> bool).

Fixpoint dict_get (k : K) (d : list (K * V)) : option V :=
  match d with
  | [] => None
  | (k', v) :: d' => if eqb k k' then Some v else dict_get k d'
  end.

Fixpoint dict_set (k : K) (v : V) (d : list (K * V)) : list (K * V) :=
  match d with
  | [] => [(k, v)]
  | (k', v') :: d' =>
      if eqb k k' then (k, v) :: d' else (k', v') :: dict_set k v d'
  end.

(** [d[k] = f(d[k])] for a key that is present; nothing otherwise. *)
Fixpoint dict_update (k : K) (f : V -> V) (d : list (K * V))
  : list (K * V) :=
  match d with
  | [] => []
  | (k', v') :: d' =>
      if eqb k k' then (k', f v') :: d' else (k', v') :: dict_update k f d'
  end.

End Dict.

(** One row of [price_ts]: a Series of prices indexed by security name. *)
Definition snapshot : Type := list (string * num).

(** [price_ts]: the price table indexed by date, after [sort_index]. *)
Definition price_table : Type := list (date * snapshot).

(** [series.get(name, default)]. *)
Definition series_get (s : snapshot) (name : string) (default : num) : num :=
  match dict_get String.eqb name s with
  | Some v => v
  | None => default
  end.

(** [name in series.index]. *)
Definition series_has (s : snapshot) (name : string) : bool :=
  match dict_get String.eqb name s with
  | Some _ => true
  | None => false
  end.

(** One record of [portfolio_history]: ['start_asset'] and, once it has
    been attached, ['end_asset']. *)
Record history_entry : Type := mkEntry {
  start_asset : num;
  end_asset : option num
}.

Record state : Type := mkState {
  cash : num;
  current_portfolio : list (string * num);
  portfolio_history : list (qkey * history_entry);
  all_loadings : list (qkey * matrix);
  all_top_stocks : list (qkey * list (string * num))
}.

Definition initial_state : state :=
  mkState INITIAL_CAPITAL [] [] [] [].

(** [price_ts.index[price_ts.index >= trade_date][0]] and the row at
    that date; [None] stands for the [IndexError]. *)
Definition actual_trade_row (ts : price_table) (trade_date : date)
  : option (date * snapshot) :=
  find (fun r => date_leb trade_date (fst r)) ts.

(** Lines 106 and 188:
    [sum(shares * prices.get(name, 0) for name, shares in portfolio.items())]. *)
Definition stock_value (prices : snapshot) (portfolio : list (string * num))
  : num :=
  nsum (map (fun p => nmul (snd p) (series_get prices (fst p) (of_Z 0)))
            portfolio).

(** Lines 160-169.  The membership filter is written three times over
    [target_names] with the same outcome; the price filter follows. *)
Definition tradable_names (prices : snapshot) (target_names : list string)
  : list string :=
  filter (fun name =>
            notna (series_get prices name NaN)
            && ngtb (series_get prices name (of_Z 0)) (of_Z 0))
         (filter (series_has prices) target_names).

(** Lines 173-176, one turn of the purchase loop. *)
Definition buy (prices : snapshot) (investment_per_stock : num)
  (acc : list (string * num) * num) (name : string)
  : list (string * num) * num :=
  let price := series_get prices name NaN in
  let shares := ndiv investment_per_stock price in
  (dict_set String.eqb name shares (fst acc),
   nsub (snd acc) investment_per_stock).

(** Lines 170-179. *)
Definition rebalance (prices : snapshot) (names : list string)
  (portfolio : list (string * num)) (cash0 : num)
  : list (string * num) * num :=
  match names with
  | [] => (portfolio, cash0)
  | _ :: _ =>
      let investment_per_stock :=
        ndiv cash0 (of_Z (Z.of_nat (length names))) in
      fold_left (buy prices investment_per_stock) names (portfolio, cash0)
  end.

Section Backtest.

(** [None] when no price table was given or its preparation failed. *)
Variable price_ts : option price_table.

(** The quarterly trade dates, [Dates.quarters] in the script. *)
Variable qs : list date.

(** Lines 115-154 for one trade date: the window, the aggregation and
    [rolling_factor_analysis_and_ranking].  [None] is either [continue]
    of lines 133 and 154; otherwise the loadings and the ranked list. *)
Variable score_quarter : date -> option (matrix * list (string * num)).

Definition last_quarter : date := last qs (mkDate 0 1 1).

(** Lines 95-112.  [None] is the [continue] of line 101; otherwise the
    state after the period start and the snapshot priced at the actual
    trade date (absent without a price table). *)
Definition period_start (i : nat) (trade_date : date) (st : state)
  : option (state * option snapshot) :=
  match price_ts with
  | None => Some (st, None)
  | Some ts =>
      match actual_trade_row ts trade_date with
      | None => None
      | Some (_, prices_on_trade_date) =>
          let total_asset_value :=
            if (i =? 0)%nat then INITIAL_CAPITAL
            else nadd (stock_value prices_on_trade_date (current_portfolio st))
                      (cash st) in
          Some (mkState total_asset_value []
                  (dict_set qkey_eqb (quarter_str trade_date)
                     (mkEntry total_asset_value None) (portfolio_history st))
                  (all_loadings st) (all_top_stocks st),
                Some prices_on_trade_date)
      end
  end.

(** Lines 157-179. *)
Definition open_positions (trade_date : date) (prices : option snapshot)
  (top : list (string * num)) (st : state) : state :=
  match prices with
  | None => st
  | Some prices_on_trade_date =>
      if date_eqb trade_date last_quarter then st
      else
        let target_names := map fst top in
        let names := tradable_names prices_on_trade_date target_names in
        let r := rebalance prices_on_trade_date names
                   (current_portfolio st) (cash st) in
        mkState (snd r) (fst r) (portfolio_history st)
                (all_loadings st) (all_top_stocks st)
  end.

(** The body of the loop over [enumerate(quarters)]. *)
Definition quarter_body (i : nat) (trade_date : date) (st : state) : state :=
  match period_start i trade_date st with
  | None => st
  | Some (st1, prices) =>
      match score_quarter trade_date with
      | None => st1
      | Some (loadings, ranked_stocks) =>
          let key := quarter_str trade_date in
          let top := firstn TOP_N_STOCKS ranked_stocks in
          let st2 :=
            mkState (cash st1) (current_portfolio st1) (portfolio_history st1)
              (dict_set qkey_eqb key loadings (all_loadings st1))
              (dict_set qkey_eqb key top (all_top_stocks st1)) in
          open_positions trade_date prices top st2
      end
  end.

Fixpoint run_quarters (i : nat) (l : list date) (st : state) : state :=
  match l with
  | [] => st
  | trade_date :: l' => run_quarters (S i) l' (quarter_body i trade_date st)
  end.

(** Lines 184-191. *)
Definition final_asset_value (ts : price_table) (st : state) : num :=
  match current_portfolio st with
  | [] => cash st
  | _ :: _ =>
      match rev ts with
      | [] => cash st
      | (_, final_prices) :: _ =>
          nadd (cash st) (stock_value final_prices (current_portfolio st))
      end
  end.

(** Lines 182-195. *)
Definition final_liquidation (st : state) : state :=
  match price_ts, portfolio_history st with
  | Some ts, _ :: _ =>
      let last_q_str := quarter_str last_quarter in
      let v := final_asset_value ts st in
      mkState (cash st) (current_portfolio st)
        (dict_update qkey_eqb last_q_str
           (fun e => mkEntry (start_asset e) (Some v)) (portfolio_history st))
        (all_loadings st) (all_top_stocks st)
  | _, _ => st
  end.

Definition backtest_and_analyze : state :=
  final_liquidation (run_quarters 0 qs initial_state).

End Backtest.

End Simulator.
Import Simulator.

(* ------------------------------------------------------------------ *)
(** ** The scoring stage of a quarter (lines 115-154) *)

Module Pipeline.

Section Stage.

(** [fundamental_df.columns]. *)
Variable columns : list string.

(** Lines 135-146: the means per base indicator over the window columns,
    rows with a missing mean dropped. *)
Variable aggregate : list string -> window_data.

Variable scaler_fit_transform : matrix -> matrix.
Variable fa_fit_transform : nat -> matrix -> option (matrix * matrix).

(** What the stage can hand to the simulator on a trade date: nothing
    when the window is empty or the extraction fails, otherwise a result
    of the extractor on the aggregated window. *)
Definition scoring_stage (trade_date : date)
  (result : option (matrix * list (string * num))) : Prop :=
  match window_cols trade_date columns with
  | [] => result = None
  | cols =>
      match result with
      | None =>
          factor_scoring scaler_fit_transform fa_fit_transform
            (aggregate cols) min_cum_var_default max_factor_default = None
      | Some (loadings, ranked) =>
          ranking_result scaler_fit_transform fa_fit_transform
            (aggregate cols) min_cum_var_default max_factor_default
            loadings ranked
      end
  end.

(** A scoring function the simulator can be run with. *)
Definition admissible_scoring
  (score_quarter : date -> option (matrix * list (string * num))) : Prop :=
  forall trade_date, scoring_stage trade_date (score_quarter trade_date).

End Stage.

End Pipeline.
Import Pipeline.

(* ------------------------------------------------------------------ *)
(** ** Performance accountant: the return column of
    [generate_visualizations] *)

Module Accountant.

(** [series.shift(1)]. *)
Definition shift1 (l : list num) : list num := firstn (length l) (NaN :: l).

(** [series.pct_change(fill_method=None)]: [series / series.shift(1) - 1]. *)
Definition pct_change (l : list num) : list num :=
  map (fun p => nsub (ndiv (fst p) (snd p)) (of_Z 1)) (combine l (shift1 l)).

(** [.fillna(0)]. *)
Definition fillna0 (x : num) : num :=
  match x with NaN => of_Z 0 | Fin _ => x end.

(** Line 207, over the rows of [history] in insertion order. *)
Definition period_returns (history : list (qkey * history_entry))
  : list num :=
  map (fun x => fillna0 (nmul x (of_Z 100)))
      (pct_change (map (fun kv => start_asset (snd kv)) history)).

(** The percentage change from [prev] to [cur]. *)
Definition pct (prev cur : Qc) : Qc := ((cur / prev - 1) * Q2Qc 100)%Qc.

End Accountant.
Import Accountant.

(* ------------------------------------------------------------------ *)
(** ** What the specification says of the valuation

    The valuation of the specification, written from its words: cash
    plus, for every holding, shares times the price, the price taken as
    0 when the security has no usable price on the valuation date. *)

Module Valuation.

Definition price_or_zero (prices : snapshot) (name : string) : num :=
  match dict_get String.eqb name prices with
  | Some (Fin p) => Fin p
  | _ => of_Z 0
  end.

Definition total_asset_value_spec (cash0 : num) (prices : snapshot)
  (portfolio : list (string * num)) : num :=
  nadd cash0
       (nsum (map (fun h => nmul (snd h) (price_or_zero prices (fst h)))
                  portfolio)).

End Valuation.
Import Valuation.

(* ------------------------------------------------------------------ *)
(** ** Properties of the running state *)

Module Invariants.

(** No record of the history carries ['end_asset']. *)
Definition no_end_asset (h : list (qkey * history_entry)) : Prop :=
  forall k e, In (k, e) h -> end_asset e = None.

(** Every holding of [portfolio] was bought from the snapshot [prices]
    with the same allocated amount: the security is listed there with a
    price that is a number strictly above 0, and
    [shares = allocated / price]. *)
Definition bought_from (prices : snapshot) (allocated : num)
  (portfolio : list (string * num)) : Prop :=
  forall name shares, In (name, shares) portfolio ->
    exists p, dict_get String.eqb name prices = Some (Fin p)
              /\ (0 < p)%Qc
              /\ shares = ndiv allocated (Fin p).

(** The rows of a price table come from one data frame: they list the
    same securities. *)
Definition uniform_columns (ts : price_table) : Prop :=
  forall d1 p1 d2 p2 name,
    In (d1, p1) ts -> In (d2, p2) ts ->
    series_has p1 name = series_has p2 name.

(** The holdings invariant of the loop. *)
Definition holdings_ok (price_ts : option price_table) (st : state) : Prop :=
  (length (current_portfolio st) <= TOP_N_STOCKS)%nat
  /\ NoDup (map fst (current_portfolio st))
  /\ (current_portfolio st = []
      \/ exists ts d prices allocated,
           price_ts = Some ts
           /\ In (d, prices) ts
           /\ bought_from prices allocated (current_portfolio st)).

End Invariants.
Import Invariants.

(* ------------------------------------------------------------------ *)
(** ** Running sums on rationals

    What [np.cumsum] computes when every entry is a number. *)

Module Exact.

Fixpoint qcumsum_from (acc : Qc) (l : list Qc) : list Qc :=
  match l with
  | [] => []
  | x :: l' => let a := (acc + x)%Qc in a :: qcumsum_from a l'
  end.

Definition qsum_from (acc : Qc) (l : list Qc) : Qc := fold_left Qcplus l acc.

End Exact.
Import Exact.

(* ------------------------------------------------------------------ *)
(** ** Small inputs the statements are run on *)

Module Fixtures.

Local Open Scope string_scope.

Definition qc (n : Z) : num := of_Z n.

(** Column labels of a fundamentals table: the name column, four report
    periods of one indicator, and a column without a period. *)
Definition sample_columns : list string :=
  ["证券名称"; "ROE 2019年报"; "ROE 2020一季"; "ROE 2020三季";
   "ROE 2020年报"; "备注"].

(** Two securities priced on the first two trade dates only. *)
Definition two_dates : price_table :=
  [(mkDate 2021 4 1, [("A", qc 10); ("B", qc 8)]);
   (mkDate 2021 7 1, [("A", qc 12); ("B", qc 8)])].

(** The second row has an empty cell for the security held. *)
Definition gap_after_purchase : price_table :=
  [(mkDate 2021 4 1, [("A", qc 10); ("B", qc 8)]);
   (mkDate 2021 7 1, [("A", NaN); ("B", qc 8)])].

(** A scoring stage that ranks A before B on every date. *)
Definition rank_A_first : date -> option (matrix * list (string * num)) :=
  fun _ => Some ([[qc 1]], [("A", qc 2); ("B", qc 1)]).

(** A scoring stage whose ranked list holds A alone. *)
Definition rank_A_only : date -> option (matrix * list (string * num)) :=
  fun _ => Some ([[qc 1]], [("A", qc 2)]).

(** A scoring stage that ranks a security the price table does not list. *)
Definition rank_unlisted : date -> option (matrix * list (string * num)) :=
  fun _ => Some ([[qc 1]], [("C", qc 2)]).

(** Three indicators, two securities; a scaler that leaves the matrix as
    it is and a fit that returns the first [k] of three fixed loading
    vectors, with squared norms 4, 1 and 1. *)
Definition three_indicators : window_data :=
  mkWindow ["x"; "y"; "z"]
           [("A", [qc 1; qc 2; qc 3]); ("B", [qc 3; qc 2; qc 1])].

Definition fixed_loadings : matrix :=
  [[qc 2; qc 0; qc 0]; [qc 0; qc 1; qc 0]; [qc 0; qc 0; qc 1]].

Definition id_scaler : matrix -> matrix := fun m => m.

Definition fixed_fit : nat -> matrix -> option (matrix * matrix) :=
  fun k X => Some (map (firstn k) X, firstn k fixed_loadings).

(** Factor scores of two securities on three factors. *)
Definition two_scores : matrix :=
  [[qc 1; qc 2; qc 3]; [qc 3; qc 2; qc 1]].

(** A fit that scores every security 1 on a single factor. *)
Definition flat_fit : nat -> matrix -> option (matrix * matrix) :=
  fun k X => Some (map (fun _ => [qc 1]) X, [[qc 1; qc 0; qc 0]]).

End Fixtures.
Import Fixtures.

(* ------------------------------------------------------------------ *)
(** ** Properties of the records a run leaves *)

Module Records.

(** The first record of the history, if any, starts at the initial
    capital; before any record exists, the cash is the initial capital
    and nothing is held. *)
Definition starts_at_initial_capital (st : state) : Prop :=
  match portfolio_history st with
  | [] => cash st = INITIAL_CAPITAL /\ current_portfolio st = []
  | (_, e) :: _ => start_asset e = INITIAL_CAPITAL
  end.

(** Every stored top list is the head of a ranked list the scoring
    stage returned for a quarter of [qs]. *)
Definition rankings_from_scoring (qs : list date)
  (score_quarter : date -> option (matrix * list (string * num)))
  (st : state) : Prop :=
  forall k top, In (k, top) (all_top_stocks st) ->
    exists trade_date loadings ranked,
      In trade_date qs
      /\ k = quarter_str trade_date
      /\ score_quarter trade_date = Some (loadings, ranked)
      /\ top = firstn TOP_N_STOCKS ranked.

(** The three facts the records keep through one quarter. *)
Definition records_ok (price_ts : option price_table)
  (score_quarter : date -> option (matrix * list (string * num)))
  (seen : list date) (st : state) : Prop :=
  rankings_from_scoring seen score_quarter st
  /\ map fst (all_loadings st) = map fst (all_top_stocks st)
  /\ (price_ts <> None ->
      incl (map fst (all_top_stocks st)) (map fst (portfolio_history st))).

End Records.
Import Records.

(* ------------------------------------------------------------------ *)
(** ** History keys as the strings they are

    [quarter_str] above keeps a key as the pair it is printed from; here
    is the printed form [f"{year}Q{quarter}"] and what
    [generate_visualizations] reads back from it. *)

Module KeyStrings.

Local Open Scope string_scope.

(** [str(n)] for an integer. *)
Definition str_of_Z (z : Z) : string :=
  DecimalString.NilZero.string_of_int (Z.to_int z).

(** [f"{year}Q{quarter}"]. *)
Definition quarter_label (k : qkey) : string :=
  str_of_Z (fst k) ++ "Q" ++ str_of_Z (snd k).

Fixpoint digits_value (acc : Z) (s : string) : option Z :=
  match s with
  | EmptyString => Some acc
  | String c s' =>
      match digit_of c with
      | Some d => digits_value (acc * 10 + d) s'
      | None => None
      end
  end.

(** [int(s)] on a string of decimal digits; [None] is the [ValueError]
    of the empty string or of a character that is no digit (signs,
    blanks and underscores, which [int] also reads, do not occur in a
    key). *)
Definition py_int (s : string) : option Z :=
  match s with
  | EmptyString => None
  | String _ _ => digits_value 0 s
  end.

(** [q[:4]] and [q[5:]]. *)
Definition year_slice (q : string) : string := substring 0 4 q.
Definition quarter_slice (q : string) : string :=
  substring 5 (String.length q - 5) q.

(** Line 243:
    [pd.to_datetime(f"{q[:4]}-{(int(q[5:])-1)*3 + 1}-01")]; [None] when
    a slice is no number or the month is outside 1..12. *)
Definition key_date (q : string) : option date :=
  match py_int (year_slice q), py_int (quarter_slice q) with
  | Some y, Some n =>
      let m := ((n - 1) * 3 + 1)%Z in
      if ((1 <=? m) && (m <=? 12))%Z then Some (mkDate y m 1) else None
  | _, _ => None
  end.

(** The first day of the quarter of a date: the trade dates of the
    backtest are such days. *)
Definition quarter_start (d : date) : date :=
  mkDate (year d) ((quarter d - 1) * 3 + 1) 1.

(** The keys the statements below are about: a year of four digits and
    a quarter from 1 to 4. *)
Definition valid_key (k : qkey) : Prop :=
  (1000 <= fst k <= 9999)%Z /\ (1 <= snd k <= 4)%Z.

Definition four_digit_years : list Z :=
  map (fun n => (1000 + Z.of_nat n)%Z) (seq 0 (Z.to_nat 9000)).

(** A key printed digit by digit. *)
Definition digit_char (d : Z) : ascii := ascii_of_nat (48 + Z.to_nat d).

Definition label_by_digits (k : qkey) : string :=
  let y := fst k in
  String (digit_char (y / 1000))
    (String (digit_char (y / 100 mod 10))
       (String (digit_char (y / 10 mod 10))
          (String (digit_char (y mod 10))
             (String "Q" (String (digit_char (snd k)) EmptyString))))).

(** The checks run over every key with a four-digit year: the printed
    form is the digit-by-digit one, and the two slices read back the
    year and the quarter. *)
Definition label_checks (y : Z) : bool :=
  forallb (fun q =>
             String.eqb (quarter_label (y, q)) (label_by_digits (y, q))
             && match py_int (year_slice (quarter_label (y, q))),
                      py_int (quarter_slice (quarter_label (y, q))) with
                | Some y', Some q' => (y' =? y)%Z && (q' =? q)%Z
                | _, _ => false
                end)
          [1; 2; 3; 4]%Z.

(** The order of two keys as pairs. *)
Definition qkey_compare (a b : qkey) : comparison :=
  match (fst a ?= fst b)%Z with
  | Eq => (snd a ?= snd b)%Z
  | c => c
  end.

Definition qkey_lt (a b : qkey) : Prop := qkey_compare a b = Lt.

(** [sorted(...)] on strings: insertion into an ascending list, equal
    strings kept in their order. *)
Fixpoint insert_sorted (x : string) (l : list string) : list string :=
  match l with
  | [] => [x]
  | y :: l' => if String.leb x y then x :: l else y :: insert_sorted x l'
  end.

Definition py_sorted (l : list string) : list string :=
  fold_right insert_sorted [] l.

End KeyStrings.
Import KeyStrings.

(* ------------------------------------------------------------------ *)
(** ** The net value curve (lines 241-250) *)

Module NavCurve.

(** [history] with the keys as the strings they are. *)
Definition history_dict (h : list (qkey * history_entry))
  : list (string * history_entry) :=
  map (fun kv => (quarter_label (fst kv), snd kv)) h.

(** [d + pd.DateOffset(months=k)]. *)
Definition add_months (d : date) (k : Z) : date := sub_months d (- k).

Fixpoint all_some {A : Type} (l : list (option A)) : option (list A) :=
  match l with
  | [] => Some []
  | None :: _ => None
  | Some x :: l' =>
      match all_some l' with
      | Some xs => Some (x :: xs)
      | None => None
      end
  end.

(** [history[q]['start_asset'] / INITIAL_CAPITAL]. *)
Definition net_value_of (h : list (string * history_entry)) (q : string)
  : num :=
  match dict_get String.eqb q h with
  | Some e => ndiv (start_asset e) INITIAL_CAPITAL
  | None => NaN
  end.

(** The end value line 245 accepts: the key is there and the value is
    not NaN. *)
Definition known_end_asset (h : list (string * history_entry)) (q : string)
  : option num :=
  match dict_get String.eqb q h with
  | Some e =>
      match end_asset e with
      | Some v => if notna v then Some v else None
      | None => None
      end
  | None => None
  end.

Inductive curve_result : Type :=
| NoCurve : curve_result
| Raised : curve_result
| Curve (dates : list date) (net_values : list num) (total_return : num)
  : curve_result.

(** Lines 241-250: nothing is drawn for fewer than two records;
    [Raised] stands for a key that [int] or [to_datetime] rejects. *)
Definition nav_curve (h : list (string * history_entry)) : curve_result :=
  if (1 <? length h)%nat then
    let sorted_q := py_sorted (map fst h) in
    match all_some (map key_date sorted_q) with
    | None => Raised
    | Some dates =>
        let net_values := map (net_value_of h) sorted_q in
        let ends :=
          match known_end_asset h (last sorted_q EmptyString) with
          | Some v =>
              (dates ++ [add_months (last dates (mkDate 0 1 1)) 3],
               net_values ++ [ndiv v INITIAL_CAPITAL])
          | None => (dates, net_values)
          end in
        Curve (fst ends) (snd ends)
              (nmul (nsub (last (snd ends) NaN) (of_Z 1)) (of_Z 100))
    end
  else NoCurve.

(** The trade date a key stands for. *)
Definition key_start (k : qkey) : date :=
  mkDate (fst k) ((snd k - 1) * 3 + 1) 1.

(** The keys of a history are those of quarters in time order, with
    four-digit years. *)
Definition keys_in_order (h : list (qkey * history_entry)) : Prop :=
  StronglySorted qkey_lt (map fst h) /\ Forall valid_key (map fst h).

(** The curve read off the records in their order: one point per
    record, then the terminal point if the last record carries an end
    value that is not NaN. *)
Definition curve_of_records (h : list (qkey * history_entry))
  : curve_result :=
  if (1 <? length h)%nat then
    let dates := map (fun kv => key_start (fst kv)) h in
    let net_values :=
      map (fun kv => ndiv (start_asset (snd kv)) INITIAL_CAPITAL) h in
    let last_entry := snd (last h ((0%Z, 0%Z), mkEntry NaN None)) in
    let ends :=
      match end_asset last_entry with
      | Some v =>
          if notna v
          then (dates ++ [add_months (last dates (mkDate 0 1 1)) 3],
                net_values ++ [ndiv v INITIAL_CAPITAL])
          else (dates, net_values)
      | None => (dates, net_values)
      end in
    Curve (fst ends) (snd ends)
          (nmul (nsub (last (snd ends) NaN) (of_Z 1)) (of_Z 100))
  else NoCurve.

End NavCurve.
Import NavCurve.

(* ------------------------------------------------------------------ *)
(** ** Base indicator names: [get_base_indicator_name] (lines 64-65) *)

Module BaseName.

Definition byte (n : nat) : ascii := ascii_of_nat n.

(** The characters [str.strip()] removes, as UTF-8 byte sequences: the
    ASCII blanks and separators, then U+0085, U+00A0, U+1680,
    U+2000..U+200A, U+2028, U+2029, U+202F, U+205F and U+3000. *)
Definition whitespace : list (list ascii) :=
  map (fun n => [byte n]) [9; 10; 11; 12; 13; 28; 29; 30; 31; 32]%nat
  ++ [[byte 194; byte 133]; [byte 194; byte 160];
      [byte 225; byte 154; byte 128]]
  ++ map (fun n => [byte 226; byte 128; byte n])
         [128; 129; 130; 131; 132; 133; 134; 135; 136; 137; 138;
          168; 169; 175]%nat
  ++ [[byte 226; byte 129; byte 159]; [byte 227; byte 128; byte 128]].

Fixpoint drop_prefix (p s : list ascii) : option (list ascii) :=
  match p, s with
  | [], _ => Some s
  | a :: p', b :: s' => if Ascii.eqb a b then drop_prefix p' s' else None
  | _ :: _, [] => None
  end.

(** [s] without one leading sequence of [seqs], if it starts with one. *)
Fixpoint drop_one (seqs : list (list ascii)) (s : list ascii)
  : option (list ascii) :=
  match seqs with
  | [] => None
  | p :: seqs' =>
      match drop_prefix p s with
      | Some s' => Some s'
      | None => drop_one seqs' s
      end
  end.

Fixpoint drop_leading (fuel : nat) (seqs : list (list ascii))
  (s : list ascii) : list ascii :=
  match fuel with
  | O => s
  | S fuel' =>
      match drop_one seqs s with
      | Some s' => drop_leading fuel' seqs s'
      | None => s
      end
  end.

(** [s.lstrip()] and [s.rstrip()]; from the right the sequences are
    matched backwards. *)
Definition lstrip (s : list ascii) : list ascii :=
  drop_leading (length s) whitespace s.

Definition rstrip (s : list ascii) : list ascii :=
  rev (drop_leading (length s) (map (@rev ascii) whitespace) (rev s)).

(** [s.strip()]. *)
Definition strip (s : list ascii) : list ascii := rstrip (lstrip s).

(** [re.sub(r'\n.*', '', s, flags=re.DOTALL)]: with [DOTALL] the first
    line break and all that follows is one match. *)
Fixpoint before_newline (s : list ascii) : list ascii :=
  match s with
  | [] => []
  | c :: s' => if Ascii.eqb c newline then [] else c :: before_newline s'
  end.

Definition get_base_indicator_name (column_name : string) : string :=
  string_of_list_ascii
    (strip (before_newline (list_ascii_of_string column_name))).

End BaseName.
Import BaseName.

(* ------------------------------------------------------------------ *)
(** ** Window aggregation (lines 131-146) *)

Module Aggregator.

(** [Series.mean()] of a row over some columns, missing values skipped:
    NaN when every value is missing. *)
Definition mean_skipna (xs : list num) : num :=
  match filter notna xs with
  | [] => NaN
  | v :: vals =>
      ndiv (nsum (v :: vals)) (of_Z (Z.of_nat (length (v :: vals))))
  end.

Section Table.

(** What a cell of the sheet holds, and [pd.to_numeric(...,
    errors='coerce')] on it: a number, or NaN for anything else. *)
Variable cell : Type.
Variable to_numeric : cell -> num.

(** [fundamental_df]: the labels of all columns, the name column first,
    and per security its name and the cells of the other columns. *)
Record fundamentals : Type := mkTable {
  columns : list string;
  securities : list (string * list cell)
}.

(** The numeric value of the cell of a row under a label. *)
Definition value_at (t : fundamentals) (cells : list cell) (col : string)
  : num :=
  match dict_get String.eqb col (combine (tl (columns t)) cells) with
  | Some c => to_numeric c
  | None => NaN
  end.

(** [sorted(list({get_base_indicator_name(col) for col in window_cols}))]. *)
Definition base_indicators (window : list string) : list string :=
  py_sorted (nodup string_dec (map get_base_indicator_name window)).

Definition cols_for_mean (window : list string) (indicator : string)
  : list string :=
  filter (fun col => String.eqb (get_base_indicator_name col) indicator)
         window.

(** One row of [mean_df]: the name and one mean per base indicator. *)
Definition mean_row (t : fundamentals) (window : list string)
  (row : string * list cell) : string * list num :=
  (fst row,
   map (fun indicator =>
          mean_skipna (map (value_at t (snd row))
                           (cols_for_mean window indicator)))
       (base_indicators window)).

(** [mean_df.dropna()]. *)
Definition dropna (rows : list (string * list num))
  : list (string * list num) :=
  filter (fun r => forallb notna (snd r)) rows.

(** Lines 131-146: [None] is the [continue] of an empty window;
    otherwise the matrix handed to the extractor. *)
Definition aggregate_window (t : fundamentals) (trade_date : date)
  : option window_data :=
  match window_cols trade_date (columns t) with
  | [] => None
  | window =>
      Some (mkWindow (base_indicators window)
                     (dropna (map (mean_row t window) (securities t))))
  end.

End Table.

End Aggregator.
Import Aggregator.

(* ------------------------------------------------------------------ *)
(** ** A small fundamentals table *)

Module SampleTable.

Local Open Scope string_scope.

(** Two report periods of ROE and one of EPS in the window of
    2021-04-01, one ROE column outside it; security B has no numeric ROE
    cell in the window. *)
Definition sample_table : fundamentals num :=
  mkTable num
    ["证券名称"; "ROE
[报告期] 2020一季"; "ROE
[报告期] 2020中报"; "EPS
[报告期] 2020三季"; "ROE
[报告期] 2020年报"]
    [("A", [qc 1; NaN; qc 2; qc 9]);
     ("B", [NaN; NaN; qc 3; qc 9]);
     ("C", [qc 2; qc 4; qc 5; NaN])].

Definition as_number (x : num) : num := x.

End SampleTable.
Import SampleTable.

(* ------------------------------------------------------------------ *)
(** ** Reference quantities for the growth of a portfolio *)

Module Growth.

(** The price of [name] in a later snapshot over the price it was bought
    at; the later price is read as the valuation on line 106 reads it. *)
Definition price_relative (prices later : snapshot) (name : string) : num :=
  ndiv (series_get later name (of_Z 0)) (series_get prices name NaN).

Definition mean_price_relative (prices later : snapshot)
  (names : list string) : num :=
  ndiv (nsum (map (price_relative prices later) names))
       (of_Z (Z.of_nat (length names))).

(** The growth factor a list of percentage returns compounds to. *)
Definition compound (rets : list num) : num :=
  fold_left (fun acc r => nmul acc (nadd (of_Z 1) (ndiv r (of_Z 100))))
            rets (of_Z 1).

End Growth.
Import Growth.

(* ------------------------------------------------------------------ *)
(** ** File names ([main], lines 298-302; the detail workbook, lines 210
    and 265-270)

    Strings are the UTF-8 bytes of the Python strings; a search for a
    well-formed pattern finds the same occurrences on bytes as on code
    points. *)

Module FileNames.

Local Open Scope string_scope.

Definition CLEANED_SUFFIX : string := "_清洗后.xlsx".
Definition PRICE_SUFFIX : string := "_股价整理.xlsx".
Definition DETAIL_SUFFIX : string := "_收益回测明细.xlsx".

(** [s[n:]]. *)
Fixpoint drop_str (n : nat) (s : string) : string :=
  match n, s with
  | O, _ => s
  | S n', String _ s' => drop_str n' s'
  | S _, EmptyString => EmptyString
  end.

(** [s.endswith(suffix)]. *)
Fixpoint ends_with (suffix s : string) : bool :=
  if String.eqb s suffix then true
  else match s with
       | EmptyString => false
       | String _ s' => ends_with suffix s'
       end.

(** [s.replace(old, "")] for a pattern [old] that is not empty: the
    occurrences are looked for from the left and do not overlap. *)
Fixpoint remove_fuel (fuel : nat) (old s : string) : string :=
  match fuel with
  | O => s
  | S fuel' =>
      if starts_with old s
      then remove_fuel fuel' old (drop_str (String.length old) s)
      else match s with
           | EmptyString => EmptyString
           | String c s' => String c (remove_fuel fuel' old s')
           end
  end.

Definition str_remove (old s : string) : string :=
  match old with
  | EmptyString => s
  | String _ _ => remove_fuel (S (String.length s)) old s
  end.

(** Lines 299-300: the industry name of a file [main] takes up; [None]
    for a file it passes over. *)
Definition industry_of_file (filename : string) : option string :=
  if ends_with CLEANED_SUFFIX filename && negb (starts_with "~" filename)
  then Some (str_remove CLEANED_SUFFIX filename)
  else None.

(** Line 302, under [PRICE_DATA_DIR]. *)
Definition price_file_name (industry_name : string) : string :=
  industry_name ++ PRICE_SUFFIX.

(** Line 210, under the output folder. *)
Definition detail_file_name (industry_name : string) : string :=
  industry_name ++ DETAIL_SUFFIX.

(** Line 265: the entries of the output folder the pattern
    ["*_收益回测明细.xlsx"] matches; [glob] leaves out the entries that
    start with a dot. *)
Definition glob_detail (entry : string) : bool :=
  ends_with DETAIL_SUFFIX entry && negb (starts_with "." entry).

(** Line 270: the legend label of a matched entry. *)
Definition legend_of_entry (entry : string) : string :=
  str_remove DETAIL_SUFFIX entry.

(** [old] occurs in [s]. *)
Definition occurs (old s : string) : Prop :=
  exists a b, s = a ++ old ++ b.

(** [old in s]. *)
Fixpoint occursb (old s : string) : bool :=
  starts_with old s
  || match s with
     | EmptyString => false
     | String _ s' => occursb old s'
     end.

(** The first character of [old] occurs nowhere else in [old]. *)
Definition head_unique (old : string) : bool :=
  match old with
  | EmptyString => false
  | String c rest =>
      negb (existsb (Ascii.eqb c) (list_ascii_of_string rest))
  end.

End FileNames.
Import FileNames.

(* ------------------------------------------------------------------ *)
(** ** The loading figures, one per year (lines 215-217) *)

Module Panels.

(** [sorted({q[:4] for q in loadings.keys()})]. *)
Definition panel_years (keys : list string) : list string :=
  py_sorted (nodup string_dec (map year_slice keys)).

(** [[q for q in loadings if q.startswith(year)]]. *)
Definition quarters_in_year (keys : list string) (year : string)
  : list string :=
  filter (starts_with year) keys.

End Panels.
Import Panels.
Lemma nltb_spec (a b : num) : nltb a b = true <-> nlt a b.
Proof.
  destruct a as [|x], b as [|y]; simpl; try (split; [discriminate | tauto]).
  destruct (Qclt_le_dec x y) as [H|H]; split; auto; try discriminate.
  intros H'. exfalso. exact (Qcle_not_lt _ _ H H').
Qed.

Lemma nlt_notna (a b : num) : nlt a b -> notna a = true /\ notna b = true.
Proof. destruct a, b; simpl; tauto. Qed.

Lemma nadd_comm (a b : num) : nadd a b = nadd b a.
Proof. destruct a, b; simpl; auto. f_equal. apply Qcplus_comm. Qed.

Lemma nadd_0_l (a : num) : nadd (of_Z 0) a = a.
Proof. destruct a; simpl; auto. f_equal. apply Qcplus_0_l. Qed.

Lemma nadd_NaN_r (a : num) : nadd a NaN = NaN.
Proof. destruct a; reflexivity. Qed.

Lemma fold_nadd_NaN (l : list num) : fold_left nadd l NaN = NaN.
Proof. induction l as [|x l IH]; simpl; auto. Qed.

Lemma date_leb_spec (a b : date) : date_leb a b = true <-> date_le a b.
Proof.
  unfold date_leb, date_le.
  rewrite !orb_true_iff, !andb_true_iff, !orb_true_iff, !andb_true_iff.
  rewrite !Z.ltb_lt, !Z.eqb_eq, Z.leb_le. tauto.
Qed.

Lemma date_eqb_spec (a b : date) : date_eqb a b = true <-> a = b.
Proof.
  unfold date_eqb. rewrite !andb_true_iff, !Z.eqb_eq.
  destruct a, b; simpl. split.
  - intros [[-> ->] ->]. reflexivity.
  - intros H. inversion H. auto.
Qed.

Lemma date_le_refl (a : date) : date_le a a.
Proof. unfold date_le. lia. Qed.

Lemma date_le_trans (a b c : date) : date_le a b -> date_le b c -> date_le a c.
Proof. unfold date_le. lia. Qed.

Lemma qkey_eqb_spec (a b : qkey) : qkey_eqb a b = true <-> a = b.
Proof.
  unfold qkey_eqb. rewrite andb_true_iff, !Z.eqb_eq.
  destruct a, b; simpl. split.
  - intros [-> ->]. reflexivity.
  - intros H. inversion H. auto.
Qed.

Lemma qkey_eqb_refl (a : qkey) : qkey_eqb a a = true.
Proof. apply qkey_eqb_spec. reflexivity. Qed.

Example quarters_first_last :
  length quarters = 15%nat
  /\ hd_error quarters = Some (mkDate 2021 4 1)
  /\ last quarters (mkDate 0 0 0) = mkDate 2024 10 1.
Proof. vm_compute. auto. Qed.

Example resolve_examples :
  resolve "净资产收益率ROE
[报告期] 2020年报
[单位] %" = Some (2020%Z, 12%Z)
  /\ resolve "营业收入 2020 一季" = Some (2020%Z, 3%Z)
  /\ resolve "证券代码" = None
  /\ resolve "12 2019中报 2020年报" = Some (2019%Z, 6%Z).
Proof. vm_compute. auto. Qed.

Example window_2021Q2 :
  t2_of (mkDate 2021 4 1) = mkDate 2020 10 1
  /\ t5_of (mkDate 2021 4 1) = mkDate 2020 1 1
  /\ window_cols (mkDate 2021 4 1) sample_columns
     = ["ROE 2020一季"; "ROE 2020三季"]%string.
Proof. vm_compute. auto. Qed.

(* ------------------------------------------------------------------ *)
(** ** The lookback window *)

Lemma in_window_spec (trade_date : date) (col : string) :
  in_window trade_date col = true <->
  exists y m,
    resolve col = Some (y, m)
    /\ date_le (t5_of trade_date) (month_end y m)
    /\ date_le (month_end y m) (t2_of trade_date).
Proof.
  unfold in_window. destruct (resolve col) as [[y m]|].
  - rewrite andb_true_iff, !date_leb_spec. split.
    + intros [H1 H2]. exists y, m. auto.
    + intros (y' & m' & E & H1 & H2). inversion E; subst. auto.
  - split; [discriminate|]. intros (y & m & E & _). discriminate.
Qed.

(** C3: a column is in the window exactly when its label resolves to a
    report date [d] with [t5 <= d <= t2], both ends included, where
    [t2] is the trade date minus 6 months and [t5] is [t2] minus 9
    months; a label that does not resolve is never in the window. *)
Theorem window_cols_inclusive (trade_date : date) (columns : list string)
  (col : string) :
  let t2 := sub_months trade_date 6 in
  let t5 := sub_months t2 9 in
  (In col (window_cols trade_date columns) <->
   In col (tl columns)
   /\ exists y m,
        resolve col = Some (y, m)
        /\ date_le t5 (month_end y m) /\ date_le (month_end y m) t2)
  /\ (resolve col = None -> ~ In col (window_cols trade_date columns)).
Proof.
  intros t2 t5. unfold window_cols. rewrite filter_In, in_window_spec.
  split; [tauto|].
  intros E [_ (y & m & E' & _)]. rewrite E in E'. discriminate.
Qed.

Lemma window_cols_inclusive_witness :
  In "ROE 2020一季"%string (window_cols (mkDate 2021 4 1) sample_columns)
  /\ ~ In "备注"%string (window_cols (mkDate 2021 4 1) sample_columns).
Proof.
  destruct (window_cols_inclusive (mkDate 2021 4 1) sample_columns
              "ROE 2020一季"%string) as [H _].
  destruct (window_cols_inclusive (mkDate 2021 4 1) sample_columns
              "备注"%string) as [_ H'].
  split.
  - apply H. split; [simpl; auto|].
    exists 2020%Z, 3%Z. split; [reflexivity|].
    split; apply date_leb_spec; reflexivity.
  - apply H'. reflexivity.
Defined.

Lemma days_in_month_bounds (y m : Z) : (28 <= days_in_month y m <= 31)%Z.
Proof.
  unfold days_in_month.
  destruct (m =? 2)%Z; [destruct (is_leap y); lia|].
  destruct ((m =? 4) || (m =? 6) || (m =? 9) || (m =? 11))%Z; lia.
Qed.

Lemma sub_months_facts (d : date) (k : Z) :
  month_index (sub_months d k) = (month_index d - k)%Z
  /\ (1 <= month (sub_months d k) <= 12)%Z
  /\ (day d = 1%Z -> day (sub_months d k) = 1%Z).
Proof.
  unfold sub_months, month_index at 1. cbn [year month day].
  set (mi := (month_index d - k)%Z).
  pose proof (Z.div_mod mi 12 ltac:(lia)).
  pose proof (Z.mod_pos_bound mi 12 ltac:(lia)).
  pose proof (days_in_month_bounds (mi / 12) (mi mod 12 + 1)).
  repeat split; try lia.
Qed.

(** On a trade date that is the first of a month, the two inclusive
    bounds select the report months from 15 months back up to 7 months
    back: the upper bound [t2] is the first day of its month and a
    report date is the last day of one. *)
Lemma window_months (trade_date : date) (y m : Z) :
  day trade_date = 1%Z -> (1 <= m <= 12)%Z ->
  (date_le (t5_of trade_date) (month_end y m)
   /\ date_le (month_end y m) (t2_of trade_date))
  <-> (month_index trade_date - 15 <= y * 12 + (m - 1)
       <= month_index trade_date - 7)%Z.
Proof.
  intros Hd Hm. unfold t5_of, t2_of.
  destruct (sub_months_facts trade_date 6) as (I2 & M2 & D2).
  specialize (D2 Hd).
  destruct (sub_months_facts (sub_months trade_date 6) 9) as (I5 & M5 & D5).
  specialize (D5 D2). rewrite I2 in I5.
  pose proof (days_in_month_bounds y m) as Dr.
  unfold date_le, month_end. cbn [year month day].
  rewrite D2, D5. unfold month_index in I2, I5 |- *. lia.
Qed.

(* ------------------------------------------------------------------ *)
(** ** Dictionaries *)

Section DictFacts.
Context {K V : Type} (eqb : K -> K -> bool).
Hypothesis eqb_spec : forall a b, eqb a b = true <-> a = b.

Lemma eqb_refl' (k : K) : eqb k k = true.
Proof. apply eqb_spec. reflexivity. Qed.

Lemma dict_get_set_same (k : K) (v : V) (d : list (K * V)) :
  dict_get eqb k (dict_set eqb k v d) = Some v.
Proof.
  induction d as [|[k' v'] d IH]; simpl.
  - rewrite eqb_refl'. reflexivity.
  - destruct (eqb k k') eqn:E; simpl.
    + rewrite eqb_refl'. reflexivity.
    + rewrite E. exact IH.
Qed.

Lemma dict_set_In (k : K) (v : V) (d : list (K * V)) (x : K * V) :
  In x (dict_set eqb k v d) -> x = (k, v) \/ In x d.
Proof.
  induction d as [|[k' v'] d IH]; simpl.
  - intros [<-|[]]. auto.
  - destruct (eqb k k'); simpl; intros [<-|H]; auto.
    destruct (IH H); auto.
Qed.

Lemma dict_set_keys (k : K) (v : V) (d : list (K * V)) (k0 : K) :
  In k0 (map fst (dict_set eqb k v d)) -> k0 = k \/ In k0 (map fst d).
Proof.
  intros H. apply in_map_iff in H. destruct H as [[a b] [<- H]].
  apply dict_set_In in H. destruct H as [H|H].
  - inversion H. auto.
  - right. apply in_map_iff. exists (a, b). auto.
Qed.

Lemma dict_set_NoDup (k : K) (v : V) (d : list (K * V)) :
  NoDup (map fst d) -> NoDup (map fst (dict_set eqb k v d)).
Proof.
  induction d as [|[k' v'] d IH]; simpl; intros H.
  - constructor; [intros []|constructor].
  - inversion H as [|? ? Hn Hd]; subst.
    destruct (eqb k k') eqn:E; simpl.
    + apply eqb_spec in E. subst. constructor; auto.
    + constructor; auto. intros Hin. apply dict_set_keys in Hin.
      destruct Hin as [->|Hin]; [|contradiction].
      rewrite eqb_refl' in E. discriminate.
Qed.

Lemma dict_set_length (k : K) (v : V) (d : list (K * V)) :
  (length (dict_set eqb k v d) <= S (length d))%nat.
Proof.
  induction d as [|[k' v'] d IH]; simpl; [lia|].
  destruct (eqb k k'); simpl; lia.
Qed.

Lemma dict_update_absent (k : K) (f : V -> V) (d : list (K * V)) :
  dict_get eqb k d = None -> dict_update eqb k f d = d.
Proof.
  induction d as [|[k' v'] d IH]; simpl; auto.
  destruct (eqb k k'); [discriminate|]. intros H. rewrite IH; auto.
Qed.

Lemma dict_get_update (k : K) (f : V -> V) (d : list (K * V)) :
  dict_get eqb k (dict_update eqb k f d) = option_map f (dict_get eqb k d).
Proof.
  induction d as [|[k' v'] d IH]; simpl; auto.
  destruct (eqb k k') eqn:E; simpl; rewrite E; auto.
Qed.

Lemma dict_get_In (k : K) (v : V) (d : list (K * V)) :
  dict_get eqb k d = Some v -> exists k', k' = k /\ In (k', v) d.
Proof.
  induction d as [|[k' v'] d IH]; simpl; [discriminate|].
  destruct (eqb k k') eqn:E.
  - intros H. inversion H; subst. apply eqb_spec in E. exists k'. auto.
  - intros H. destruct (IH H) as (k0 & ? & ?). exists k0. auto.
Qed.

End DictFacts.

(* ------------------------------------------------------------------ *)
(** ** The simulator: skipped quarters *)

Lemma actual_trade_row_none (ts : price_table) (trade_date : date) :
  (forall d prices, In (d, prices) ts -> ~ date_le trade_date d) ->
  actual_trade_row ts trade_date = None.
Proof.
  intros H. unfold actual_trade_row.
  destruct (find _ ts) as [[d p]|] eqn:E; auto.
  apply find_some in E. destruct E as [Hin Hle].
  apply date_leb_spec in Hle. exfalso. exact (H d p Hin Hle).
Qed.

(** C4: when the price series has no date on or after the trade date,
    the quarter is skipped: the whole state (cash, held shares, history)
    is what it was, and the loop goes on with the next quarter. *)
Theorem quarter_without_prices_is_skipped
  (ts : price_table) (qs : list date)
  (score_quarter : date -> option (matrix * list (string * num)))
  (i : nat) (trade_date : date) (rest : list date) (st : state) :
  (forall d prices, In (d, prices) ts -> ~ date_le trade_date d) ->
  let st' := quarter_body (Some ts) qs score_quarter i trade_date st in
  cash st' = cash st
  /\ current_portfolio st' = current_portfolio st
  /\ portfolio_history st' = portfolio_history st
  /\ st' = st
  /\ run_quarters (Some ts) qs score_quarter i (trade_date :: rest) st
     = run_quarters (Some ts) qs score_quarter (S i) rest st.
Proof.
  intros H st'.
  assert (E : st' = st).
  { unfold st', quarter_body, period_start.
    rewrite (actual_trade_row_none _ _ H). reflexivity. }
  repeat split; try (rewrite E; reflexivity).
  simpl. fold st'. rewrite E. reflexivity.
Qed.

Lemma quarter_without_prices_is_skipped_witness :
  let st := run_quarters (Some two_dates) quarters rank_A_first 0
              (firstn 2 quarters) initial_state in
  current_portfolio st <> []
  /\ quarter_body (Some two_dates) quarters rank_A_first 2
       (mkDate 2021 10 1) st = st.
Proof.
  split.
  - vm_compute. discriminate.
  - apply (quarter_without_prices_is_skipped two_dates quarters rank_A_first
             2 (mkDate 2021 10 1) []).
    intros d prices Hin. simpl in Hin.
    destruct Hin as [Hin|[Hin|[]]]; inversion Hin; subst;
      unfold date_le; simpl; lia.
Defined.

(* ------------------------------------------------------------------ *)
(** ** The simulator: the terminal value *)

Section LoopFacts.
Variable price_ts : option price_table.
Variable qs : list date.
Variable score_quarter : date -> option (matrix * list (string * num)).

Lemma period_start_history (i : nat) (trade_date : date) (st st1 : state)
  (prices : option snapshot) :
  period_start price_ts i trade_date st = Some (st1, prices) ->
  no_end_asset (portfolio_history st) -> no_end_asset (portfolio_history st1).
Proof.
  unfold period_start. destruct price_ts as [ts|].
  - destruct (actual_trade_row ts trade_date) as [[d p]|]; [|discriminate].
    intros E Hn. inversion E; subst; clear E. simpl.
    intros k e Hin. apply dict_set_In in Hin. destruct Hin as [Hin|Hin].
    + inversion Hin. reflexivity.
    + exact (Hn k e Hin).
  - intros E Hn. inversion E; subst. exact Hn.
Qed.

Lemma open_positions_history (trade_date : date) (prices : option snapshot)
  (top : list (string * num)) (st : state) :
  portfolio_history (open_positions qs trade_date prices top st)
  = portfolio_history st.
Proof.
  unfold open_positions. destruct prices; auto.
  destruct (date_eqb trade_date (last_quarter qs)); auto.
Qed.

Lemma quarter_body_history (i : nat) (trade_date : date) (st : state) :
  no_end_asset (portfolio_history st) ->
  no_end_asset
    (portfolio_history (quarter_body price_ts qs score_quarter i trade_date st)).
Proof.
  intros Hn. unfold quarter_body.
  destruct (period_start price_ts i trade_date st) as [[st1 prices]|] eqn:E;
    auto.
  pose proof (period_start_history _ _ _ _ _ E Hn) as H1.
  destruct (score_quarter trade_date) as [[L ranked]|]; auto.
  rewrite open_positions_history. exact H1.
Qed.

Lemma run_quarters_history (l : list date) (i : nat) (st : state) :
  no_end_asset (portfolio_history st) ->
  no_end_asset
    (portfolio_history (run_quarters price_ts qs score_quarter i l st)).
Proof.
  revert i st. induction l as [|d l IH]; intros i st Hn; simpl; auto.
  apply IH. apply quarter_body_history. exact Hn.
Qed.

End LoopFacts.

(** C9: when the history has no entry under the last quarter's key, no
    entry of the history carries an end-of-period value, whatever cash
    and shares are left. *)
Theorem no_terminal_value_without_last_entry
  (price_ts : option price_table) (qs : list date)
  (score_quarter : date -> option (matrix * list (string * num))) :
  let st := backtest_and_analyze price_ts qs score_quarter in
  dict_get qkey_eqb (quarter_str (last_quarter qs)) (portfolio_history st)
  = None ->
  forall k e, In (k, e) (portfolio_history st) -> end_asset e = None.
Proof.
  unfold backtest_and_analyze.
  set (st0 := run_quarters price_ts qs score_quarter 0 qs initial_state).
  assert (Hn : no_end_asset (portfolio_history st0)).
  { apply run_quarters_history. intros k e []. }
  unfold final_liquidation.
  destruct price_ts as [ts|]; [|exact (fun _ => Hn)].
  destruct (portfolio_history st0) as [|x h] eqn:Eh.
  { intros _ k e Hin. rewrite Eh in Hin. destruct Hin. }
  cbn [portfolio_history]. rewrite dict_get_update.
  destruct (dict_get qkey_eqb (quarter_str (last_quarter qs)) (x :: h))
    eqn:Eg; [discriminate|].
  intros _. rewrite (dict_update_absent _ _ _ _ Eg). exact Hn.
Qed.

Lemma no_terminal_value_without_last_entry_witness :
  let st := backtest_and_analyze (Some two_dates) quarters rank_A_first in
  current_portfolio st <> []
  /\ portfolio_history st <> []
  /\ forall k e, In (k, e) (portfolio_history st) -> end_asset e = None.
Proof.
  split; [vm_compute; discriminate|].
  split; [vm_compute; discriminate|].
  apply (no_terminal_value_without_last_entry
           (Some two_dates) quarters rank_A_first).
  vm_compute. reflexivity.
Defined.

(** When the entry is there, the terminal value is attached to it. *)
Lemma terminal_value_attached (ts : price_table) (qs : list date)
  (score_quarter : date -> option (matrix * list (string * num)))
  (e : history_entry) :
  let st0 := run_quarters (Some ts) qs score_quarter 0 qs initial_state in
  dict_get qkey_eqb (quarter_str (last_quarter qs)) (portfolio_history st0)
  = Some e ->
  dict_get qkey_eqb (quarter_str (last_quarter qs))
    (portfolio_history (backtest_and_analyze (Some ts) qs score_quarter))
  = Some (mkEntry (start_asset e) (Some (final_asset_value ts st0))).
Proof.
  intros st0 Hg. unfold backtest_and_analyze, final_liquidation. fold st0.
  destruct (portfolio_history st0) as [|x h] eqn:Eh; [discriminate|].
  cbn [portfolio_history]. rewrite dict_get_update, Hg. reflexivity.
Qed.

(* ------------------------------------------------------------------ *)
(** ** Evaluating on concrete numbers *)

Lemma Fin_eq (x y : Qc) : Qeq_bool x y = true -> Fin x = Fin y.
Proof.
  intros H. f_equal. apply Qc_is_canon. apply Qeq_bool_iff. exact H.
Qed.

Ltac num_eq :=
  vm_compute;
  repeat match goal with
         | |- Fin _ = Fin _ => apply Fin_eq; vm_compute; reflexivity
         | |- @eq num NaN NaN => reflexivity
         | |- @eq (list _) _ _ => f_equal
         | |- @eq (option _) _ _ => f_equal
         | |- @eq (_ * _)%type _ _ => f_equal
         | |- @eq history_entry _ _ => f_equal
         | |- _ => reflexivity
         end.

(* ------------------------------------------------------------------ *)
(** ** The simulator: valuation *)

(** The valuation of the code agrees with the specification as long as
    no holding has a NaN cell in the snapshot: a holding the snapshot
    does not list counts for 0. *)
Lemma valuation_agrees_without_nan (cash0 : num) (prices : snapshot)
  (portfolio : list (string * num)) :
  Forall (fun h => dict_get String.eqb (fst h) prices <> Some NaN) portfolio ->
  nadd (stock_value prices portfolio) cash0
  = total_asset_value_spec cash0 prices portfolio.
Proof.
  intros H. unfold total_asset_value_spec, stock_value.
  rewrite nadd_comm. f_equal. f_equal.
  apply map_ext_in. intros h Hin.
  rewrite Forall_forall in H. specialize (H h Hin).
  unfold series_get, price_or_zero.
  destruct (dict_get String.eqb (fst h) prices) as [[|p]|]; auto.
  congruence.
Qed.

(** A holding whose cell is NaN makes the whole sum NaN. *)
Lemma stock_value_nan (prices : snapshot) (portfolio : list (string * num))
  (name : string) (shares : num) :
  In (name, shares) portfolio ->
  dict_get String.eqb name prices = Some NaN ->
  stock_value prices portfolio = NaN.
Proof.
  intros Hin Hp. unfold stock_value, nsum.
  set (f := fun p : string * num => nmul (snd p) (series_get prices (fst p) (of_Z 0))).
  assert (Hf : f (name, shares) = NaN).
  { unfold f, series_get. simpl. rewrite Hp. destruct shares; reflexivity. }
  clearbody f. generalize (of_Z 0).
  induction portfolio as [|h pf IH]; [destruct Hin|].
  intros acc. simpl. destruct Hin as [->|Hin].
  - rewrite Hf, nadd_NaN_r. apply fold_nadd_NaN.
  - apply IH. exact Hin.
Qed.

(** C1, at the failing input: security A is bought in 2021Q2 at 10 and
    has an empty price cell on the next trade date.  The code values the
    portfolio at NaN and records NaN as the start asset of 2021Q3; the
    valuation of the specification is 0 there. *)
Theorem nan_price_poisons_valuation :
  let bt := Some gap_after_purchase in
  let st1 := run_quarters bt quarters rank_A_only 0
               (firstn 1 quarters) initial_state in
  let prices := [("A"%string, NaN); ("B"%string, qc 8)] in
  actual_trade_row gap_after_purchase (mkDate 2021 7 1)
  = Some (mkDate 2021 7 1, prices)
  /\ current_portfolio st1 = [("A"%string, qc 100000)]
  /\ cash st1 = qc 0
  /\ nadd (stock_value prices (current_portfolio st1)) (cash st1) = NaN
  /\ total_asset_value_spec (cash st1) prices (current_portfolio st1) = qc 0
  /\ dict_get qkey_eqb (2021%Z, 3%Z)
       (portfolio_history
          (backtest_and_analyze bt quarters rank_A_only))
     = Some (mkEntry NaN None).
Proof.
  repeat split; num_eq.
Qed.

(* ------------------------------------------------------------------ *)
(** ** The simulator: rebalancing *)

(** C6: in a quarter that is not the last, priced at [prices], whose
    scoring succeeds and whose top names contain none that is tradable,
    the quarter ends with the cash of the period start (the total asset
    value just recorded), no holdings, and the history of the period
    start; the loop goes on with the next quarter. *)
Theorem no_tradable_names_stays_in_cash
  (ts : price_table) (qs : list date)
  (score_quarter : date -> option (matrix * list (string * num)))
  (i : nat) (trade_date : date) (rest : list date) (st st1 : state)
  (prices : snapshot) (loadings : matrix) (ranked : list (string * num)) :
  trade_date <> last_quarter qs ->
  period_start (Some ts) i trade_date st = Some (st1, Some prices) ->
  score_quarter trade_date = Some (loadings, ranked) ->
  tradable_names prices (map fst (firstn TOP_N_STOCKS ranked)) = [] ->
  let st' := quarter_body (Some ts) qs score_quarter i trade_date st in
  cash st' = cash st1
  /\ current_portfolio st' = []
  /\ portfolio_history st' = portfolio_history st1
  /\ dict_get qkey_eqb (quarter_str trade_date) (portfolio_history st')
     = Some (mkEntry (cash st') None)
  /\ run_quarters (Some ts) qs score_quarter i (trade_date :: rest) st
     = run_quarters (Some ts) qs score_quarter (S i) rest st'.
Proof.
  intros Hlast Hps Hsc Htr st'.
  assert (E : st' = mkState (cash st1) (current_portfolio st1)
                      (portfolio_history st1)
                      (dict_set qkey_eqb (quarter_str trade_date) loadings
                         (all_loadings st1))
                      (dict_set qkey_eqb (quarter_str trade_date)
                         (firstn TOP_N_STOCKS ranked) (all_top_stocks st1))).
  { unfold st', quarter_body. rewrite Hps, Hsc. unfold open_positions.
    destruct (date_eqb trade_date (last_quarter qs)) eqn:Ed.
    - apply date_eqb_spec in Ed. contradiction.
    - cbn [cash current_portfolio portfolio_history all_loadings
           all_top_stocks]. rewrite Htr. reflexivity. }
  unfold period_start in Hps.
  destruct (actual_trade_row ts trade_date) as [[d p]|]; [|discriminate].
  inversion Hps; subst st1 prices; clear Hps.
  rewrite E. cbn [cash current_portfolio portfolio_history].
  repeat split.
  - apply dict_get_set_same. exact qkey_eqb_spec.
  - simpl. fold st'. rewrite E. reflexivity.
Qed.

Lemma no_tradable_names_stays_in_cash_witness :
  let st' := quarter_body (Some two_dates) quarters rank_unlisted 0
               (mkDate 2021 4 1) initial_state in
  cash st' = INITIAL_CAPITAL /\ current_portfolio st' = [].
Proof.
  pose proof (no_tradable_names_stays_in_cash two_dates quarters
                rank_unlisted 0 (mkDate 2021 4 1) [] initial_state
                (mkState INITIAL_CAPITAL []
                   [((2021%Z, 2%Z), mkEntry INITIAL_CAPITAL None)] [] [])
                [("A"%string, qc 10); ("B"%string, qc 8)]
                [[qc 1]] [("C"%string, qc 2)]) as H.
  cbv zeta in H.
  destruct H as (Hc & Hp & _).
  - vm_compute. discriminate.
  - reflexivity.
  - reflexivity.
  - reflexivity.
  - split; [exact Hc | exact Hp].
Defined.

Lemma tradable_names_valid (prices : snapshot) (targets : list string)
  (name : string) :
  In name (tradable_names prices targets) ->
  In name targets
  /\ exists p, dict_get String.eqb name prices = Some (Fin p) /\ (0 < p)%Qc.
Proof.
  unfold tradable_names. rewrite !filter_In, andb_true_iff.
  intros [[Hin _] [Hna Hgt]]. split; [exact Hin|].
  unfold series_get in *.
  destruct (dict_get String.eqb name prices) as [[|p]|];
    try discriminate.
  exists p. split; [reflexivity|].
  unfold ngtb in Hgt. apply nltb_spec in Hgt. exact Hgt.
Qed.

Lemma filter_length {A : Type} (f : A -> bool) (l : list A) :
  (length (filter f l) <= length l)%nat.
Proof.
  induction l as [|x l IH]; simpl; [lia|]. destruct (f x); simpl; lia.
Qed.

Lemma tradable_names_length (prices : snapshot)
  (ranked : list (string * num)) :
  (length (tradable_names prices (map fst (firstn TOP_N_STOCKS ranked)))
   <= TOP_N_STOCKS)%nat.
Proof.
  unfold tradable_names.
  eapply Nat.le_trans; [apply filter_length|].
  eapply Nat.le_trans; [apply filter_length|].
  rewrite length_map. apply firstn_le_length.
Qed.

Lemma buy_loop (prices : snapshot) (inv : num) (names : list string) :
  Forall (fun n => exists p,
            dict_get String.eqb n prices = Some (Fin p) /\ (0 < p)%Qc) names ->
  forall (pf : list (string * num)) (c : num),
    let r := fold_left (buy prices inv) names (pf, c) in
    (forall name shares, In (name, shares) (fst r) ->
       In (name, shares) pf
       \/ exists p, dict_get String.eqb name prices = Some (Fin p)
                    /\ (0 < p)%Qc /\ shares = ndiv inv (Fin p))
    /\ (length (fst r) <= length pf + length names)%nat
    /\ (NoDup (map fst pf) -> NoDup (map fst (fst r))).
Proof.
  induction 1 as [|n names (p & Hp & Hpos) Hall IH]; intros pf c; simpl.
  - repeat split; auto. lia.
  - assert (Hb : buy prices inv (pf, c) n
                 = (dict_set String.eqb n
                      (ndiv inv (series_get prices n NaN)) pf, nsub c inv))
      by reflexivity.
    rewrite Hb. clear Hb.
    specialize (IH (dict_set String.eqb n
                      (ndiv inv (series_get prices n NaN)) pf)
                   (nsub c inv)).
    cbv zeta in IH. destruct IH as (I1 & I2 & I3). repeat split.
    + intros name shares Hin. destruct (I1 name shares Hin) as [H|H]; auto.
      apply dict_set_In in H. destruct H as [H|H]; auto.
      inversion H; subst. right. exists p. repeat split; auto.
      unfold series_get. rewrite Hp. reflexivity.
    + pose proof (dict_set_length String.eqb n
                    (ndiv inv (series_get prices n NaN)) pf). lia.
    + intros Hnd. apply I3. apply dict_set_NoDup; auto.
      exact String.eqb_eq.
Qed.

Section HoldingsInvariant.
Variable price_ts : option price_table.
Variable qs : list date.
Variable score_quarter : date -> option (matrix * list (string * num)).

Lemma holdings_ok_empty (st : state) :
  current_portfolio st = [] -> holdings_ok price_ts st.
Proof.
  intros E. unfold holdings_ok. rewrite E. simpl.
  split; [unfold TOP_N_STOCKS; lia|]. split; [constructor | left; reflexivity].
Qed.

Lemma open_positions_ok (ts : price_table) (d trade_date : date)
  (prices : snapshot) (top_source : list (string * num)) (st : state) :
  price_ts = Some ts -> In (d, prices) ts ->
  current_portfolio st = [] ->
  holdings_ok price_ts
    (open_positions qs trade_date (Some prices)
       (firstn TOP_N_STOCKS top_source) st).
Proof.
  intros Ets Hin Hpf. unfold open_positions.
  destruct (date_eqb trade_date (last_quarter qs));
    [apply holdings_ok_empty; exact Hpf|].
  rewrite Hpf. unfold rebalance.
  set (names := tradable_names prices
                  (map fst (firstn TOP_N_STOCKS top_source))).
  assert (Hlen : (length names <= TOP_N_STOCKS)%nat)
    by apply tradable_names_length.
  assert (Hval : Forall (fun n => exists p,
                   dict_get String.eqb n prices = Some (Fin p)
                   /\ (0 < p)%Qc) names).
  { apply Forall_forall. intros n Hn.
    apply tradable_names_valid in Hn. tauto. }
  destruct names as [|n0 names'] eqn:En.
  - apply holdings_ok_empty. reflexivity.
  - set (inv := ndiv (cash st) (of_Z (Z.of_nat (length (n0 :: names'))))).
    destruct (buy_loop prices inv (n0 :: names') Hval [] (cash st))
      as (I1 & I2 & I3).
    unfold holdings_ok. cbn [current_portfolio]. split; [|split].
    + simpl length in I2 at 2. lia.
    + apply I3. constructor.
    + right. exists ts, d, prices, inv. repeat split; auto.
      intros name shares H.
      destruct (I1 name shares H) as [[]|(p & Hp & Hpos & Hs)].
      exists p. auto.
Qed.

Lemma quarter_body_ok (i : nat) (trade_date : date) (st : state) :
  holdings_ok price_ts st ->
  holdings_ok price_ts (quarter_body price_ts qs score_quarter i trade_date st).
Proof.
  intros Hok. unfold quarter_body, period_start.
  destruct price_ts as [ts|] eqn:Ets.
  - destruct (actual_trade_row ts trade_date) as [[d prices]|] eqn:Er; auto.
    apply find_some in Er. destruct Er as [Hin _].
    destruct (score_quarter trade_date) as [[L ranked]|].
    + rewrite <- Ets. eapply open_positions_ok; eauto.
    + rewrite <- Ets. apply holdings_ok_empty. reflexivity.
  - destruct (score_quarter trade_date) as [[L ranked]|]; auto.
Qed.

Lemma run_quarters_ok (l : list date) (i : nat) (st : state) :
  holdings_ok price_ts st ->
  holdings_ok price_ts (run_quarters price_ts qs score_quarter i l st).
Proof.
  revert i st. induction l as [|d l IH]; intros i st H; simpl; auto.
  apply IH. apply quarter_body_ok. exact H.
Qed.

End HoldingsInvariant.

(** The amount allocated to each name bought is the cash of the period
    start divided by the number of tradable names. *)
Lemma rebalance_allocation (prices : snapshot) (targets : list string)
  (cash0 : num) :
  let names := tradable_names prices targets in
  bought_from prices (ndiv cash0 (of_Z (Z.of_nat (length names))))
    (fst (rebalance prices names [] cash0)).
Proof.
  intros names. unfold rebalance.
  assert (Hval : Forall (fun n => exists p,
                   dict_get String.eqb n prices = Some (Fin p)
                   /\ (0 < p)%Qc) names).
  { apply Forall_forall. intros n Hn.
    apply tradable_names_valid in Hn. tauto. }
  destruct names as [|n0 names'] eqn:En; [intros ? ? []|].
  destruct (buy_loop prices
              (ndiv cash0 (of_Z (Z.of_nat (length (n0 :: names')))))
              (n0 :: names') Hval [] cash0) as (I1 & _).
  intros name shares H. destruct (I1 name shares H) as [[]|H']. exact H'.
Qed.

(** C10: after any number of quarters, and after the final liquidation,
    the held-shares mapping has at most [TOP_N_STOCKS] entries, all for
    different securities, and it is empty or was bought from one
    snapshot of the price table with one allocated amount: every share
    count is that amount divided by the price the snapshot lists for the
    security, a number strictly above 0. *)
Theorem holdings_invariant
  (price_ts : option price_table) (qs : list date)
  (score_quarter : date -> option (matrix * list (string * num)))
  (n : nat) :
  holdings_ok price_ts
    (run_quarters price_ts qs score_quarter 0 (firstn n qs) initial_state)
  /\ holdings_ok price_ts (backtest_and_analyze price_ts qs score_quarter).
Proof.
  split.
  - apply run_quarters_ok. apply holdings_ok_empty. reflexivity.
  - unfold backtest_and_analyze.
    assert (H : holdings_ok price_ts
                  (run_quarters price_ts qs score_quarter 0 qs initial_state))
      by (apply run_quarters_ok; apply holdings_ok_empty; reflexivity).
    unfold final_liquidation. destruct price_ts; auto.
    destruct (portfolio_history _); auto.
Qed.

(** A name the snapshot does not list, or lists with NaN, zero or a
    negative price, is not bought. *)
Lemma unpriced_name_not_bought (prices : snapshot) (targets : list string)
  (name : string) :
  (dict_get String.eqb name prices = None
   \/ dict_get String.eqb name prices = Some NaN
   \/ exists p, dict_get String.eqb name prices = Some (Fin p) /\ (p <= 0)%Qc) ->
  ~ In name (tradable_names prices targets).
Proof.
  intros H Hin. apply tradable_names_valid in Hin.
  destruct Hin as [_ (p & Hp & Hpos)].
  destruct H as [H|[H|(p' & H & Hle)]]; rewrite Hp in H; try discriminate.
  inversion H; subst. exact (Qclt_not_le _ _ Hpos Hle).
Qed.

(* ------------------------------------------------------------------ *)
(** ** Period returns *)

Lemma nth_error_combine {A B : Type} (a : list A) (b : list B) (i : nat)
  (x : A) (y : B) :
  nth_error a i = Some x -> nth_error b i = Some y ->
  nth_error (combine a b) i = Some (x, y).
Proof.
  revert b i. induction a as [|a0 a IH]; intros [|b0 b] [|i]; simpl;
    try discriminate.
  - intros H1 H2. inversion H1. inversion H2. reflexivity.
  - apply IH.
Qed.

Lemma nth_error_shift1 (l : list num) (i : nat) (x y : num) :
  nth_error l i = Some x -> nth_error l (S i) = Some y ->
  nth_error (shift1 l) (S i) = Some x.
Proof.
  unfold shift1. destruct l as [|a l]; [destruct i; discriminate|].
  simpl. revert a i. induction l as [|b l IH]; intros a i Hx Hy.
  - destruct i; discriminate.
  - simpl. destruct i as [|i]; [exact Hx|].
    simpl in Hx, Hy. exact (IH b i Hx Hy).
Qed.

Lemma pct_change_length (l : list num) : length (pct_change l) = length l.
Proof.
  unfold pct_change, shift1. rewrite length_map, length_combine.
  rewrite length_firstn. simpl. lia.
Qed.

Lemma pct_change_head (x : num) (l : list num) :
  nth_error (pct_change (x :: l)) 0 = Some NaN.
Proof. unfold pct_change, shift1. simpl. destruct x; reflexivity. Qed.

Lemma pct_change_step (l : list num) (i : nat) (prev cur : Qc) :
  nth_error l i = Some (Fin prev) -> nth_error l (S i) = Some (Fin cur) ->
  prev <> 0%Qc ->
  nth_error (pct_change l) (S i) = Some (Fin (cur / prev - 1)%Qc).
Proof.
  intros Hp Hc Hnz. unfold pct_change.
  rewrite nth_error_map.
  rewrite (nth_error_combine _ _ _ _ _ Hc (nth_error_shift1 _ _ _ _ Hp Hc)).
  simpl. destruct (Qc_eq_dec prev 0%Qc); [contradiction|]. reflexivity.
Qed.



(** Where the percentage change is not a number, the column shows 0:
    here the second start asset is NaN. *)
Example period_return_of_nan_is_zero :
  period_returns
    [((2021%Z, 2%Z), mkEntry (qc 1000000) None);
     ((2021%Z, 3%Z), mkEntry NaN None)]
  = [qc 0; qc 0].
Proof. num_eq. Qed.

(* ------------------------------------------------------------------ *)
(** ** Rational arithmetic *)

Ltac qc_to_q :=
  unfold Qcle, Qclt, Qcminus, Qcdiv, Qcplus, Qcmult, Qcopp, Qcinv, Q2Qc in *;
  cbn [this] in *; rewrite ?Qred_correct in *;
  change (Qred 0) with 0%Q in *.

Lemma Qc_sq_nonneg (x : Qc) : (0 <= x * x)%Qc.
Proof. qc_to_q. nra. Qed.

Lemma Qc_le_plus_r (a b : Qc) : (0 <= b)%Qc -> (a <= a + b)%Qc.
Proof. intros H. qc_to_q. lra. Qed.

Lemma Qc_plus_nonneg (a b : Qc) : (0 <= a)%Qc -> (0 <= b)%Qc -> (0 <= a + b)%Qc.
Proof. intros H1 H2. qc_to_q. lra. Qed.

Lemma Qc_div_nonneg (e t : Qc) : (0 <= e)%Qc -> (0 < t)%Qc -> (0 <= e / t)%Qc.
Proof.
  intros He Ht. qc_to_q.
  apply Qmult_le_0_compat; [lra | apply Qinv_le_0_compat; lra].
Qed.

Lemma Qc_nonneg_neq_pos (t : Qc) : (0 <= t)%Qc -> t <> 0%Qc -> (0 < t)%Qc.
Proof.
  intros H Hn. destruct (Qcle_lt_or_eq _ _ H) as [|E]; auto.
  congruence.
Qed.

Lemma Qc_mul_pos_le (c x y : Qc) : (0 < c)%Qc -> ((x <= y)%Qc <-> (c * x <= c * y)%Qc).
Proof.
  intros Hc. split; intros H.
  - rewrite (Qcmult_comm c x), (Qcmult_comm c y).
    apply Qcmult_le_compat_r; auto. apply Qclt_le_weak. exact Hc.
  - apply (Qcmult_lt_0_le_reg_r _ _ c Hc).
    rewrite (Qcmult_comm x c), (Qcmult_comm y c). exact H.
Qed.

(* ------------------------------------------------------------------ *)
(** ** Explained-variance shares *)

Lemma nsum_from_Fin (l : list Qc) (a : Qc) :
  fold_left nadd (map Fin l) (Fin a) = Fin (qsum_from a l).
Proof.
  revert a. induction l as [|x l IH]; intros a; simpl; auto.
Qed.

Lemma nsum_Fin (l : list Qc) : nsum (map Fin l) = Fin (qsum_from 0 l).
Proof. apply nsum_from_Fin. Qed.

Lemma qsum_from_shift (l : list Qc) (a : Qc) :
  qsum_from a l = (a + qsum_from 0 l)%Qc.
Proof.
  unfold qsum_from. revert a. induction l as [|x l IH]; intros a; simpl.
  - ring.
  - rewrite (IH (a + x)%Qc), (IH (0 + x)%Qc). ring.
Qed.

Lemma qsum_from_nonneg (l : list Qc) (a : Qc) :
  Forall (fun x => (0 <= x)%Qc) l -> (a <= qsum_from a l)%Qc.
Proof.
  intros H. revert a. induction H as [|x l Hx Hl IH]; intros a.
  - apply Qcle_refl.
  - unfold qsum_from. simpl. eapply Qcle_trans; [|apply IH].
    apply Qc_le_plus_r. exact Hx.
Qed.

(** The squared norm of a row of numbers is a number, not negative. *)
Lemma row_norm_finite (row : list num) :
  Forall (fun x => notna x = true) row ->
  exists q, nsum (map (fun x => nmul x x) row) = Fin q /\ (0 <= q)%Qc.
Proof.
  intros H. unfold nsum, of_Z.
  assert (G : forall a, (0 <= a)%Qc ->
            exists q, fold_left nadd (map (fun x => nmul x x) row) (Fin a)
                      = Fin q /\ (0 <= q)%Qc).
  { induction H as [|x row Hx Hrow IH]; intros a Ha; simpl.
    - exists a. auto.
    - destruct x as [|x]; [discriminate|]. simpl.
      apply IH. apply Qc_plus_nonneg; auto. apply Qc_sq_nonneg. }
  apply G. apply Qcle_refl.
Qed.

Lemma eig_vals_finite (components : matrix) :
  all_finite components ->
  exists es, eig_vals components = map Fin es
             /\ Forall (fun e => (0 <= e)%Qc) es
             /\ length es = length components.
Proof.
  unfold all_finite, eig_vals.
  induction 1 as [|row m Hrow Hm (es & E & Hes & Hl)]; simpl.
  - exists []. repeat split; constructor.
  - destruct (row_norm_finite row Hrow) as (q & Eq & Hq).
    exists (q :: es). simpl. rewrite Eq, E. repeat split; auto.
Qed.

Lemma ratio_Fin (es : list Qc) :
  qsum_from 0 es <> 0%Qc ->
  ratio (map Fin es)
  = map Fin (map (fun e => (e / qsum_from 0 es)%Qc) es).
Proof.
  intros Hnz. unfold ratio. rewrite nsum_Fin, !map_map.
  apply map_ext. intros e. simpl.
  destruct (Qc_eq_dec (qsum_from 0 es) 0%Qc); [contradiction|reflexivity].
Qed.

Lemma qsum_div (es : list Qc) (t : Qc) :
  qsum_from 0 (map (fun e => (e / t)%Qc) es) = (qsum_from 0 es / t)%Qc.
Proof.
  induction es as [|e es IH].
  - unfold qsum_from, Qcdiv. simpl. ring.
  - change (qsum_from (0 + e / t) (map (fun e => (e / t)%Qc) es)
            = (qsum_from (0 + e) es / t)%Qc).
    rewrite (qsum_from_shift _ (0 + e / t)%Qc).
    rewrite (qsum_from_shift _ (0 + e)%Qc).
    rewrite IH. unfold Qcdiv. ring.
Qed.

Lemma cumsum_from_Fin (xs : list Qc) (a : Qc) :
  cumsum_from (Fin a) (map Fin xs) = map Fin (qcumsum_from a xs).
Proof.
  revert a. induction xs as [|x xs IH]; intros a; simpl; auto.
  f_equal. apply IH.
Qed.

Lemma qcumsum_length (xs : list Qc) (a : Qc) :
  length (qcumsum_from a xs) = length xs.
Proof. revert a. induction xs; intros; simpl; auto. Qed.

Lemma qcumsum_sorted (xs : list Qc) (a : Qc) :
  Forall (fun x => (0 <= x)%Qc) xs ->
  StronglySorted Qcle (qcumsum_from a xs)
  /\ Forall (fun c => (a <= c)%Qc) (qcumsum_from a xs).
Proof.
  intros H. revert a. induction H as [|x xs Hx Hxs IH]; intros a; simpl.
  - split; constructor.
  - destruct (IH (a + x)%Qc) as [S1 S2].
    assert (Ha : (a <= a + x)%Qc) by (apply Qc_le_plus_r; exact Hx).
    split; constructor; auto.
    eapply Forall_impl; [|exact S2]. intros c Hc.
    eapply Qcle_trans; eauto.
Qed.

Lemma qcumsum_last (xs : list Qc) (a d : Qc) :
  xs <> [] ->
  nth (length xs - 1) (qcumsum_from a xs) d = qsum_from a xs.
Proof.
  revert a. induction xs as [|x xs IH]; intros a Hne; [contradiction|].
  destruct xs as [|y xs].
  - reflexivity.
  - replace (length (x :: y :: xs) - 1)%nat with (S (length (y :: xs) - 1))
      by (simpl; lia).
    change (qcumsum_from a (x :: y :: xs))
      with ((a + x)%Qc :: qcumsum_from (a + x) (y :: xs)).
    change (nth (S (length (y :: xs) - 1))
              ((a + x)%Qc :: qcumsum_from (a + x) (y :: xs)) d)
      with (nth (length (y :: xs) - 1) (qcumsum_from (a + x) (y :: xs)) d).
    rewrite IH by discriminate. reflexivity.
Qed.

Lemma StronglySorted_nth {A : Type} (R : A -> A -> Prop) (l : list A)
  (d : A) :
  StronglySorted R l ->
  forall i j, (i < j < length l)%nat -> R (nth i l d) (nth j l d).
Proof.
  induction 1 as [|x l Hs IH Hall]; intros i j Hij; simpl in Hij; [lia|].
  destruct j as [|j]; [lia|]. destruct i as [|i]; simpl.
  - rewrite Forall_forall in Hall. apply Hall. apply nth_In. lia.
  - apply IH. lia.
Qed.

Lemma nth_map_Fin (cs : list Qc) (i : nat) (d : Qc) :
  (i < length cs)%nat -> nth i (map Fin cs) NaN = Fin (nth i cs d).
Proof.
  intros Hi. rewrite (nth_indep _ NaN (Fin d)) by (rewrite length_map; exact Hi).
  apply map_nth.
Qed.

(* ------------------------------------------------------------------ *)
(** ** The binary search *)

Section BinarySearch.
Variable arr : list num.
Variable key : num.

Let P (i : nat) : bool := np_less (nth i arr NaN) key.

(** [arr] is ordered for the search: an entry below the key has only
    entries below the key before it. *)
Hypothesis P_mono :
  forall i j, (i <= j < length arr)%nat -> P j = true -> P i = true.

Lemma half_lt (d : nat) : (0 < d -> d / 2 < d)%nat.
Proof. intros H. apply Nat.div_lt; lia. Qed.

Lemma binsearch_left_spec (fuel lo hi : nat) :
  (hi - lo <= fuel)%nat -> (lo <= hi <= length arr)%nat ->
  (forall i, (i < lo)%nat -> P i = true) ->
  (forall i, (hi <= i < length arr)%nat -> P i = false) ->
  let r := binsearch_left fuel arr key lo hi in
  (lo <= r <= hi)%nat
  /\ (forall i, (i < r)%nat -> P i = true)
  /\ (forall i, (r <= i < length arr)%nat -> P i = false).
Proof.
  revert lo hi. induction fuel as [|fuel IH]; intros lo hi Hf Hb Hlo Hhi.
  - simpl. assert (lo = hi) by lia. subst. repeat split; auto; lia.
  - cbn [binsearch_left]. destruct (lo <? hi)%nat eqn:Elt.
    + apply Nat.ltb_lt in Elt.
      set (mid := (lo + (hi - lo) / 2)%nat).
      assert (Hmid : (lo <= mid < hi)%nat).
      { unfold mid. pose proof (half_lt (hi - lo)). lia. }
      fold (P mid). destruct (P mid) eqn:Em.
      * destruct (IH (mid + 1)%nat hi) as (R1 & R2 & R3); try lia; auto.
        { intros i Hi. apply (P_mono i mid); [lia | exact Em]. }
        cbv zeta. repeat split; auto; lia.
      * destruct (IH lo mid) as (R1 & R2 & R3); try lia; auto.
        { intros i Hi. destruct (P i) eqn:Ei; auto.
          rewrite (P_mono mid i) in Em; [discriminate | lia | exact Ei]. }
        cbv zeta. repeat split; auto; lia.
    + apply Nat.ltb_ge in Elt. assert (lo = hi) by lia. subst.
      cbv zeta. repeat split; auto; lia.
Qed.

(** [searchsorted] returns the first position whose entry is not below
    the key. *)
Lemma searchsorted_spec :
  let r := searchsorted arr key in
  (r <= length arr)%nat
  /\ (forall i, (i < r)%nat -> np_less (nth i arr NaN) key = true)
  /\ (forall i, (r <= i < length arr)%nat ->
        np_less (nth i arr NaN) key = false).
Proof.
  unfold searchsorted.
  destruct (binsearch_left_spec (length arr) 0 (length arr))
    as (R1 & R2 & R3); try lia.
  cbv zeta. repeat split; auto; lia.
Qed.

End BinarySearch.

(* ------------------------------------------------------------------ *)
(** ** The factor count *)

Lemma np_less_Fin (c t : Qc) : np_less (Fin c) (Fin t) = true <-> (c < t)%Qc.
Proof.
  unfold np_less. simpl notna. simpl negb. rewrite andb_false_l, orb_false_r.
  apply (nltb_spec (Fin c) (Fin t)).
Qed.

Lemma np_less_Fin_false (c t : Qc) :
  np_less (Fin c) (Fin t) = false <-> (t <= c)%Qc.
Proof.
  split; intros H.
  - apply Qcnot_lt_le. intros Hlt. apply np_less_Fin in Hlt. congruence.
  - destruct (np_less (Fin c) (Fin t)) eqn:E; auto.
    apply np_less_Fin in E. exfalso. exact (Qcle_not_lt _ _ H E).
Qed.

(** With numbers for loadings, not all 0, the cumulative shares are
    numbers, do not decrease, and end at 1. *)
Lemma contrib_cumsum_exact (components : matrix) :
  all_finite components ->
  nsum (eig_vals components) <> of_Z 0 ->
  exists cs,
    contrib_cumsum components = map Fin cs
    /\ length cs = length components
    /\ cs <> []
    /\ StronglySorted Qcle cs
    /\ nth (length cs - 1) cs 0%Qc = 1%Qc.
Proof.
  intros Hfin Hnz.
  destruct (eig_vals_finite components Hfin) as (es & Ees & Hes & Hlen).
  unfold contrib_cumsum. rewrite Ees in *. rewrite nsum_Fin in Hnz.
  set (t := qsum_from 0 es) in *.
  assert (Ht0 : t <> 0%Qc) by (intros E; apply Hnz; rewrite E; reflexivity).
  assert (Htpos : (0 < t)%Qc).
  { apply Qc_nonneg_neq_pos; auto. apply qsum_from_nonneg. exact Hes. }
  rewrite (ratio_Fin es Ht0). fold t.
  set (xs := map (fun e => (e / t)%Qc) es).
  assert (Hxs : Forall (fun x => (0 <= x)%Qc) xs).
  { unfold xs. apply Forall_map. eapply Forall_impl; [|exact Hes].
    intros e He. apply Qc_div_nonneg; auto. }
  assert (Hne : es <> []).
  { intros E. apply Ht0. unfold t. rewrite E. reflexivity. }
  assert (Hxne : xs <> []).
  { unfold xs. destruct es; [contradiction | discriminate]. }
  exists (qcumsum_from 0 xs). repeat split.
  - apply (cumsum_from_Fin xs 0%Qc).
  - rewrite qcumsum_length. unfold xs. rewrite length_map. exact Hlen.
  - destruct xs; [contradiction | discriminate].
  - apply qcumsum_sorted. exact Hxs.
  - rewrite qcumsum_length, (qcumsum_last xs 0%Qc 0%Qc Hxne).
    unfold xs. rewrite qsum_div. fold t. unfold Qcdiv.
    apply Qcmult_inv_r. exact Ht0.
Qed.

(** The count picked on lines 44-47, for loadings that are numbers and
    not all 0 and a threshold of at most 1: it lies between 1 and the
    number of fitted factors, the cumulative share at that count reaches
    the threshold, and the cumulative share at every smaller count is
    strictly below it. *)
Lemma n_factors_minimal (components : matrix) (min_cum_var : Qc) :
  all_finite components ->
  nsum (eig_vals components) <> of_Z 0 ->
  (min_cum_var <= 1)%Qc ->
  let shares := contrib_cumsum components in
  let k := n_factors_of components (Fin min_cum_var) in
  (1 <= k <= length components)%nat
  /\ nle (Fin min_cum_var) (nth (k - 1) shares NaN)
  /\ forall j, (1 <= j < k)%nat ->
       nlt (nth (j - 1) shares NaN) (Fin min_cum_var).
Proof.
  intros Hfin Hnz Hthr shares k.
  destruct (contrib_cumsum_exact components Hfin Hnz)
    as (cs & Ecs & Hlen & Hne & Hsort & Hlast).
  unfold k, n_factors_of, shares. rewrite Ecs.
  assert (Hn : (0 < length cs)%nat).
  { destruct cs; [contradiction | simpl; lia]. }
  assert (Hmono : forall i j, (i <= j < length (map Fin cs))%nat ->
            np_less (nth j (map Fin cs) NaN) (Fin min_cum_var) = true ->
            np_less (nth i (map Fin cs) NaN) (Fin min_cum_var) = true).
  { intros i j Hij. rewrite length_map in Hij.
    rewrite (nth_map_Fin cs i 0%Qc), (nth_map_Fin cs j 0%Qc) by lia.
    rewrite !np_less_Fin. intros Hj.
    destruct (Nat.eq_dec i j) as [->|Hd]; auto.
    eapply Qcle_lt_trans; [|exact Hj].
    apply (StronglySorted_nth Qcle cs 0%Qc Hsort). lia. }
  destruct (searchsorted_spec (map Fin cs) (Fin min_cum_var) Hmono)
    as (R1 & R2 & R3).
  set (r := searchsorted (map Fin cs) (Fin min_cum_var)) in *.
  rewrite length_map in *.
  assert (Hr : (r < length cs)%nat).
  { destruct (Nat.eq_dec r (length cs)) as [E|]; [|lia].
    specialize (R2 (length cs - 1)%nat ltac:(lia)).
    rewrite (nth_map_Fin cs _ 0%Qc) in R2 by lia.
    rewrite Hlast in R2. apply np_less_Fin in R2.
    exfalso. exact (Qcle_not_lt _ _ Hthr R2). }
  repeat split; try lia.
  - replace (r + 1 - 1)%nat with r by lia.
    specialize (R3 r ltac:(lia)).
    rewrite (nth_map_Fin cs r 0%Qc) in * by lia.
    apply np_less_Fin_false in R3. exact R3.
  - intros j Hj. specialize (R2 (j - 1)%nat ltac:(lia)).
    rewrite (nth_map_Fin cs _ 0%Qc) in * by lia.
    apply np_less_Fin in R2. exact R2.
Qed.



(** Loadings that are all 0 give NaN shares: the count is 1 and the
    only weight is NaN. *)
Example zero_loadings_give_nan_weights :
  n_factors_of [[qc 0; qc 0]] min_cum_var_default = 1%nat
  /\ contrib_cumsum [[qc 0; qc 0]] = [NaN]
  /\ weights_of [[qc 0; qc 0]] = [NaN].
Proof. repeat split; vm_compute; reflexivity. Qed.

(* ------------------------------------------------------------------ *)
(** ** The ranked list *)


Example flat_scoring :
  factor_scoring id_scaler flat_fit three_indicators min_cum_var_default 10
  = Some ([[qc 1; qc 0; qc 0]], [("A"%string, qc 1); ("B"%string, qc 1)]).
Proof. num_eq. Qed.



(* ------------------------------------------------------------------ *)
(** ** Weights and their rescaling *)

Lemma weights_sum_to_one (components : matrix) :
  all_finite components ->
  nsum (eig_vals components) <> of_Z 0 ->
  nsum (weights_of components) = of_Z 1.
Proof.
  intros Hfin Hnz.
  destruct (eig_vals_finite components Hfin) as (es & Ees & Hes & Hlen).
  unfold weights_of. rewrite Ees in *. rewrite nsum_Fin in Hnz.
  assert (Ht0 : qsum_from 0 es <> 0%Qc)
    by (intros E; apply Hnz; rewrite E; reflexivity).
  rewrite (ratio_Fin es Ht0), nsum_Fin, qsum_div.
  unfold of_Z. f_equal. unfold Qcdiv. apply Qcmult_inv_r. exact Ht0.
Qed.

Lemma nmul_swap (c a b : num) : nmul a (nmul c b) = nmul c (nmul a b).
Proof.
  destruct a, b, c; simpl; auto. f_equal. ring.
Qed.

Lemma nmul_nadd (c : Qc) (a b : num) :
  nadd (nmul (Fin c) a) (nmul (Fin c) b) = nmul (Fin c) (nadd a b).
Proof.
  destruct a, b; simpl; auto. f_equal. ring.
Qed.

Lemma nsum_scale (c : Qc) (l : list num) :
  nsum (map (nmul (Fin c)) l) = nmul (Fin c) (nsum l).
Proof.
  unfold nsum.
  assert (G : forall a,
            fold_left nadd (map (nmul (Fin c)) l) (nmul (Fin c) a)
            = nmul (Fin c) (fold_left nadd l a)).
  { induction l as [|x l IH]; intros a; cbn [fold_left map]; auto.
    rewrite nmul_nadd. apply IH. }
  rewrite <- G. f_equal. unfold of_Z. cbn [nmul]. f_equal.
  change (Q2Qc (inject_Z 0)) with 0%Qc. ring.
Qed.

Lemma combine_map_r {A B C : Type} (g : B -> C) (a : list A) (b : list B) :
  combine a (map g b) = map (fun p => (fst p, g (snd p))) (combine a b).
Proof.
  revert b. induction a as [|x a IH]; intros [|y b]; simpl; auto.
  f_equal. apply IH.
Qed.

Lemma dot_rescale (c : Qc) (row w : list num) :
  dot row (rescale c w) = nmul (Fin c) (dot row w).
Proof.
  unfold dot, rescale. rewrite combine_map_r, map_map. cbn [fst snd].
  rewrite <- nsum_scale, map_map. f_equal.
  apply map_ext. intros p. apply nmul_swap.
Qed.

Lemma total_scores_rescale (c : Qc) (factor_scores : matrix) (w : list num)
  (names : list string) :
  combine names (total_scores factor_scores (rescale c w))
  = map (rescale_row c) (combine names (total_scores factor_scores w)).
Proof.
  unfold total_scores.
  rewrite (map_ext _ (fun row => nmul (Fin c) (dot row w)))
    by (intros; apply dot_rescale).
  rewrite <- (map_map (fun row => dot row w) (nmul (Fin c))).
  apply combine_map_r.
Qed.

Lemma rescale_row_inj (c : Qc) (a b : string * num) :
  c <> 0%Qc -> rescale_row c a = rescale_row c b -> a = b.
Proof.
  intros Hc. destruct a as [n [|x]], b as [m [|y]]; unfold rescale_row;
    cbn [fst snd nmul]; intros E; try congruence.
  assert (En : n = m) by congruence.
  assert (E' : (c * x)%Qc = (c * y)%Qc) by congruence.
  assert (E2 : (c * (x - y))%Qc = 0%Qc).
  { replace (c * (x - y))%Qc with (c * x - c * y)%Qc by ring.
    rewrite E'. ring. }
  destruct (Qcmult_integral _ _ E2) as [|D]; [contradiction|].
  assert (Exy : x = y).
  { replace x with (x - y + y)%Qc by ring. rewrite D. ring. }
  subst. reflexivity.
Qed.

Lemma map_rescale_row_inj (c : Qc) (l l' : list (string * num)) :
  c <> 0%Qc -> map (rescale_row c) l = map (rescale_row c) l' -> l = l'.
Proof.
  intros Hc. revert l'. induction l as [|a l IH]; intros [|b l'];
    cbn [map]; intros E; try discriminate E; auto.
  assert (E1 : rescale_row c a = rescale_row c b) by congruence.
  assert (E2 : map (rescale_row c) l = map (rescale_row c) l') by congruence.
  f_equal.
  - exact (rescale_row_inj c a b Hc E1).
  - exact (IH l' E2).
Qed.

Lemma score_ge_rescale (c : Qc) (a b : string * num) :
  (0 < c)%Qc -> (score_ge (rescale_row c a) (rescale_row c b) <-> score_ge a b).
Proof.
  intros Hc. destruct a as [n [|x]], b as [m [|y]];
    unfold score_ge, rescale_row; simpl; try tauto.
  symmetry. apply Qc_mul_pos_le. exact Hc.
Qed.

Lemma StronglySorted_rescale (c : Qc) (l : list (string * num)) :
  (0 < c)%Qc ->
  (StronglySorted score_ge (map (rescale_row c) l)
   <-> StronglySorted score_ge l).
Proof.
  intros Hc. induction l as [|a l IH]; simpl.
  - split; constructor.
  - split; intros H; apply StronglySorted_inv in H; destruct H as [H1 H2];
      constructor; try (apply IH; exact H1).
    + rewrite Forall_map in H2. eapply Forall_impl; [|exact H2].
      intros b. apply score_ge_rescale. exact Hc.
    + rewrite Forall_map. eapply Forall_impl; [|exact H2].
      intros b. apply score_ge_rescale. exact Hc.
Qed.

Lemma sort_values_rescale (c : Qc) (l out : list (string * num)) :
  (0 < c)%Qc ->
  (sort_values_desc l out
   <-> sort_values_desc (map (rescale_row c) l) (map (rescale_row c) out)).
Proof.
  intros Hc. assert (Hnz : c <> 0%Qc).
  { intros E. rewrite E in Hc. exact (Qclt_not_eq _ _ Hc eq_refl). }
  unfold sort_values_desc. rewrite (StronglySorted_rescale c out Hc).
  split; intros [Hp Hs]; split; auto.
  - apply Permutation_map. exact Hp.
  - apply Permutation_sym in Hp.
    destruct (Permutation_map_inv _ _ Hp) as (l3 & E & Hp3).
    apply (map_rescale_row_inj c _ _ Hnz) in E. subst l3.
    exact Hp3.
Qed.


Example composite_scores_of_two :
  combine ["A"%string; "B"%string]
    (total_scores two_scores (weights_of fixed_loadings))
  = [("A"%string, Fin (Q2Qc (3 # 2))); ("B"%string, Fin (Q2Qc (5 # 2)))].
Proof. num_eq. Qed.


(* ------------------------------------------------------------------ *)
(** ** The scoring stage inside the loop *)

(** With no column in the window, the quarter ends after the period
    start: nothing is ranked and nothing is bought. *)
Lemma quarter_with_empty_window
  (columns : list string) (aggregate : list string -> window_data)
  (scaler_fit_transform : matrix -> matrix)
  (fa_fit_transform : nat -> matrix -> option (matrix * matrix))
  (price_ts : option price_table) (qs : list date)
  (score_quarter : date -> option (matrix * list (string * num)))
  (i : nat) (trade_date : date) (st : state) :
  admissible_scoring columns aggregate scaler_fit_transform
    fa_fit_transform score_quarter ->
  window_cols trade_date columns = [] ->
  quarter_body price_ts qs score_quarter i trade_date st
  = match period_start price_ts i trade_date st with
    | None => st
    | Some (st1, _) => st1
    end.
Proof.
  intros Hadm Hw. specialize (Hadm trade_date).
  unfold scoring_stage in Hadm. rewrite Hw in Hadm.
  unfold quarter_body. rewrite Hadm. reflexivity.
Qed.

(** What an admissible scoring function returns on a date is ranked by
    score. *)
Lemma admissible_scoring_sorted
  (columns : list string) (aggregate : list string -> window_data)
  (scaler_fit_transform : matrix -> matrix)
  (fa_fit_transform : nat -> matrix -> option (matrix * matrix))
  (score_quarter : date -> option (matrix * list (string * num)))
  (trade_date : date) (loadings : matrix) (ranked : list (string * num)) :
  admissible_scoring columns aggregate scaler_fit_transform
    fa_fit_transform score_quarter ->
  score_quarter trade_date = Some (loadings, ranked) ->
  window_cols trade_date columns <> [] /\ StronglySorted score_ge ranked.
Proof.
  intros Hadm E. specialize (Hadm trade_date).
  unfold scoring_stage in Hadm. rewrite E in Hadm.
  destruct (window_cols trade_date columns) as [|c cols]; [discriminate|].
  split; [discriminate|].
  destruct Hadm as (scored & _ & _ & Hs). exact Hs.
Qed.

(* ------------------------------------------------------------------ *)
(** ** Held securities and the default of [get] *)

(** In a price table whose rows list the same securities, a security
    held after any number of quarters is listed in every row: at the
    valuation the default 0 of [get(name, 0)] is never taken, and the
    only way for a holding to be without a price is a NaN cell. *)
Lemma held_names_always_listed (ts : price_table) (qs : list date)
  (score_quarter : date -> option (matrix * list (string * num)))
  (n : nat) (d : date) (prices : snapshot) (name : string) (shares : num) :
  uniform_columns ts ->
  In (d, prices) ts ->
  In (name, shares)
     (current_portfolio
        (run_quarters (Some ts) qs score_quarter 0 (firstn n qs)
           initial_state)) ->
  series_has prices name = true.
Proof.
  intros Hu Hin Hheld.
  assert (Hok : holdings_ok (Some ts)
                  (run_quarters (Some ts) qs score_quarter 0 (firstn n qs)
                     initial_state))
    by (apply run_quarters_ok; apply holdings_ok_empty; reflexivity).
  destruct Hok as (_ & _ & [E|(ts' & d' & p' & a & Ets & Hin' & Hb)]).
  - rewrite E in Hheld. destruct Hheld.
  - inversion Ets; subst ts'.
    destruct (Hb name shares Hheld) as (p & Hp & _).
    rewrite (Hu d prices d' p' name Hin Hin').
    unfold series_has. rewrite Hp. reflexivity.
Qed.

(** Two quarters with prices 10 then 12 for the only ranked security:
    100000 shares are bought with the initial capital and the next
    quarter starts at 1200000. *)
Example two_quarter_scenario :
  let st1 := run_quarters (Some two_dates) quarters rank_A_only 0
               (firstn 1 quarters) initial_state in
  let st2 := run_quarters (Some two_dates) quarters rank_A_only 0
               (firstn 2 quarters) initial_state in
  current_portfolio st1 = [("A"%string, qc 100000)]
  /\ cash st1 = qc 0
  /\ map (fun kv => start_asset (snd kv)) (portfolio_history st2)
     = [qc 1000000; qc 1200000]
  /\ period_returns (portfolio_history st2) = [qc 0; qc 20].
Proof. repeat split; num_eq. Qed.

(* ------------------------------------------------------------------ *)
(** ** The purchase loop keeps the value *)

Lemma dict_set_fresh {K V : Type} (eqb : K -> K -> bool)
  (eqb_spec : forall a b, eqb a b = true <-> a = b)
  (k : K) (v : V) (d : list (K * V)) :
  ~ In k (map fst d) -> dict_set eqb k v d = d ++ [(k, v)].
Proof.
  induction d as [|[k' v'] d IH]; simpl; intros Hn; auto.
  destruct (eqb k k') eqn:E.
  - apply eqb_spec in E. subst. exfalso. apply Hn. auto.
  - f_equal. apply IH. intros H. apply Hn. auto.
Qed.

Lemma stock_value_app (prices : snapshot) (pf : list (string * num))
  (name : string) (shares : num) :
  stock_value prices (pf ++ [(name, shares)])
  = nadd (stock_value prices pf)
         (nmul shares (series_get prices name (of_Z 0))).
Proof.
  unfold stock_value, nsum. rewrite map_app, fold_left_app. reflexivity.
Qed.

Lemma Qc_of_nat_succ (k : nat) :
  Q2Qc (inject_Z (Z.of_nat (S k))) = (Q2Qc (inject_Z (Z.of_nat k)) + 1)%Qc.
Proof.
  apply Qc_is_canon. unfold Qcplus, Q2Qc. cbn [this].
  rewrite !Qred_correct, Nat2Z.inj_succ. unfold Z.succ.
  rewrite inject_Z_plus. reflexivity.
Qed.

Lemma Qc_of_nat_pos (k : nat) : (0 < Q2Qc (inject_Z (Z.of_nat (S k))))%Qc.
Proof.
  unfold Qclt, Q2Qc. cbn [this]. rewrite !Qred_correct.
  unfold Qlt, inject_Z. cbn [Qnum Qden]. lia.
Qed.

(** One turn of the loop for a name that is not held yet and has a
    valid price: the holdings gain [inv], the cash loses it. *)
Lemma buy_step (prices : snapshot) (inv v c p : Qc) (name : string)
  (pf : list (string * num)) :
  dict_get String.eqb name prices = Some (Fin p) -> (0 < p)%Qc ->
  ~ In name (map fst pf) ->
  stock_value prices pf = Fin v ->
  let r := buy prices (Fin inv) (pf, Fin c) name in
  stock_value prices (fst r) = Fin (v + inv)
  /\ snd r = Fin (c - inv)
  /\ map fst (fst r) = map fst pf ++ [name].
Proof.
  intros Hp Hpos Hfresh Hv. unfold buy. cbn [fst snd].
  rewrite (dict_set_fresh String.eqb String.eqb_eq _ _ _ Hfresh).
  rewrite stock_value_app, Hv. unfold series_get. rewrite Hp.
  assert (Hnz : p <> 0%Qc).
  { intros E. rewrite E in Hpos. exact (Qclt_not_eq _ _ Hpos eq_refl). }
  split; [|split].
  - cbn [ndiv]. destruct (Qc_eq_dec p 0%Qc); [contradiction|].
    cbn [nmul nadd]. f_equal. f_equal. field. exact Hnz.
  - reflexivity.
  - rewrite map_app. reflexivity.
Qed.

Lemma buy_loop_value (prices : snapshot) (inv : Qc) (names : list string) :
  Forall (fun n => exists p,
            dict_get String.eqb n prices = Some (Fin p) /\ (0 < p)%Qc) names ->
  NoDup names ->
  forall (pf : list (string * num)) (v c : Qc),
    (forall n, In n names -> ~ In n (map fst pf)) ->
    stock_value prices pf = Fin v ->
    let r := fold_left (buy prices (Fin inv)) names (pf, Fin c) in
    let k := Q2Qc (inject_Z (Z.of_nat (length names))) in
    stock_value prices (fst r) = Fin (v + k * inv)
    /\ snd r = Fin (c - k * inv)
    /\ map fst (fst r) = map fst pf ++ names.
Proof.
  induction 1 as [|n names (p & Hp & Hpos) Hall IH]; intros Hnd pf v c Hd Hv.
  - cbn [fold_left length fst snd]. rewrite app_nil_r.
    change (Q2Qc (inject_Z (Z.of_nat 0))) with 0%Qc.
    rewrite Hv. repeat split; auto; apply f_equal; ring.
  - inversion Hnd as [|? ? Hn Hnd']; subst.
    destruct (buy_step prices inv v c p n pf Hp Hpos (Hd n (or_introl eq_refl))
                Hv) as (B1 & B2 & B3).
    cbn [fold_left].
    destruct (buy prices (Fin inv) (pf, Fin c) n) as [pf1 c1] eqn:Eb.
    cbn [fst snd] in B1, B2, B3. subst c1.
    destruct (IH Hnd' pf1 (v + inv)%Qc (c - inv)%Qc) as (I1 & I2 & I3); auto.
    { intros m Hm Hin. rewrite B3 in Hin. apply in_app_or in Hin.
      destruct Hin as [Hin|[<-|[]]]; [|contradiction].
      exact (Hd m (or_intror Hm) Hin). }
    cbv zeta in *. rewrite I1, I2, I3, B3, <- app_assoc.
    cbn [length]. rewrite Qc_of_nat_succ.
    repeat split; auto; apply f_equal; ring.
Qed.



(** A name listed twice among the targets is paid for twice and held
    once: half of the cash is lost. *)
Example duplicate_target_loses_cash :
  let prices := [("A"%string, qc 10)] in
  let r := rebalance prices (tradable_names prices ["A"%string; "A"%string])
             [] (qc 1000) in
  fst r = [("A"%string, qc 50)] /\ snd r = qc 0
  /\ stock_value prices (fst r) = qc 500.
Proof. repeat split; num_eq. Qed.

(* ------------------------------------------------------------------ *)
(** ** What a run records *)

Lemma dict_set_keys_eq {K V W : Type} (eqb : K -> K -> bool)
  (k : K) (v : V) (w : W) (d : list (K * V)) (d' : list (K * W)) :
  map fst d = map fst d' ->
  map fst (dict_set eqb k v d) = map fst (dict_set eqb k w d').
Proof.
  revert d'. induction d as [|[k1 v1] d IH]; intros [|[k2 w2] d'];
    simpl; try discriminate; auto.
  intros E. injection E as E1 E2. subst k2.
  destruct (eqb k k1); simpl; f_equal; auto.
Qed.

Lemma dict_set_key_in {K V : Type} (eqb : K -> K -> bool)
  (eqb_spec : forall a b, eqb a b = true <-> a = b)
  (k : K) (v : V) (d : list (K * V)) (k0 : K) :
  k0 = k \/ In k0 (map fst d) -> In k0 (map fst (dict_set eqb k v d)).
Proof.
  induction d as [|[k1 v1] d IH]; simpl.
  - intros [->|[]]. auto.
  - destruct (eqb k k1) eqn:E; simpl.
    + apply eqb_spec in E. subst k1. intros [->|[<-|H]]; auto.
    + intros [->|[<-|H]]; auto.
Qed.

Lemma dict_update_keys {K V : Type} (eqb : K -> K -> bool)
  (k : K) (f : V -> V) (d : list (K * V)) :
  map fst (dict_update eqb k f d) = map fst d.
Proof.
  induction d as [|[k1 v1] d IH]; simpl; auto.
  destruct (eqb k k1); simpl; f_equal; auto.
Qed.

Section RecordFacts.
Variable price_ts : option price_table.
Variable qs : list date.
Variable score_quarter : date -> option (matrix * list (string * num)).

Lemma open_positions_records (trade_date : date) (prices : option snapshot)
  (top : list (string * num)) (st : state) :
  all_top_stocks (open_positions qs trade_date prices top st)
  = all_top_stocks st
  /\ all_loadings (open_positions qs trade_date prices top st)
     = all_loadings st.
Proof.
  unfold open_positions. destruct prices; auto.
  destruct (date_eqb trade_date (last_quarter qs)); auto.
Qed.

Lemma period_start_records (i : nat) (trade_date : date) (st st1 : state)
  (prices : option snapshot) :
  period_start price_ts i trade_date st = Some (st1, prices) ->
  all_top_stocks st1 = all_top_stocks st
  /\ all_loadings st1 = all_loadings st
  /\ (price_ts <> None ->
      forall k, k = quarter_str trade_date
                \/ In k (map fst (portfolio_history st)) ->
                In k (map fst (portfolio_history st1))).
Proof.
  unfold period_start. destruct price_ts as [ts|].
  - destruct (actual_trade_row ts trade_date) as [[d p]|]; [|discriminate].
    intros E. inversion E; subst; clear E. cbn. repeat split; auto.
    intros _ k Hk. apply dict_set_key_in; [exact qkey_eqb_spec | exact Hk].
  - intros E. inversion E; subst. repeat split; auto.
    intros H. contradiction.
Qed.

Lemma quarter_body_records (i : nat) (trade_date : date) (seen : list date)
  (st : state) :
  records_ok price_ts score_quarter seen st ->
  records_ok price_ts score_quarter (trade_date :: seen)
    (quarter_body price_ts qs score_quarter i trade_date st).
Proof.
  intros (R1 & R2 & R3).
  assert (Keep : records_ok price_ts score_quarter (trade_date :: seen) st).
  { split; [|split]; auto.
    intros k top H. destruct (R1 k top H) as (td & L & r & Hin & Hk).
    exists td, L, r. split; [right; exact Hin | exact Hk]. }
  unfold quarter_body.
  destruct (period_start price_ts i trade_date st) as [[st1 prices]|] eqn:E;
    [|exact Keep].
  destruct (period_start_records _ _ _ _ _ E) as (P1 & P2 & P3).
  destruct (score_quarter trade_date) as [[L ranked]|] eqn:Es.
  - destruct (open_positions_records trade_date prices
                (firstn TOP_N_STOCKS ranked)
                (mkState (cash st1) (current_portfolio st1)
                   (portfolio_history st1)
                   (dict_set qkey_eqb (quarter_str trade_date) L
                      (all_loadings st1))
                   (dict_set qkey_eqb (quarter_str trade_date)
                      (firstn TOP_N_STOCKS ranked) (all_top_stocks st1))))
      as (O1 & O2).
    unfold records_ok, rankings_from_scoring.
    rewrite O1, O2, open_positions_history. cbn. rewrite P1, P2.
    split; [|split].
    + intros k top H. apply dict_set_In in H. destruct H as [H|H].
      * inversion H; subst. exists trade_date, L, ranked.
        split; [left; reflexivity|]. repeat split; auto.
      * destruct (R1 k top H) as (td & L' & r & Hin & Hk).
        exists td, L', r. split; [right; exact Hin | exact Hk].
    + apply dict_set_keys_eq. exact R2.
    + intros Hp k Hk. apply dict_set_keys in Hk. apply (P3 Hp).
      destruct Hk as [->|Hk]; [left; reflexivity | right; apply (R3 Hp); exact Hk].
  - destruct Keep as (K1 & K2 & K3). unfold records_ok.
    rewrite P1, P2. split; [|split]; auto.
    + intros k top H. rewrite P1 in H. exact (K1 k top H).
    + intros Hp k Hk. apply (P3 Hp). right. apply (K3 Hp). exact Hk.
Qed.

Lemma run_quarters_records (l : list date) (i : nat) (seen : list date)
  (st : state) :
  records_ok price_ts score_quarter seen st ->
  records_ok price_ts score_quarter (rev l ++ seen) (run_quarters price_ts qs score_quarter i l st).
Proof.
  revert i seen st. induction l as [|d l IH]; intros i seen st H; simpl; auto.
  rewrite <- app_assoc. simpl. apply IH. apply quarter_body_records. exact H.
Qed.

End RecordFacts.

(** X2: in the result of a backtest every stored top list is the first
    [TOP_N_STOCKS] rows of a ranked list the scoring stage returned for
    a quarter of the sequence (so it has at most [TOP_N_STOCKS] rows),
    the loadings and the top lists are stored under the same keys, and
    with a price table every quarter that has a top list also has a
    history record. *)
Theorem rankings_recorded
  (price_ts : option price_table) (qs : list date)
  (score_quarter : date -> option (matrix * list (string * num))) :
  let st := backtest_and_analyze price_ts qs score_quarter in
  (forall k top, In (k, top) (all_top_stocks st) ->
     (length top <= TOP_N_STOCKS)%nat
     /\ exists trade_date loadings ranked,
          In trade_date qs
          /\ k = quarter_str trade_date
          /\ score_quarter trade_date = Some (loadings, ranked)
          /\ top = firstn TOP_N_STOCKS ranked)
  /\ map fst (all_loadings st) = map fst (all_top_stocks st)
  /\ (price_ts <> None ->
      incl (map fst (all_top_stocks st)) (map fst (portfolio_history st))).
Proof.
  intros st.
  assert (H : records_ok price_ts score_quarter (rev qs ++ [])
                (run_quarters price_ts qs score_quarter 0 qs initial_state)).
  { apply run_quarters_records. split; [|split].
    - intros k top [].
    - reflexivity.
    - intros _ k []. }
  rewrite app_nil_r in H. destruct H as (R1 & R2 & R3).
  assert (F : all_top_stocks st
              = all_top_stocks
                  (run_quarters price_ts qs score_quarter 0 qs initial_state)
              /\ all_loadings st
                 = all_loadings
                     (run_quarters price_ts qs score_quarter 0 qs
                        initial_state)
              /\ map fst (portfolio_history st)
                 = map fst
                     (portfolio_history
                        (run_quarters price_ts qs score_quarter 0 qs
                           initial_state))).
  { unfold st, backtest_and_analyze, final_liquidation.
    destruct price_ts; [|repeat split].
    destruct (portfolio_history _) as [|x h] eqn:Eh;
      [rewrite Eh; repeat split|].
    cbn [all_top_stocks all_loadings portfolio_history].
    rewrite dict_update_keys. repeat split. }
  destruct F as (F1 & F2 & F3). rewrite F1, F2, F3.
  split; [|split]; auto.
  intros k top Hin. destruct (R1 k top Hin) as (td & L & r & Hq & Hk & Hs & Ht).
  split.
  - subst top. apply firstn_le_length.
  - exists td, L, r. repeat split; auto. apply in_rev. exact Hq.
Qed.

Lemma rankings_recorded_witness :
  let st := backtest_and_analyze (Some two_dates) quarters rank_A_first in
  incl (map fst (all_top_stocks st)) (map fst (portfolio_history st)).
Proof.
  destruct (rankings_recorded (Some two_dates) quarters rank_A_first)
    as (_ & _ & H).
  apply H. discriminate.
Defined.

(* ------------------------------------------------------------------ *)
(** ** Running without a price table *)

Lemma quarter_body_no_prices (qs : list date)
  (score_quarter : date -> option (matrix * list (string * num)))
  (i : nat) (trade_date : date) (st : state) :
  let st' := quarter_body None qs score_quarter i trade_date st in
  cash st' = cash st
  /\ current_portfolio st' = current_portfolio st
  /\ portfolio_history st' = portfolio_history st
  /\ (forall k, In k (map fst (all_top_stocks st)) ->
                In k (map fst (all_top_stocks st')))
  /\ (score_quarter trade_date <> None ->
      In (quarter_str trade_date) (map fst (all_top_stocks st'))).
Proof.
  unfold quarter_body, period_start.
  destruct (score_quarter trade_date) as [[L ranked]|]; cbn.
  - repeat split; auto.
    + intros k Hk. apply dict_set_key_in; [exact qkey_eqb_spec | auto].
    + intros _. apply dict_set_key_in; [exact qkey_eqb_spec | auto].
  - repeat split; auto. intros H. contradiction.
Qed.

Lemma run_quarters_no_prices (qs : list date)
  (score_quarter : date -> option (matrix * list (string * num)))
  (l : list date) (i : nat) (st : state) :
  let st' := run_quarters None qs score_quarter i l st in
  cash st' = cash st
  /\ current_portfolio st' = current_portfolio st
  /\ portfolio_history st' = portfolio_history st
  /\ (forall k, In k (map fst (all_top_stocks st)) ->
                In k (map fst (all_top_stocks st')))
  /\ (forall trade_date, In trade_date l ->
        score_quarter trade_date <> None ->
        In (quarter_str trade_date) (map fst (all_top_stocks st'))).
Proof.
  revert i st. induction l as [|d l IH]; intros i st; cbn [run_quarters].
  - repeat split; auto. intros td [].
  - destruct (quarter_body_no_prices qs score_quarter i d st)
      as (B1 & B2 & B3 & B4 & B5).
    destruct (IH (S i) (quarter_body None qs score_quarter i d st))
      as (I1 & I2 & I3 & I4 & I5).
    cbv zeta in *. rewrite I1, I2, I3, B1, B2, B3.
    repeat split; auto.
    intros td [<-|Hin] Hs; auto.
Qed.

(** X3: without a price table the backtest only ranks: the cash is
    still the initial capital, nothing is held, the history is empty,
    and every quarter whose scoring succeeds has a top list. *)
Theorem backtest_without_price_table (qs : list date)
  (score_quarter : date -> option (matrix * list (string * num))) :
  let st := backtest_and_analyze None qs score_quarter in
  cash st = INITIAL_CAPITAL
  /\ current_portfolio st = []
  /\ portfolio_history st = []
  /\ forall trade_date, In trade_date qs ->
       score_quarter trade_date <> None ->
       In (quarter_str trade_date) (map fst (all_top_stocks st)).
Proof.
  unfold backtest_and_analyze, final_liquidation.
  destruct (run_quarters_no_prices qs score_quarter qs 0 initial_state)
    as (I1 & I2 & I3 & _ & I5).
  cbv zeta in *. repeat split; auto.
Qed.

Lemma backtest_without_price_table_witness :
  In (2021%Z, 2%Z)
     (map fst (all_top_stocks
                 (backtest_and_analyze None quarters rank_A_first))).
Proof.
  destruct (backtest_without_price_table quarters rank_A_first)
    as (_ & _ & _ & H).
  apply (H (mkDate 2021 4 1)).
  - vm_compute. auto.
  - discriminate.
Defined.

(* ------------------------------------------------------------------ *)
(** ** The terminal value *)

Lemma run_quarters_app (price_ts : option price_table) (qs : list date)
  (score_quarter : date -> option (matrix * list (string * num)))
  (l1 l2 : list date) (i : nat) (st : state) :
  run_quarters price_ts qs score_quarter i (l1 ++ l2) st
  = run_quarters price_ts qs score_quarter (i + length l1) l2
      (run_quarters price_ts qs score_quarter i l1 st).
Proof.
  revert i st. induction l1 as [|d l1 IH]; intros i st; simpl.
  - rewrite Nat.add_0_r. reflexivity.
  - rewrite IH. f_equal. lia.
Qed.

Lemma run_quarters_last (price_ts : option price_table) (qs : list date)
  (score_quarter : date -> option (matrix * list (string * num)))
  (l : list date) (d : date) (i : nat) (st : state) :
  l <> [] ->
  run_quarters price_ts qs score_quarter i l st
  = quarter_body price_ts qs score_quarter (i + length (removelast l))
      (last l d)
      (run_quarters price_ts qs score_quarter i (removelast l) st).
Proof.
  intros Hne.
  rewrite (app_removelast_last d Hne) at 1.
  rewrite run_quarters_app. reflexivity.
Qed.

Lemma dict_update_In {K V : Type} (eqb : K -> K -> bool)
  (eqb_spec : forall a b, eqb a b = true <-> a = b)
  (k0 : K) (f : V -> V) (d : list (K * V)) (k : K) (v : V) :
  In (k, v) (dict_update eqb k0 f d) ->
  In (k, v) d \/ (k = k0 /\ exists v0, In (k0, v0) d /\ v = f v0).
Proof.
  induction d as [|[k1 v1] d IH]; simpl; [tauto|].
  destruct (eqb k0 k1) eqn:E; simpl.
  - apply eqb_spec in E. subst k1. intros [H|H]; auto.
    inversion H; subst. right. split; auto. exists v1. auto.
  - intros [H|H]; auto. destruct (IH H) as [H'|(-> & v0 & H1 & H2)]; auto.
    right. split; auto. exists v0. auto.
Qed.

(** The last quarter, when it is priced, ends in cash with its record
    freshly written. *)
Lemma last_quarter_body (ts : price_table) (qs : list date)
  (score_quarter : date -> option (matrix * list (string * num)))
  (i : nat) (st : state) (row : date * snapshot) :
  actual_trade_row ts (last_quarter qs) = Some row ->
  let st' := quarter_body (Some ts) qs score_quarter i (last_quarter qs) st in
  current_portfolio st' = []
  /\ dict_get qkey_eqb (quarter_str (last_quarter qs)) (portfolio_history st')
     = Some (mkEntry (cash st') None).
Proof.
  intros Hrow. unfold quarter_body, period_start. rewrite Hrow.
  destruct row as [d prices].
  assert (Ed : date_eqb (last_quarter qs) (last_quarter qs) = true)
    by (apply date_eqb_spec; reflexivity).
  destruct (score_quarter (last_quarter qs)) as [[L ranked]|];
    unfold open_positions; rewrite ?Ed; cbn;
    (split; [reflexivity | apply dict_get_set_same; exact qkey_eqb_spec]).
Qed.

(** X4: an end-of-period value is attached to no record but that of the
    last quarter; and when the last quarter is priced, the run ends with
    nothing held and the value attached equals the start value of that
    same record, which is the final cash. *)
Theorem terminal_value_is_last_start
  (ts : price_table) (qs : list date)
  (score_quarter : date -> option (matrix * list (string * num))) :
  let st := backtest_and_analyze (Some ts) qs score_quarter in
  (forall k e, In (k, e) (portfolio_history st) -> end_asset e <> None ->
     k = quarter_str (last_quarter qs))
  /\ (qs <> [] ->
      actual_trade_row ts (last_quarter qs) <> None ->
      current_portfolio st = []
      /\ dict_get qkey_eqb (quarter_str (last_quarter qs))
           (portfolio_history st)
         = Some (mkEntry (cash st) (Some (cash st)))).
Proof.
  intros st. unfold st, backtest_and_analyze.
  set (st0 := run_quarters (Some ts) qs score_quarter 0 qs initial_state).
  assert (Hn : no_end_asset (portfolio_history st0)).
  { apply run_quarters_history. intros k e []. }
  split.
  - unfold final_liquidation.
    destruct (portfolio_history st0) as [|x h] eqn:Eh.
    + intros k e Hin. rewrite Eh in Hin. destruct Hin.
    + cbn [portfolio_history]. intros k e Hin He.
      apply (dict_update_In qkey_eqb qkey_eqb_spec) in Hin.
      destruct Hin as [Hin|(-> & _)]; auto.
      exfalso. apply He. exact (Hn k e Hin).
  - intros Hne Hrow.
    destruct (actual_trade_row ts (last_quarter qs)) as [row|] eqn:Er;
      [clear Hrow | contradiction].
    assert (E0 : st0 = quarter_body (Some ts) qs score_quarter
                         (0 + length (removelast qs)) (last_quarter qs)
                         (run_quarters (Some ts) qs score_quarter 0
                            (removelast qs) initial_state)).
    { unfold st0, last_quarter. apply run_quarters_last. exact Hne. }
    destruct (last_quarter_body ts qs score_quarter
                (0 + length (removelast qs))
                (run_quarters (Some ts) qs score_quarter 0 (removelast qs)
                   initial_state) row Er) as (L1 & L2).
    cbv zeta in L1, L2. rewrite <- E0 in L1, L2.
    unfold final_liquidation.
    destruct (portfolio_history st0) as [|x h] eqn:Eh; [discriminate|].
    cbn [current_portfolio portfolio_history cash]. split; [exact L1|].
    rewrite dict_get_update, L2. unfold final_asset_value. rewrite L1.
    reflexivity.
Qed.

Lemma terminal_value_is_last_start_witness :
  let ts := two_dates ++ [(mkDate 2024 10 8, [("A"%string, qc 15)])] in
  let st := backtest_and_analyze (Some ts) quarters rank_A_only in
  dict_get qkey_eqb (2024%Z, 4%Z) (portfolio_history st)
  = Some (mkEntry (cash st) (Some (cash st))).
Proof.
  intros ts st.
  destruct (terminal_value_is_last_start ts quarters rank_A_only)
    as (_ & H).
  destruct H as (_ & H).
  - discriminate.
  - vm_compute. discriminate.
  - exact H.
Defined.

(* ------------------------------------------------------------------ *)
(** ** The first record *)

Section FirstRecord.
Variable price_ts : option price_table.
Variable qs : list date.
Variable score_quarter : date -> option (matrix * list (string * num)).

Lemma quarter_body_first_record (i : nat) (trade_date : date)
  (seen : list qkey) (st : state) :
  starts_at_initial_capital st ->
  incl (map fst (portfolio_history st)) seen ->
  ~ In (quarter_str trade_date) seen ->
  let st' := quarter_body price_ts qs score_quarter i trade_date st in
  starts_at_initial_capital st'
  /\ incl (map fst (portfolio_history st')) (quarter_str trade_date :: seen).
Proof.
  intros Hs Hk Hfresh.
  assert (Keep : incl (map fst (portfolio_history st))
                   (quarter_str trade_date :: seen))
    by (intros k Hin; right; apply Hk; exact Hin).
  unfold quarter_body, period_start.
  destruct price_ts as [ts|].
  - destruct (actual_trade_row ts trade_date) as [[d prices]|]; [|auto].
    set (total := if (i =? 0)%nat then INITIAL_CAPITAL
                  else nadd (stock_value prices (current_portfolio st))
                            (cash st)).
    assert (H1 : starts_at_initial_capital
                   (mkState total []
                      (dict_set qkey_eqb (quarter_str trade_date)
                         (mkEntry total None) (portfolio_history st))
                      (all_loadings st) (all_top_stocks st))
                 /\ incl (map fst
                            (dict_set qkey_eqb (quarter_str trade_date)
                               (mkEntry total None) (portfolio_history st)))
                         (quarter_str trade_date :: seen)).
    { split.
      - unfold starts_at_initial_capital in *. cbn [portfolio_history].
        destruct (portfolio_history st) as [|[k0 e0] h] eqn:Eh.
        + destruct Hs as [Hc Hp]. cbn. unfold total.
          destruct (i =? 0)%nat; [reflexivity|].
          rewrite Hp, Hc. reflexivity.
        + cbn. destruct (qkey_eqb (quarter_str trade_date) k0) eqn:E.
          * apply qkey_eqb_spec in E. exfalso. apply Hfresh. apply Hk.
            rewrite E. left. reflexivity.
          * exact Hs.
      - intros k Hin. apply dict_set_keys in Hin.
        destruct Hin as [->|Hin]; [left; reflexivity | right; auto]. }
    destruct (score_quarter trade_date) as [[L ranked]|]; [|exact H1].
    unfold starts_at_initial_capital in *.
    rewrite open_positions_history. cbn [portfolio_history] in *.
    destruct H1 as [H1a H1b]. split; [|exact H1b].
    destruct (dict_set qkey_eqb (quarter_str trade_date)
                (mkEntry total None) (portfolio_history st)) as [|[k1 e1] h1]
      eqn:Ed; [|exact H1a].
    exfalso. destruct (portfolio_history st) as [|[k0 e0] h0];
      cbn in Ed; [discriminate|].
    destruct (qkey_eqb (quarter_str trade_date) k0); discriminate.
  - destruct (score_quarter trade_date) as [[L ranked]|]; cbn; auto.
Qed.

Lemma run_quarters_first_record (l : list date) (i : nat)
  (seen : list qkey) (st : state) :
  NoDup (map quarter_str l) ->
  (forall d, In d l -> ~ In (quarter_str d) seen) ->
  starts_at_initial_capital st ->
  incl (map fst (portfolio_history st)) seen ->
  starts_at_initial_capital (run_quarters price_ts qs score_quarter i l st).
Proof.
  revert i seen st. induction l as [|d l IH]; intros i seen st Hnd Hf Hs Hk;
    cbn [run_quarters]; auto.
  cbn [map] in Hnd. inversion Hnd as [|? ? Hn Hnd']; subst.
  destruct (quarter_body_first_record i d seen st Hs Hk
              (Hf d (or_introl eq_refl))) as [B1 B2].
  apply (IH (S i) (quarter_str d :: seen)); auto.
  intros d' Hin [E|Hin'].
  - apply Hn. rewrite E. apply in_map. exact Hin.
  - exact (Hf d' (or_intror Hin) Hin').
Qed.

End FirstRecord.

Lemma backtest_first_record
  (price_ts : option price_table) (qs : list date)
  (score_quarter : date -> option (matrix * list (string * num))) :
  NoDup (map quarter_str qs) ->
  starts_at_initial_capital
    (backtest_and_analyze price_ts qs score_quarter).
Proof.
  intros Hnd.
  assert (H : starts_at_initial_capital
                (run_quarters price_ts qs score_quarter 0 qs initial_state)).
  { apply (run_quarters_first_record price_ts qs score_quarter qs 0 []);
      auto.
    - split; reflexivity.
    - intros k []. }
  unfold backtest_and_analyze, final_liquidation.
  destruct price_ts as [ts|]; auto.
  unfold starts_at_initial_capital in *.
  destruct (portfolio_history _) as [|[k0 e0] h] eqn:Eh.
  - rewrite Eh. exact H.
  - cbn. destruct (qkey_eqb _ k0); exact H.
Qed.

Lemma initial_capital_ratio : ndiv INITIAL_CAPITAL INITIAL_CAPITAL = of_Z 1.
Proof. num_eq. Qed.

(** X5: when the quarters of the sequence have different keys, the first
    record of the history starts at the initial capital, however many
    quarters were skipped before it, so the first net value is 1; and
    while there is no record the cash is the initial capital and nothing
    is held. *)
Theorem first_record_starts_at_initial_capital
  (price_ts : option price_table) (qs : list date)
  (score_quarter : date -> option (matrix * list (string * num))) :
  NoDup (map quarter_str qs) ->
  let st := backtest_and_analyze price_ts qs score_quarter in
  starts_at_initial_capital st
  /\ forall k e rest, portfolio_history st = (k, e) :: rest ->
       start_asset e = INITIAL_CAPITAL
       /\ ndiv (start_asset e) INITIAL_CAPITAL = of_Z 1.
Proof.
  intros Hnd st.
  pose proof (backtest_first_record price_ts qs score_quarter Hnd) as H.
  fold st in H. split; [exact H|].
  intros k e rest E. unfold starts_at_initial_capital in H.
  rewrite E in H. split; [exact H|].
  rewrite H. exact initial_capital_ratio.
Qed.

Lemma first_record_starts_at_initial_capital_witness :
  starts_at_initial_capital
    (backtest_and_analyze
       (Some [(mkDate 2021 7 5, [("A"%string, qc 10)])])
       (tl quarters) rank_A_only)
  /\ portfolio_history
       (backtest_and_analyze
          (Some [(mkDate 2021 7 5, [("A"%string, qc 10)])])
          (tl quarters) rank_A_only) <> [].
Proof.
  split.
  - apply (first_record_starts_at_initial_capital
             (Some [(mkDate 2021 7 5, [("A"%string, qc 10)])])
             (tl quarters) rank_A_only).
    vm_compute. repeat constructor; simpl; intuition discriminate.
  - vm_compute. discriminate.
Defined.

(* ------------------------------------------------------------------ *)
(** ** Keys as strings *)

Lemma four_digit_years_spec (y : Z) :
  (1000 <= y <= 9999)%Z -> In y four_digit_years.
Proof.
  intros H. unfold four_digit_years. apply in_map_iff.
  exists (Z.to_nat (y - 1000)). split; [lia|]. apply in_seq. lia.
Qed.

Lemma label_checks_all : forallb label_checks four_digit_years = true.
Proof. vm_compute. reflexivity. Qed.

Lemma key_facts (k : qkey) :
  valid_key k ->
  quarter_label k = label_by_digits k
  /\ py_int (year_slice (quarter_label k)) = Some (fst k)
  /\ py_int (quarter_slice (quarter_label k)) = Some (snd k).
Proof.
  destruct k as [y q]. intros [Hy Hq]. cbn [fst snd] in *.
  pose proof label_checks_all as H.
  rewrite forallb_forall in H. specialize (H y (four_digit_years_spec y Hy)).
  unfold label_checks in H. rewrite forallb_forall in H.
  assert (Hin : In q [1; 2; 3; 4]%Z) by (simpl; lia).
  specialize (H q Hin). apply andb_true_iff in H. destruct H as [H1 H2].
  apply String.eqb_eq in H1. split; [exact H1|].
  destruct (py_int (year_slice (quarter_label (y, q)))) as [y'|];
    [|discriminate].
  destruct (py_int (quarter_slice (quarter_label (y, q)))) as [q'|];
    [|discriminate].
  apply andb_true_iff in H2. destruct H2 as [E1 E2].
  apply Z.eqb_eq in E1, E2. subst. split; reflexivity.
Qed.

Lemma quarter_bounds (d : date) :
  (1 <= month d <= 12)%Z ->
  (1 <= quarter d <= 4)%Z /\ (1 <= (quarter d - 1) * 3 + 1 <= 12)%Z.
Proof.
  intros H. unfold quarter.
  assert (E : (month d = 1 \/ month d = 2 \/ month d = 3 \/ month d = 4
               \/ month d = 5 \/ month d = 6 \/ month d = 7 \/ month d = 8
               \/ month d = 9 \/ month d = 10 \/ month d = 11
               \/ month d = 12)%Z) by lia.
  repeat (destruct E as [E|E]; [rewrite E; cbn; lia|]).
  rewrite E. cbn. lia.
Qed.

(** X6: the key of a quarter reads back: for a date with a four-digit
    year, the date line 243 rebuilds from the printed key is the first
    day of the date's quarter, which is the trade date itself for the
    quarter starts the backtest runs on. *)
Theorem key_date_round_trip (d : date) :
  (1000 <= year d <= 9999)%Z -> (1 <= month d <= 12)%Z ->
  key_date (quarter_label (quarter_str d)) = Some (quarter_start d)
  /\ (day d = 1%Z ->
      (month d = 1 \/ month d = 4 \/ month d = 7 \/ month d = 10)%Z ->
      key_date (quarter_label (quarter_str d)) = Some d).
Proof.
  intros Hy Hm. destruct (quarter_bounds d Hm) as [Hq Hqm].
  assert (Hv : valid_key (quarter_str d)) by (split; assumption).
  destruct (key_facts _ Hv) as (_ & E1 & E2).
  assert (R : key_date (quarter_label (quarter_str d))
              = Some (quarter_start d)).
  { unfold key_date. rewrite E1, E2. cbn [fst snd quarter_str].
    replace ((1 <=? (quarter d - 1) * 3 + 1)
             && ((quarter d - 1) * 3 + 1 <=? 12))%Z with true.
    - reflexivity.
    - symmetry. apply andb_true_iff. split; apply Z.leb_le; lia. }
  split; [exact R|].
  intros Hd Hs. rewrite R. f_equal. unfold quarter_start, quarter.
  destruct d as [y m dd]. cbn [year month day] in *. subst dd.
  destruct Hs as [ -> | [ -> | [ -> | -> ] ] ]; reflexivity.
Qed.

Lemma key_date_round_trip_witness :
  key_date (quarter_label (quarter_str (mkDate 2021 4 1)))
  = Some (mkDate 2021 4 1).
Proof.
  destruct (key_date_round_trip (mkDate 2021 4 1)) as [_ H];
    [cbn; lia | cbn; lia |].
  apply H; [reflexivity | cbn; lia].
Defined.

Lemma label_inj (k1 k2 : qkey) :
  valid_key k1 -> valid_key k2 ->
  quarter_label k1 = quarter_label k2 -> k1 = k2.
Proof.
  intros H1 H2 E.
  destruct (key_facts k1 H1) as (_ & A1 & B1).
  destruct (key_facts k2 H2) as (_ & A2 & B2).
  rewrite E in A1, B1. rewrite A1 in A2. rewrite B1 in B2.
  destruct k1, k2. cbn [fst snd] in *. congruence.
Qed.

(** X7: two quarters with four-digit years have the same printed key
    only if they are the same year and quarter. *)
Theorem quarter_label_injective (k1 k2 : qkey) :
  valid_key k1 -> valid_key k2 ->
  (quarter_label k1 = quarter_label k2 <-> k1 = k2).
Proof.
  intros H1 H2. split.
  - apply label_inj; assumption.
  - intros E. rewrite E. reflexivity.
Qed.

Lemma quarter_label_injective_witness :
  quarter_label (2021%Z, 2%Z) <> quarter_label (2021%Z, 3%Z).
Proof.
  intros E.
  apply (quarter_label_injective (2021%Z, 2%Z) (2021%Z, 3%Z)) in E;
    [discriminate E | split; cbn; lia | split; cbn; lia].
Defined.

(* ------------------------------------------------------------------ *)
(** ** The order of the printed keys *)

Lemma digit_char_compare (x y : Z) :
  (0 <= x <= 9)%Z -> (0 <= y <= 9)%Z ->
  Ascii.compare (digit_char x) (digit_char y) = (x ?= y)%Z.
Proof.
  intros Hx Hy.
  assert (Ex : (x = 0 \/ x = 1 \/ x = 2 \/ x = 3 \/ x = 4 \/ x = 5 \/ x = 6
                \/ x = 7 \/ x = 8 \/ x = 9)%Z) by lia.
  assert (Ey : (y = 0 \/ y = 1 \/ y = 2 \/ y = 3 \/ y = 4 \/ y = 5 \/ y = 6
                \/ y = 7 \/ y = 8 \/ y = 9)%Z) by lia.
  repeat (destruct Ex as [Ex|Ex]);
    repeat (destruct Ey as [Ey|Ey]); subst; reflexivity.
Qed.

Lemma year_digits (y : Z) :
  (1000 <= y <= 9999)%Z ->
  (y = 1000 * (y / 1000) + 100 * (y / 100 mod 10)
       + 10 * (y / 10 mod 10) + y mod 10
   /\ 0 <= y / 1000 <= 9 /\ 0 <= y / 100 mod 10 <= 9
   /\ 0 <= y / 10 mod 10 <= 9 /\ 0 <= y mod 10 <= 9)%Z.
Proof.
  intros H.
  pose proof (Z.div_mod y 10 ltac:(lia)).
  pose proof (Z.mod_pos_bound y 10 ltac:(lia)).
  pose proof (Z.div_mod (y / 10) 10 ltac:(lia)).
  pose proof (Z.mod_pos_bound (y / 10) 10 ltac:(lia)).
  pose proof (Z.div_mod (y / 100) 10 ltac:(lia)).
  pose proof (Z.mod_pos_bound (y / 100) 10 ltac:(lia)).
  assert (E1 : (y / 10 / 10 = y / 100)%Z)
    by (rewrite Z.div_div by lia; reflexivity).
  assert (E2 : (y / 100 / 10 = y / 1000)%Z)
    by (rewrite Z.div_div by lia; reflexivity).
  rewrite E1 in *. rewrite E2 in *. lia.
Qed.

Lemma lex_compare_digits (a1 b1 c1 d1 q1 a2 b2 c2 d2 q2 y1 y2 : Z) :
  (y1 = 1000 * a1 + 100 * b1 + 10 * c1 + d1)%Z ->
  (y2 = 1000 * a2 + 100 * b2 + 10 * c2 + d2)%Z ->
  (0 <= a1 <= 9 /\ 0 <= b1 <= 9 /\ 0 <= c1 <= 9 /\ 0 <= d1 <= 9)%Z ->
  (0 <= a2 <= 9 /\ 0 <= b2 <= 9 /\ 0 <= c2 <= 9 /\ 0 <= d2 <= 9)%Z ->
  match (a1 ?= a2)%Z with
  | Eq => match (b1 ?= b2)%Z with
          | Eq => match (c1 ?= c2)%Z with
                  | Eq => match (d1 ?= d2)%Z with
                          | Eq => match (q1 ?= q2)%Z with
                                  | Eq => Eq
                                  | ne => ne
                                  end
                          | ne => ne
                          end
                  | ne => ne
                  end
          | ne => ne
          end
  | ne => ne
  end
  = match (y1 ?= y2)%Z with
    | Eq => (q1 ?= q2)%Z
    | c => c
    end.
Proof.
  intros E1 E2 B1 B2.
  destruct (Z.compare_spec a1 a2), (Z.compare_spec b1 b2),
    (Z.compare_spec c1 c2), (Z.compare_spec d1 d2),
    (Z.compare_spec y1 y2); try lia;
    try reflexivity; destruct (q1 ?= q2)%Z; reflexivity.
Qed.

Lemma label_compare (k1 k2 : qkey) :
  valid_key k1 -> valid_key k2 ->
  String.compare (quarter_label k1) (quarter_label k2) = qkey_compare k1 k2.
Proof.
  intros H1 H2.
  destruct (key_facts k1 H1) as (L1 & _). destruct (key_facts k2 H2) as (L2 & _).
  rewrite L1, L2. destruct k1 as [y1 q1], k2 as [y2 q2].
  destruct H1 as [Hy1 Hq1], H2 as [Hy2 Hq2]. cbn [fst snd] in *.
  destruct (year_digits y1 Hy1) as (E1 & A1 & B1 & C1 & D1).
  destruct (year_digits y2 Hy2) as (E2 & A2 & B2 & C2 & D2).
  unfold label_by_digits, qkey_compare. cbn [fst snd String.compare].
  rewrite !digit_char_compare by lia.
  change (Ascii.compare "Q" "Q") with Eq. cbv iota.
  apply (lex_compare_digits _ _ _ _ q1 _ _ _ _ q2 y1 y2 E1 E2); tauto.
Qed.

(** X8: printed keys with four-digit years compare as strings the way
    the quarters compare in time. *)
Theorem quarter_label_order (k1 k2 : qkey) :
  valid_key k1 -> valid_key k2 ->
  String.compare (quarter_label k1) (quarter_label k2) = qkey_compare k1 k2
  /\ (String.ltb (quarter_label k1) (quarter_label k2) = true
      <-> qkey_lt k1 k2).
Proof.
  intros H1 H2. pose proof (label_compare k1 k2 H1 H2) as E.
  split; [exact E|].
  unfold String.ltb, qkey_lt. rewrite E.
  destruct (qkey_compare k1 k2); split; intros H; auto; discriminate.
Qed.

Lemma quarter_label_order_witness :
  String.compare (quarter_label (2021%Z, 4%Z)) (quarter_label (2022%Z, 1%Z))
  = Lt.
Proof.
  rewrite (proj1 (quarter_label_order (2021%Z, 4%Z) (2022%Z, 1%Z)
                    ltac:(split; cbn; lia) ltac:(split; cbn; lia))).
  reflexivity.
Defined.

(* ------------------------------------------------------------------ *)
(** ** The records are in time order *)

Lemma qkey_lt_irrefl (k : qkey) : ~ qkey_lt k k.
Proof.
  unfold qkey_lt, qkey_compare. rewrite !Z.compare_refl. discriminate.
Qed.

Lemma StronglySorted_snoc {A : Type} (R : A -> A -> Prop) (l : list A)
  (x : A) :
  StronglySorted R l -> Forall (fun y => R y x) l ->
  StronglySorted R (l ++ [x]).
Proof.
  induction 1 as [|y l Hs IH Hall]; intros Hf; simpl.
  - repeat constructor.
  - inversion Hf; subst. constructor; auto.
    apply Forall_app. split; auto.
Qed.

Lemma quarter_body_keys (price_ts : option price_table) (qs : list date)
  (score_quarter : date -> option (matrix * list (string * num)))
  (i : nat) (trade_date : date) (st : state) :
  let h' := portfolio_history
              (quarter_body price_ts qs score_quarter i trade_date st) in
  h' = portfolio_history st
  \/ exists e, h' = dict_set qkey_eqb (quarter_str trade_date) e
                      (portfolio_history st).
Proof.
  unfold quarter_body, period_start. destruct price_ts as [ts|].
  - destruct (actual_trade_row ts trade_date) as [[d prices]|]; auto.
    right. eexists.
    destruct (score_quarter trade_date) as [[L ranked]|];
      rewrite ?open_positions_history; reflexivity.
  - left. destruct (score_quarter trade_date) as [[L ranked]|];
      rewrite ?open_positions_history; reflexivity.
Qed.

Lemma run_quarters_keys_in_order (price_ts : option price_table)
  (qs : list date)
  (score_quarter : date -> option (matrix * list (string * num)))
  (l : list date) (i : nat) (st : state) :
  StronglySorted qkey_lt (map quarter_str l) ->
  Forall valid_key (map quarter_str l) ->
  keys_in_order (portfolio_history st) ->
  (forall k d, In k (map fst (portfolio_history st)) -> In d l ->
     qkey_lt k (quarter_str d)) ->
  keys_in_order
    (portfolio_history (run_quarters price_ts qs score_quarter i l st)).
Proof.
  revert i st. induction l as [|d l IH]; intros i st Hs Hv Hk Hlt;
    cbn [run_quarters]; auto.
  cbn [map] in Hs, Hv. apply StronglySorted_inv in Hs. destruct Hs as [Hs Hd].
  inversion Hv as [|? ? Hvd Hvl]; subst.
  apply IH; auto.
  - destruct (quarter_body_keys price_ts qs score_quarter i d st)
      as [E|[e E]]; cbv zeta in E; rewrite E; auto.
    assert (Hfresh : ~ In (quarter_str d) (map fst (portfolio_history st))).
    { intros Hin. apply (qkey_lt_irrefl (quarter_str d)).
      apply (Hlt _ d Hin). left. reflexivity. }
    rewrite (dict_set_fresh qkey_eqb qkey_eqb_spec _ _ _ Hfresh).
    destruct Hk as [K1 K2]. unfold keys_in_order. rewrite map_app. cbn [map fst].
    split.
    + apply StronglySorted_snoc; auto. apply Forall_forall.
      intros k Hin. apply (Hlt k d Hin). left. reflexivity.
    + apply Forall_app. split; auto.
  - intros k d' Hin Hd'.
    destruct (quarter_body_keys price_ts qs score_quarter i d st)
      as [E|[e E]]; cbv zeta in E; rewrite E in Hin.
    + apply (Hlt k d' Hin). right. exact Hd'.
    + apply dict_set_keys in Hin. destruct Hin as [->|Hin].
      * rewrite Forall_forall in Hd. apply Hd. apply in_map. exact Hd'.
      * apply (Hlt k d' Hin). right. exact Hd'.
Qed.

Lemma backtest_keys_in_order (price_ts : option price_table)
  (qs : list date)
  (score_quarter : date -> option (matrix * list (string * num))) :
  StronglySorted qkey_lt (map quarter_str qs) ->
  Forall valid_key (map quarter_str qs) ->
  keys_in_order
    (portfolio_history (backtest_and_analyze price_ts qs score_quarter)).
Proof.
  intros Hs Hv.
  assert (H : keys_in_order
                (portfolio_history
                   (run_quarters price_ts qs score_quarter 0 qs
                      initial_state))).
  { apply run_quarters_keys_in_order; auto.
    - split; constructor.
    - intros k d []. }
  unfold backtest_and_analyze, final_liquidation.
  destruct price_ts as [ts|]; auto.
  destruct (portfolio_history _) as [|x h] eqn:Eh; [rewrite Eh; exact H|].
  unfold keys_in_order in *. cbn [portfolio_history].
  rewrite dict_update_keys. exact H.
Qed.

Lemma py_sorted_of_sorted (l : list string) :
  StronglySorted (fun a b => String.compare a b = Lt) l -> py_sorted l = l.
Proof.
  induction 1 as [|x l Hs IH Hall]; [reflexivity|].
  cbn [py_sorted fold_right]. fold (py_sorted l). rewrite IH.
  destruct l as [|y l']; [reflexivity|]. cbn [insert_sorted].
  inversion Hall as [|? ? Hxy _]; subst.
  unfold String.leb. rewrite Hxy. reflexivity.
Qed.

Lemma labels_sorted (keys : list qkey) :
  StronglySorted qkey_lt keys -> Forall valid_key keys ->
  StronglySorted (fun a b => String.compare a b = Lt)
    (map quarter_label keys).
Proof.
  induction 1 as [|k keys Hs IH Hall]; intros Hv; cbn [map]; constructor.
  - apply IH. inversion Hv; auto.
  - inversion Hv as [|? ? Hk Hks]; subst. apply Forall_map.
    rewrite Forall_forall in *. intros k' Hin.
    rewrite label_compare; auto. apply Hall. exact Hin.
Qed.

Lemma history_dict_keys (h : list (qkey * history_entry)) :
  map fst (history_dict h) = map quarter_label (map fst h).
Proof. unfold history_dict. rewrite !map_map. reflexivity. Qed.

(** X9: when the quarters of the sequence are in time order with
    four-digit years, the keys of the history are in ascending string
    order as they stand: [sorted(history.keys())] is the list of keys in
    the order of the records. *)
Theorem sorted_keys_are_the_records
  (price_ts : option price_table) (qs : list date)
  (score_quarter : date -> option (matrix * list (string * num))) :
  StronglySorted qkey_lt (map quarter_str qs) ->
  Forall valid_key (map quarter_str qs) ->
  let h := history_dict
             (portfolio_history
                (backtest_and_analyze price_ts qs score_quarter)) in
  py_sorted (map fst h) = map fst h.
Proof.
  intros Hs Hv h. unfold h. rewrite history_dict_keys.
  destruct (backtest_keys_in_order price_ts qs score_quarter Hs Hv)
    as [K1 K2].
  apply py_sorted_of_sorted. apply labels_sorted; assumption.
Qed.

Lemma quarters_in_order :
  StronglySorted qkey_lt (map quarter_str quarters)
  /\ Forall valid_key (map quarter_str quarters).
Proof.
  split.
  - vm_compute. repeat constructor.
  - vm_compute. repeat constructor; discriminate.
Qed.

Lemma sorted_keys_are_the_records_witness :
  py_sorted
    (map fst
       (history_dict
          (portfolio_history
             (backtest_and_analyze (Some two_dates) quarters rank_A_only))))
  = ["2021Q2"; "2021Q3"]%string.
Proof.
  rewrite (sorted_keys_are_the_records (Some two_dates) quarters rank_A_only
             (proj1 quarters_in_order) (proj2 quarters_in_order)).
  vm_compute. reflexivity.
Defined.

(* ------------------------------------------------------------------ *)
(** ** The net value curve *)

Lemma history_dict_get (h : list (qkey * history_entry)) (k : qkey)
  (e : history_entry) :
  keys_in_order h -> In (k, e) h ->
  dict_get String.eqb (quarter_label k) (history_dict h) = Some e.
Proof.
  intros [Hs Hv]. induction h as [|[k0 e0] h IH]; intros Hin; [destruct Hin|].
  cbn [map fst] in Hs, Hv. apply StronglySorted_inv in Hs.
  destruct Hs as [Hs Hall]. inversion Hv as [|? ? Hv0 Hvs]; subst.
  cbn [history_dict map fst snd dict_get].
  destruct Hin as [E|Hin].
  - inversion E; subst. rewrite String.eqb_refl. reflexivity.
  - assert (Hk : In k (map fst h)) by (apply in_map_iff; exists (k, e); auto).
    rewrite Forall_forall in Hall, Hvs.
    destruct (String.eqb (quarter_label k) (quarter_label k0)) eqn:Eq.
    + apply String.eqb_eq in Eq.
      apply (label_inj k k0 (Hvs k Hk) Hv0) in Eq. subst k0.
      exfalso. exact (qkey_lt_irrefl k (Hall k Hk)).
    + apply IH; auto. apply Forall_forall. exact Hvs.
Qed.

Lemma key_date_of_valid (k : qkey) :
  valid_key k -> key_date (quarter_label k) = Some (key_start k).
Proof.
  intros Hv. destruct (key_facts k Hv) as (_ & E1 & E2).
  destruct Hv as [Hy Hq]. unfold key_date. rewrite E1, E2.
  replace ((1 <=? (snd k - 1) * 3 + 1) && ((snd k - 1) * 3 + 1 <=? 12))%Z
    with true; [reflexivity|].
  symmetry. apply andb_true_iff. split; apply Z.leb_le; lia.
Qed.

Lemma all_some_key_dates (keys : list qkey) :
  Forall valid_key keys ->
  all_some (map key_date (map quarter_label keys))
  = Some (map key_start keys).
Proof.
  induction 1 as [|k keys Hk Hks IH]; [reflexivity|].
  cbn [map all_some]. rewrite (key_date_of_valid k Hk), IH. reflexivity.
Qed.

Lemma last_map {A B : Type} (f : A -> B) (l : list A) (d : A) :
  last (map f l) (f d) = f (last l d).
Proof.
  induction l as [|x l IH]; [reflexivity|].
  destruct l as [|y l]; [reflexivity|]. exact IH.
Qed.

Lemma last_In {A : Type} (l : list A) (d : A) : l <> [] -> In (last l d) l.
Proof.
  induction l as [|x l IH]; [contradiction|]. intros _.
  destruct l as [|y l]; [left; reflexivity|].
  right. apply IH. discriminate.
Qed.

Lemma last_indep {A : Type} (l : list A) (d d' : A) :
  l <> [] -> last l d = last l d'.
Proof.
  induction l as [|x l IH]; [contradiction|]. intros _.
  destruct l as [|y l]; [reflexivity|]. apply IH. discriminate.
Qed.

Lemma nav_curve_rows (h : list (qkey * history_entry)) :
  keys_in_order h ->
  nav_curve (history_dict h) = curve_of_records h.
Proof.
  intros Hk. pose proof Hk as [Hs Hv].
  unfold nav_curve, curve_of_records.
  unfold history_dict at 1. rewrite length_map.
  destruct (1 <? length h)%nat eqn:El; [|reflexivity].
  assert (Hne : h <> []) by (destruct h; [discriminate | discriminate]).
  rewrite history_dict_keys.
  rewrite (py_sorted_of_sorted _ (labels_sorted _ Hs Hv)).
  rewrite (all_some_key_dates _ Hv). rewrite !map_map.
  assert (Enav : map (fun x => net_value_of (history_dict h)
                                 (quarter_label (fst x))) h
                 = map (fun kv => ndiv (start_asset (snd kv)) INITIAL_CAPITAL)
                       h).
  { apply map_ext_in. intros [k e] Hin. unfold net_value_of.
    cbn [fst snd]. rewrite (history_dict_get h k e Hk Hin). reflexivity. }
  rewrite Enav.
  assert (Eend : known_end_asset (history_dict h)
                   (last (map (fun x => quarter_label (fst x)) h) EmptyString)
                 = match end_asset
                           (snd (last h ((0%Z, 0%Z), mkEntry NaN None))) with
                   | Some v => if notna v then Some v else None
                   | None => None
                   end).
  { set (d0 := ((0%Z, 0%Z), mkEntry NaN None)).
    rewrite (last_indep _ EmptyString
               ((fun x : qkey * history_entry => quarter_label (fst x)) d0)).
    - rewrite (last_map (fun x : qkey * history_entry =>
                           quarter_label (fst x)) h d0).
      unfold known_end_asset.
      pose proof (last_In h d0 Hne) as Hin.
      destruct (last h d0) as [k e] eqn:El'. cbn [fst snd].
      rewrite (history_dict_get h k e Hk Hin). reflexivity.
    - destruct h; [contradiction | discriminate]. }
  rewrite Eend.
  destruct (end_asset (snd (last h ((0%Z, 0%Z), mkEntry NaN None))))
    as [v|]; [|reflexivity].
  destruct (notna v); reflexivity.
Qed.

(** X10: for a history whose keys are in time order with four-digit
    years, the curve has one point per record, in the order of the
    records: the date is the first day of the record's quarter and the
    value its start asset over the initial capital; the terminal point
    is appended exactly when the last record carries an end value that
    is not NaN; no key is rejected. *)
Theorem nav_curve_follows_records (h : list (qkey * history_entry)) :
  keys_in_order h ->
  nav_curve (history_dict h) = curve_of_records h
  /\ nav_curve (history_dict h) <> Raised.
Proof.
  intros Hk. pose proof (nav_curve_rows h Hk) as E. split; [exact E|].
  rewrite E. unfold curve_of_records.
  destruct (1 <? length h)%nat; discriminate.
Qed.

Lemma nav_curve_follows_records_witness :
  nav_curve
    (history_dict
       [((2021%Z, 2%Z), mkEntry (qc 1000000) None);
        ((2021%Z, 3%Z), mkEntry (qc 1200000) None)])
  = curve_of_records
      [((2021%Z, 2%Z), mkEntry (qc 1000000) None);
       ((2021%Z, 3%Z), mkEntry (qc 1200000) None)].
Proof.
  apply (nav_curve_follows_records
           [((2021%Z, 2%Z), mkEntry (qc 1000000) None);
            ((2021%Z, 3%Z), mkEntry (qc 1200000) None)]).
  split.
  - repeat constructor.
  - repeat constructor; cbn; lia.
Defined.

(* ------------------------------------------------------------------ *)
(** ** The curve of a backtest *)

Lemma qkey_lt_trans (a b c : qkey) : qkey_lt a b -> qkey_lt b c -> qkey_lt a c.
Proof.
  unfold qkey_lt, qkey_compare.
  destruct (Z.compare_spec (fst a) (fst b)), (Z.compare_spec (fst b) (fst c)),
    (Z.compare_spec (fst a) (fst c)); try lia; try discriminate; auto.
  rewrite !Z.compare_lt_iff. lia.
Qed.

Lemma sorted_keys_NoDup (keys : list qkey) :
  StronglySorted qkey_lt keys -> NoDup keys.
Proof.
  induction 1 as [|k keys Hs IH Hall]; constructor; auto.
  intros Hin. rewrite Forall_forall in Hall.
  exact (qkey_lt_irrefl k (Hall k Hin)).
Qed.

Lemma dict_get_NoDup {K V : Type} (eqb : K -> K -> bool)
  (eqb_spec : forall a b, eqb a b = true <-> a = b)
  (k : K) (v : V) (d : list (K * V)) :
  NoDup (map fst d) -> In (k, v) d -> dict_get eqb k d = Some v.
Proof.
  induction d as [|[k0 v0] d IH]; intros Hnd Hin; [destruct Hin|].
  cbn [map fst] in Hnd. inversion Hnd as [|? ? Hn Hnd']; subst.
  cbn [dict_get]. destruct Hin as [E|Hin].
  - inversion E; subst. rewrite (proj2 (eqb_spec k k) eq_refl). reflexivity.
  - destruct (eqb k k0) eqn:Ek.
    + apply eqb_spec in Ek. subst k0. exfalso. apply Hn.
      apply in_map_iff. exists (k, v). auto.
    + apply IH; auto.
Qed.

Lemma run_quarters_keys_subset (price_ts : option price_table)
  (qs : list date)
  (score_quarter : date -> option (matrix * list (string * num)))
  (l : list date) (i : nat) (st : state) (k : qkey) :
  In k (map fst (portfolio_history
                   (run_quarters price_ts qs score_quarter i l st))) ->
  In k (map fst (portfolio_history st)) \/ In k (map quarter_str l).
Proof.
  revert i st. induction l as [|d l IH]; intros i st Hin;
    cbn [run_quarters] in Hin; auto.
  destruct (IH _ _ Hin) as [H|H]; [|right; right; exact H].
  destruct (quarter_body_keys price_ts qs score_quarter i d st)
    as [E|[e E]]; cbv zeta in E; rewrite E in H; auto.
  apply dict_set_keys in H. destruct H as [->|H]; auto.
  right. left. reflexivity.
Qed.

(** In a run over quarters in time order whose last quarter is priced,
    the last record of the history is the last quarter's. *)
Lemma last_record_is_last_quarter (ts : price_table) (qs : list date)
  (score_quarter : date -> option (matrix * list (string * num))) :
  StronglySorted qkey_lt (map quarter_str qs) ->
  qs <> [] ->
  actual_trade_row ts (last_quarter qs) <> None ->
  let st := backtest_and_analyze (Some ts) qs score_quarter in
  exists rows,
    portfolio_history st
    = rows ++ [(quarter_str (last_quarter qs),
                mkEntry (cash st) (Some (cash st)))]
    /\ current_portfolio st = [].
Proof.
  intros Hs Hne Hrow st.
  destruct (actual_trade_row ts (last_quarter qs)) as [[d prices]|] eqn:Er;
    [clear Hrow | contradiction].
  set (pre := run_quarters (Some ts) qs score_quarter 0 (removelast qs)
                initial_state).
  assert (E0 : run_quarters (Some ts) qs score_quarter 0 qs initial_state
               = quarter_body (Some ts) qs score_quarter
                   (0 + length (removelast qs)) (last_quarter qs) pre).
  { unfold last_quarter, pre. apply run_quarters_last. exact Hne. }
  assert (Hq : qs = removelast qs ++ [last_quarter qs])
    by (apply app_removelast_last; exact Hne).
  assert (Hfresh : ~ In (quarter_str (last_quarter qs))
                        (map fst (portfolio_history pre))).
  { intros Hin. unfold pre in Hin.
    apply run_quarters_keys_subset in Hin. destruct Hin as [[]|Hin].
    rewrite Hq in Hs. rewrite map_app in Hs. cbn [map] in Hs.
    clear - Hs Hin. revert Hs Hin.
    generalize (map quarter_str (removelast qs)) as keys.
    generalize (quarter_str (last_quarter qs)) as k.
    induction keys as [|k0 keys IH]; intros Hs Hin; [destruct Hin|].
    cbn [app] in Hs. apply StronglySorted_inv in Hs. destruct Hs as [Hs Hall].
    destruct Hin as [->|Hin]; [|exact (IH Hs Hin)].
    rewrite Forall_forall in Hall.
    apply (qkey_lt_irrefl k). apply Hall. apply in_or_app. right. left.
    reflexivity. }
  unfold st, backtest_and_analyze. rewrite E0.
  unfold quarter_body, period_start. rewrite Er.
  assert (Ed : date_eqb (last_quarter qs) (last_quarter qs) = true)
    by (apply date_eqb_spec; reflexivity).
  set (total := if (0 + length (removelast qs) =? 0)%nat then INITIAL_CAPITAL
                else nadd (stock_value prices (current_portfolio pre))
                          (cash pre)).
  exists (portfolio_history pre).
  destruct (score_quarter (last_quarter qs)) as [[L ranked]|];
    unfold open_positions; rewrite ?Ed; unfold final_liquidation;
    cbn [portfolio_history current_portfolio cash all_loadings
         all_top_stocks];
    rewrite (dict_set_fresh qkey_eqb qkey_eqb_spec _ _ _ Hfresh);
    (destruct (portfolio_history pre ++ [(quarter_str (last_quarter qs),
                                          mkEntry total None)])
       as [|x h] eqn:Eh;
     [destruct (portfolio_history pre); discriminate|]);
    rewrite <- Eh;
    cbn [portfolio_history current_portfolio cash];
    (split; [|reflexivity]);
    unfold final_asset_value; cbn [current_portfolio cash];
    clear Eh; induction (portfolio_history pre) as [|[k0 e0] r IHr];
    cbn [app dict_update] in *;
    try (rewrite qkey_eqb_refl; reflexivity);
    (destruct (qkey_eqb (quarter_str (last_quarter qs)) k0) eqn:Ek;
     [exfalso; apply Hfresh; left; cbn [fst];
      apply qkey_eqb_spec in Ek; auto
     | f_equal; apply IHr; intros Hin; apply Hfresh; right; exact Hin]).
Qed.

(** X11: in a backtest over quarters in time order with four-digit
    years whose last quarter is priced and which ends with a cash amount
    that is a number, with at least two records: the curve is the
    records' net values in their order followed by one terminal point,
    three months after the last quarter's first day; that terminal value
    repeats the last record's net value, and the total return shown is
    the last record's net value minus 1, times 100. *)
Theorem backtest_curve_terminal_point
  (ts : price_table) (qs : list date)
  (score_quarter : date -> option (matrix * list (string * num))) (v : Qc) :
  StronglySorted qkey_lt (map quarter_str qs) ->
  Forall valid_key (map quarter_str qs) ->
  qs <> [] ->
  actual_trade_row ts (last_quarter qs) <> None ->
  let st := backtest_and_analyze (Some ts) qs score_quarter in
  cash st = Fin v ->
  (1 < length (portfolio_history st))%nat ->
  let h := portfolio_history st in
  let net_values :=
    map (fun kv => ndiv (start_asset (snd kv)) INITIAL_CAPITAL) h in
  let final := ndiv (Fin v) INITIAL_CAPITAL in
  nav_curve (history_dict h)
  = Curve (map (fun kv => key_start (fst kv)) h
             ++ [add_months (key_start (quarter_str (last_quarter qs))) 3])
          (net_values ++ [final])
          (nmul (nsub final (of_Z 1)) (of_Z 100))
  /\ last net_values NaN = final.
Proof.
  intros Hs Hv Hne Hrow st Hc Hlen h net_values final.
  destruct (last_record_is_last_quarter ts qs score_quarter Hs Hne Hrow)
    as (rows & Eh & _).
  fold st in Eh. rewrite Hc in Eh. fold h in Eh.
  assert (Hk : keys_in_order h)
    by (apply backtest_keys_in_order; assumption).
  assert (Elast : last net_values NaN = final).
  { unfold net_values. rewrite Eh, map_app. cbn [map]. rewrite last_last.
    reflexivity. }
  split; [|exact Elast].
  rewrite (nav_curve_rows h Hk). unfold curve_of_records.
  apply Nat.ltb_lt in Hlen. fold h in Hlen. rewrite Hlen.
  assert (El : last h ((0%Z, 0%Z), mkEntry NaN None)
               = (quarter_str (last_quarter qs),
                  mkEntry (Fin v) (Some (Fin v))))
    by (rewrite Eh; apply last_last).
  rewrite El. cbn [snd end_asset notna fst].
  assert (Ed : last (map (fun kv => key_start (fst kv)) h) (mkDate 0 1 1)
               = key_start (quarter_str (last_quarter qs))).
  { rewrite Eh, map_app. cbn [map]. rewrite last_last. reflexivity. }
  rewrite Ed, last_last. reflexivity.
Qed.

Lemma backtest_curve_terminal_point_witness :
  let ts := two_dates ++ [(mkDate 2024 10 8, [("A"%string, qc 15)])] in
  let st := backtest_and_analyze (Some ts) quarters rank_A_only in
  last (map (fun kv => ndiv (start_asset (snd kv)) INITIAL_CAPITAL)
            (portfolio_history st)) NaN
  = ndiv (Fin (Q2Qc 1500000)) INITIAL_CAPITAL.
Proof.
  intros ts st.
  destruct (backtest_curve_terminal_point ts quarters rank_A_only
              (Q2Qc 1500000) (proj1 quarters_in_order)
              (proj2 quarters_in_order)) as [_ H].
  - discriminate.
  - vm_compute. discriminate.
  - num_eq.
  - vm_compute. lia.
  - exact H.
Defined.

(* ------------------------------------------------------------------ *)
(** ** The report periods of a window *)

Lemma tag_here_month (s : string) (m : Z) :
  tag_here s = Some m -> (m = 3 \/ m = 6 \/ m = 9 \/ m = 12)%Z.
Proof.
  unfold tag_here, report_map. cbn [find fst snd].
  repeat match goal with
         | |- context [if ?b then _ else _] => destruct b
         end; cbn; intros E; inversion E; lia.
Qed.

Lemma first_tag_month (s : string) (m : Z) :
  first_tag s = Some m -> (m = 3 \/ m = 6 \/ m = 9 \/ m = 12)%Z.
Proof.
  induction s as [|c s IH]; cbn [first_tag].
  - destruct (tag_here EmptyString) eqn:E; [|discriminate].
    intros H. inversion H; subst. exact (tag_here_month _ _ E).
  - destruct (tag_here (String c s)) eqn:E.
    + intros H. inversion H; subst. exact (tag_here_month _ _ E).
    + destruct (Ascii.eqb c newline); [discriminate | exact IH].
Qed.

Lemma re_search_month (s : string) (y m : Z) :
  re_search s = Some (y, m) -> (m = 3 \/ m = 6 \/ m = 9 \/ m = 12)%Z.
Proof.
  induction s as [|c s IH]; cbn [re_search].
  - destruct (four_digits EmptyString) as [[y' rest]|]; [|discriminate].
    destruct (first_tag rest) eqn:E; [|discriminate].
    intros H. inversion H; subst. exact (first_tag_month _ _ E).
  - destruct (four_digits (String c s)) as [[y' rest]|]; [|exact IH].
    destruct (first_tag rest) eqn:E; [|exact IH].
    intros H. inversion H; subst. exact (first_tag_month _ _ E).
Qed.

(** X12: on a quarter-start trade date the window holds exactly the
    columns of three report periods: those whose report month lies 7, 10
    and 13 months before the trade month.  The annual report that closed
    4 months before an April trade date is outside the window. *)
Theorem window_holds_three_periods (trade_date : date)
  (columns : list string) (col : string) :
  day trade_date = 1%Z ->
  (month trade_date = 1 \/ month trade_date = 4 \/ month trade_date = 7
   \/ month trade_date = 10)%Z ->
  (In col (window_cols trade_date columns) <->
   In col (tl columns)
   /\ exists y m,
        resolve col = Some (y, m)
        /\ let back := (month_index trade_date - (y * 12 + (m - 1)))%Z in
           (back = 7 \/ back = 10 \/ back = 13)%Z).
Proof.
  intros Hd Hm. unfold window_cols. rewrite filter_In, in_window_spec.
  split; intros [Hin (y & m & Er & Hw)]; (split; [exact Hin|]);
    exists y, m; (split; [exact Er|]);
    pose proof (re_search_month _ _ _ Er) as Hr;
    assert (Hm12 : (1 <= m <= 12)%Z) by lia;
    pose proof (window_months trade_date y m Hd Hm12) as W.
  - apply W in Hw. cbv zeta. unfold month_index in *. lia.
  - apply W. cbv zeta in Hw. unfold month_index in *. lia.
Qed.

Lemma window_holds_three_periods_witness :
  ~ In "ROE 2020年报"%string (window_cols (mkDate 2021 4 1) sample_columns)
  /\ In "ROE 2020三季"%string (window_cols (mkDate 2021 4 1) sample_columns).
Proof.
  pose proof (window_holds_three_periods (mkDate 2021 4 1) sample_columns)
    as H.
  split.
  - intros Hin. apply (H "ROE 2020年报"%string) in Hin;
      [|reflexivity | cbn; lia].
    destruct Hin as [_ (y & m & Er & Hb)].
    vm_compute in Er. inversion Er; subst. cbv in Hb. lia.
  - apply (H "ROE 2020三季"%string); [reflexivity | cbn; lia |].
    split; [simpl; auto|]. exists 2020%Z, 9%Z.
    split; [reflexivity | cbv; lia].
Defined.

(* ------------------------------------------------------------------ *)
(** ** Base indicator names *)

Example base_name_examples :
  get_base_indicator_name "净资产收益率ROE
[报告期] 2020一季
[单位] %" = "净资产收益率ROE"%string
  /\ get_base_indicator_name "  ROE　
2020" = "ROE"%string
  /\ get_base_indicator_name "证券名称" = "证券名称"%string.
Proof. vm_compute. auto. Qed.

Lemma drop_prefix_spec (p s r : list ascii) :
  drop_prefix p s = Some r -> s = p ++ r.
Proof.
  revert s. induction p as [|a p IH]; intros [|b s]; cbn [drop_prefix];
    intros H; try discriminate; try (inversion H; reflexivity).
  destruct (Ascii.eqb a b) eqn:E; [|discriminate].
  apply Ascii.eqb_eq in E. subst b. cbn [app]. f_equal. apply IH. exact H.
Qed.

Lemma drop_prefix_app (p a b r : list ascii) :
  drop_prefix p a = Some r -> drop_prefix p (a ++ b) = Some (r ++ b).
Proof.
  revert a. induction p as [|x p IH]; intros [|y a]; cbn [drop_prefix app];
    intros H; try discriminate; try (inversion H; reflexivity).
  destruct (Ascii.eqb x y); [apply IH; exact H | discriminate].
Qed.

Lemma drop_one_spec (seqs : list (list ascii)) (s r : list ascii) :
  Forall (fun p => p <> []) seqs ->
  drop_one seqs s = Some r ->
  exists p, In p seqs /\ p <> [] /\ s = p ++ r.
Proof.
  induction 1 as [|p l Hp Hl IH]; cbn [drop_one]; [discriminate|].
  destruct (drop_prefix p s) as [r'|] eqn:E.
  - intros H. inversion H; subst. exists p. repeat split; auto.
    + left. reflexivity.
    + apply drop_prefix_spec. exact E.
  - intros H. destruct (IH H) as (q & Hq & Hne & Es).
    exists q. repeat split; auto. right. exact Hq.
Qed.

Lemma drop_one_shorter (seqs : list (list ascii)) (s r : list ascii) :
  Forall (fun p => p <> []) seqs ->
  drop_one seqs s = Some r -> (length r < length s)%nat.
Proof.
  intros Hne H. destruct (drop_one_spec seqs s r Hne H) as (p & _ & Hp & ->).
  rewrite length_app. destruct p; [contradiction | simpl; lia].
Qed.

Lemma drop_one_app (seqs : list (list ascii)) (a b r : list ascii) :
  drop_one seqs a = Some r -> exists r', drop_one seqs (a ++ b) = Some r'.
Proof.
  induction seqs as [|p l IH]; cbn [drop_one]; [discriminate|].
  destruct (drop_prefix p a) as [r0|] eqn:E.
  - intros _. rewrite (drop_prefix_app p a b r0 E). eexists. reflexivity.
  - intros H. destruct (drop_prefix p (a ++ b)); [eexists; reflexivity|].
    exact (IH H).
Qed.

Lemma drop_leading_fixed (seqs : list (list ascii))
  (Hne : Forall (fun p => p <> []) seqs) (fuel : nat) (s : list ascii) :
  (length s <= fuel)%nat ->
  drop_one seqs (drop_leading fuel seqs s) = None.
Proof.
  revert s. induction fuel as [|fuel IH]; intros s Hl.
  - destruct s; [|simpl in Hl; lia]. cbn [drop_leading].
    destruct (drop_one seqs []) as [r|] eqn:E; auto.
    apply (drop_one_shorter seqs _ _ Hne) in E. simpl in E. lia.
  - cbn [drop_leading]. destruct (drop_one seqs s) as [r|] eqn:E; auto.
    apply IH. apply (drop_one_shorter seqs _ _ Hne) in E. lia.
Qed.

Lemma drop_leading_none (seqs : list (list ascii)) (fuel : nat)
  (s : list ascii) :
  drop_one seqs s = None -> drop_leading fuel seqs s = s.
Proof. intros H. destruct fuel; cbn [drop_leading]; rewrite ?H; auto. Qed.

Lemma drop_leading_suffix (seqs : list (list ascii))
  (Hne : Forall (fun p => p <> []) seqs) (fuel : nat) (s : list ascii) :
  exists pre, s = pre ++ drop_leading fuel seqs s.
Proof.
  revert s. induction fuel as [|fuel IH]; intros s; cbn [drop_leading].
  - exists []. reflexivity.
  - destruct (drop_one seqs s) as [r|] eqn:E; [|exists []; reflexivity].
    destruct (drop_one_spec seqs s r Hne E) as (p & _ & _ & ->).
    destruct (IH r) as (pre & Hpre). exists (p ++ pre).
    rewrite <- app_assoc. f_equal. exact Hpre.
Qed.

Lemma whitespace_nonempty : Forall (fun p => p <> []) whitespace.
Proof. unfold whitespace. cbn. repeat constructor; discriminate. Qed.

Lemma rev_whitespace_nonempty :
  Forall (fun p => p <> []) (map (@rev ascii) whitespace).
Proof. unfold whitespace. cbn. repeat constructor; discriminate. Qed.

Lemma lstrip_fixed (s : list ascii) : drop_one whitespace (lstrip s) = None.
Proof.
  unfold lstrip. apply drop_leading_fixed; [exact whitespace_nonempty | lia].
Qed.

Lemma rstrip_prefix (s : list ascii) : exists post, s = rstrip s ++ post.
Proof.
  unfold rstrip.
  destruct (drop_leading_suffix (map (@rev ascii) whitespace)
              rev_whitespace_nonempty (length s) (rev s)) as (pre & H).
  exists (rev pre). apply (f_equal (@rev ascii)) in H.
  rewrite rev_involutive, rev_app_distr in H. exact H.
Qed.

Lemma rstrip_idempotent (s : list ascii) : rstrip (rstrip s) = rstrip s.
Proof.
  unfold rstrip at 1.
  set (t := drop_leading (length s) (map (@rev ascii) whitespace) (rev s)).
  assert (Et : rstrip s = rev t) by reflexivity.
  rewrite Et, rev_involutive. f_equal. apply drop_leading_none.
  unfold t. apply drop_leading_fixed; [exact rev_whitespace_nonempty|].
  rewrite length_rev. lia.
Qed.

Lemma lstrip_rstrip (z : list ascii) :
  drop_one whitespace z = None -> lstrip (rstrip z) = rstrip z.
Proof.
  intros Hz. unfold lstrip. apply drop_leading_none.
  destruct (drop_one whitespace (rstrip z)) as [r|] eqn:E; auto.
  destruct (rstrip_prefix z) as (post & Hp).
  destruct (drop_one_app whitespace (rstrip z) post r E) as (r' & E').
  rewrite <- Hp in E'. congruence.
Qed.

Lemma strip_idempotent (s : list ascii) : strip (strip s) = strip s.
Proof.
  unfold strip. rewrite (lstrip_rstrip (lstrip s) (lstrip_fixed s)).
  apply rstrip_idempotent.
Qed.

Lemma strip_sublist (s : list ascii) (c : ascii) :
  In c (strip s) -> In c s.
Proof.
  unfold strip. intros H.
  destruct (rstrip_prefix (lstrip s)) as (post & Hp).
  assert (H1 : In c (lstrip s)) by (rewrite Hp; apply in_or_app; auto).
  unfold lstrip in H1.
  destruct (drop_leading_suffix whitespace whitespace_nonempty
              (length s) s) as (pre & Hs).
  rewrite Hs. apply in_or_app. auto.
Qed.

Lemma before_newline_free (s : list ascii) : ~ In newline (before_newline s).
Proof.
  induction s as [|c s IH]; cbn [before_newline]; [tauto|].
  destruct (Ascii.eqb c newline) eqn:E; [tauto|].
  intros [H|H]; [|exact (IH H)]. subst c.
  rewrite Ascii.eqb_refl in E. discriminate.
Qed.

Lemma before_newline_id (s : list ascii) :
  ~ In newline s -> before_newline s = s.
Proof.
  induction s as [|c s IH]; cbn [before_newline]; auto. intros H.
  destruct (Ascii.eqb c newline) eqn:E.
  - apply Ascii.eqb_eq in E. exfalso. apply H. left. exact E.
  - f_equal. apply IH. intros Hin. apply H. right. exact Hin.
Qed.

Lemma before_newline_app (a b : list ascii) :
  before_newline (a ++ newline :: b) = before_newline a.
Proof.
  induction a as [|c a IH]; cbn [app before_newline].
  - rewrite Ascii.eqb_refl. reflexivity.
  - destruct (Ascii.eqb c newline); [reflexivity | f_equal; exact IH].
Qed.

Lemma list_ascii_of_string_app (a b : string) :
  list_ascii_of_string (a ++ b)
  = list_ascii_of_string a ++ list_ascii_of_string b.
Proof.
  induction a as [|c a IH]; cbn; [reflexivity | f_equal; exact IH].
Qed.

(** X13: the base name of a label is decided by its first line: whatever
    follows the first line break (report period, unit) does not change
    it, so all the period columns of one indicator share a base name. *)
Theorem base_name_ignores_later_lines (first_line rest : string) :
  get_base_indicator_name (first_line ++ String newline rest)
  = get_base_indicator_name first_line.
Proof.
  unfold get_base_indicator_name.
  rewrite list_ascii_of_string_app. cbn [list_ascii_of_string].
  rewrite before_newline_app. reflexivity.
Qed.

(** X14: a base name is stable: it holds no line break, and taking the
    base name of a base name gives it back. *)
Theorem base_name_idempotent (column_name : string) :
  let base := get_base_indicator_name column_name in
  get_base_indicator_name base = base
  /\ ~ In newline (list_ascii_of_string base).
Proof.
  intros base. unfold base, get_base_indicator_name.
  rewrite !list_ascii_of_string_of_list_ascii.
  set (x := before_newline (list_ascii_of_string column_name)).
  assert (Hfree : ~ In newline (strip x)).
  { intros H. apply strip_sublist in H. exact (before_newline_free _ H). }
  split; [|exact Hfree].
  rewrite (before_newline_id _ Hfree), strip_idempotent. reflexivity.
Qed.

(* ------------------------------------------------------------------ *)
(** ** Window aggregation *)

Lemma nsum_of_numbers (l : list num) (a : Qc) :
  Forall (fun x => notna x = true) l ->
  exists q, fold_left nadd l (Fin a) = Fin q.
Proof.
  intros H. revert a. induction H as [|x l Hx Hl IH]; intros a; cbn.
  - exists a. reflexivity.
  - destruct x as [|x]; [discriminate|]. apply IH.
Qed.

Lemma filter_notna (xs : list num) :
  Forall (fun x => notna x = true) (filter notna xs).
Proof.
  apply Forall_forall. intros x Hx. apply filter_In in Hx. tauto.
Qed.

Lemma mean_skipna_notna (xs : list num) :
  notna (mean_skipna xs) = true <-> exists x, In x xs /\ notna x = true.
Proof.
  unfold mean_skipna. destruct (filter notna xs) as [|v vals] eqn:E.
  - split; [discriminate|]. intros (x & Hin & Hx).
    assert (Hf : In x (filter notna xs)) by (apply filter_In; auto).
    rewrite E in Hf. destruct Hf.
  - split.
    + intros _. exists v. apply filter_In. rewrite E. left. reflexivity.
    + intros _. pose proof (filter_notna xs) as Hall. rewrite E in Hall.
      destruct (nsum_of_numbers (v :: vals) (Q2Qc (inject_Z 0)) Hall)
        as (q & Hq).
      unfold nsum, of_Z at 1. rewrite Hq. unfold of_Z. cbn [ndiv].
      destruct (Qc_eq_dec _ _) as [Ez|]; [|reflexivity].
      exfalso. pose proof (Qc_of_nat_pos (length vals)) as Hp.
      cbn [length] in Ez. rewrite Ez in Hp.
      exact (Qclt_not_eq _ _ Hp eq_refl).
Qed.

(** X15: the matrix handed to the extractor has no gap: every row has one
    value per base indicator and every value is a number; a security of
    the table is in the matrix exactly when, for each base indicator, at
    least one of its cells in the window columns of that indicator is
    numeric. *)
Theorem aggregated_matrix_complete (cell : Type) (to_numeric : cell -> num)
  (t : fundamentals cell) (trade_date : date) (wd : window_data) :
  aggregate_window cell to_numeric t trade_date = Some wd ->
  let window := window_cols trade_date (columns cell t) in
  (forall name vals, In (name, vals) (rows wd) ->
     length vals = length (indicators wd)
     /\ Forall (fun x => notna x = true) vals)
  /\ (forall row, In row (securities cell t) ->
        (In (mean_row cell to_numeric t window row) (rows wd)
         <-> forall indicator, In indicator (indicators wd) ->
               exists col,
                 In col (cols_for_mean window indicator)
                 /\ notna (value_at cell to_numeric t (snd row) col) = true)).
Proof.
  intros H window. unfold aggregate_window in H. fold window in H.
  assert (Ewd : wd = mkWindow (base_indicators window)
                       (dropna (map (mean_row cell to_numeric t window)
                                    (securities cell t)))).
  { destruct window; [discriminate | inversion H; reflexivity]. }
  subst wd. cbn [rows indicators]. split.
  - intros name vals Hin. unfold dropna in Hin. apply filter_In in Hin.
    destruct Hin as [Hin Hok]. apply in_map_iff in Hin.
    destruct Hin as (row & Er & _). unfold mean_row in Er.
    inversion Er; subst. split.
    + apply length_map.
    + apply Forall_forall. intros x Hx. cbn [snd] in Hok.
      rewrite forallb_forall in Hok. apply Hok. exact Hx.
  - intros row Hrow. unfold dropna. rewrite filter_In, forallb_forall.
    split.
    + intros [_ Hok] indicator Hind.
      assert (Hm : notna (mean_skipna
                            (map (value_at cell to_numeric t (snd row))
                                 (cols_for_mean window indicator))) = true).
      { apply Hok. unfold mean_row. cbn [snd]. apply in_map_iff.
        exists indicator. auto. }
      apply mean_skipna_notna in Hm. destruct Hm as (x & Hx & Hn).
      apply in_map_iff in Hx. destruct Hx as (col & <- & Hcol).
      exists col. auto.
    + intros Hall. split; [apply in_map; exact Hrow|].
      intros x Hx. unfold mean_row in Hx. cbn [snd] in Hx.
      apply in_map_iff in Hx. destruct Hx as (indicator & <- & Hind).
      apply mean_skipna_notna. destruct (Hall indicator Hind) as (col & Hc & Hn).
      exists (value_at cell to_numeric t (snd row) col). split; auto.
      apply in_map. exact Hc.
Qed.

Example sample_aggregation :
  option_map (fun wd => (indicators wd, map fst (rows wd)))
    (aggregate_window num as_number sample_table (mkDate 2021 4 1))
  = Some (["EPS"; "ROE"]%string, ["A"; "C"]%string).
Proof. vm_compute. reflexivity. Qed.

Lemma aggregated_matrix_complete_witness :
  match aggregate_window num as_number sample_table (mkDate 2021 4 1) with
  | Some wd =>
      Forall (fun r => length (snd r) = length (indicators wd)
                       /\ Forall (fun x => notna x = true) (snd r))
             (rows wd)
  | None => False
  end.
Proof.
  destruct (aggregate_window num as_number sample_table (mkDate 2021 4 1))
    as [wd|] eqn:E.
  - destruct (aggregated_matrix_complete num as_number sample_table
                (mkDate 2021 4 1) wd E) as [H _].
    apply Forall_forall. intros [n v] Hin. exact (H n v Hin).
  - vm_compute in E. discriminate E.
Defined.

Lemma leb_total (x y : string) :
  String.leb x y = false -> String.leb y x = true.
Proof.
  unfold String.leb. rewrite (String.compare_antisym y x).
  destruct (String.compare x y); cbn; auto; discriminate.
Qed.

Lemma insert_sorted_In (x y : string) (l : list string) :
  In y (insert_sorted x l) <-> y = x \/ In y l.
Proof.
  induction l as [|z l IH]; cbn [insert_sorted].
  - cbn. intuition.
  - destruct (String.leb x z); cbn [In]; [intuition|].
    rewrite IH. intuition.
Qed.

Lemma py_sorted_In (y : string) (l : list string) :
  In y (py_sorted l) <-> In y l.
Proof.
  induction l as [|x l IH]; [reflexivity|].
  cbn [py_sorted fold_right]. fold (py_sorted l).
  rewrite insert_sorted_In, IH. cbn. intuition.
Qed.

Lemma insert_sorted_NoDup (x : string) (l : list string) :
  ~ In x l -> NoDup l -> NoDup (insert_sorted x l).
Proof.
  induction l as [|z l IH]; cbn [insert_sorted]; intros Hn Hd.
  - constructor; auto.
  - destruct (String.leb x z); [constructor; auto|].
    inversion Hd as [|? ? Hz Hd']; subst. constructor.
    + rewrite insert_sorted_In. intros [E|H]; [|contradiction].
      apply Hn. left. exact E.
    + apply IH; auto. intros H. apply Hn. right. exact H.
Qed.

Lemma py_sorted_NoDup (l : list string) : NoDup l -> NoDup (py_sorted l).
Proof.
  induction 1 as [|x l Hx Hd IH]; [constructor|].
  cbn [py_sorted fold_right]. fold (py_sorted l).
  apply insert_sorted_NoDup; auto. rewrite py_sorted_In. exact Hx.
Qed.

Lemma insert_sorted_Sorted (x : string) (l : list string) :
  Sorted (fun a b => String.leb a b = true) l ->
  Sorted (fun a b => String.leb a b = true) (insert_sorted x l).
Proof.
  induction 1 as [|z l Hs IH Hhd]; cbn [insert_sorted].
  - repeat constructor.
  - destruct (String.leb x z) eqn:E.
    + constructor; [constructor; auto|]. constructor. exact E.
    + constructor; auto. apply leb_total in E.
      destruct l as [|w l]; cbn [insert_sorted].
      * constructor. exact E.
      * destruct (String.leb x w); constructor; auto.
        inversion Hhd; auto.
Qed.

Lemma py_sorted_Sorted (l : list string) :
  Sorted (fun a b => String.leb a b = true) (py_sorted l).
Proof.
  induction l as [|x l IH]; [constructor|].
  cbn [py_sorted fold_right]. fold (py_sorted l).
  apply insert_sorted_Sorted. exact IH.
Qed.

(** X16: the matrix has one column per base indicator name found among
    the window columns, each name once, in ascending order of the names;
    an indicator without a column in the window has no column in the
    matrix. *)
Theorem base_indicators_spec (window : list string) :
  let inds := base_indicators window in
  (forall indicator,
     In indicator inds <->
     exists col, In col window /\ get_base_indicator_name col = indicator)
  /\ NoDup inds
  /\ Sorted (fun a b => String.leb a b = true) inds
  /\ (forall indicator, cols_for_mean window indicator = [] ->
        ~ In indicator inds).
Proof.
  intros inds. unfold inds, base_indicators.
  assert (Hin : forall indicator,
            In indicator
               (py_sorted (nodup string_dec
                             (map get_base_indicator_name window)))
            <-> exists col, In col window
                            /\ get_base_indicator_name col = indicator).
  { intros indicator. rewrite py_sorted_In, nodup_In, in_map_iff.
    split; intros (col & A & B); exists col; auto. }
  split; [exact Hin|]. split; [|split].
  - apply py_sorted_NoDup. apply NoDup_nodup.
  - apply py_sorted_Sorted.
  - intros indicator Hnone Hi. apply Hin in Hi. destruct Hi as (col & Hc & Hb).
    assert (Hf : In col (cols_for_mean window indicator)).
    { unfold cols_for_mean. apply filter_In. split; auto.
      apply String.eqb_eq. exact Hb. }
    rewrite Hnone in Hf. destruct Hf.
Qed.

Lemma base_indicators_spec_witness :
  ~ In "PE"%string
       (base_indicators
          (window_cols (mkDate 2021 4 1) (columns num sample_table))).
Proof.
  destruct (base_indicators_spec
              (window_cols (mkDate 2021 4 1) (columns num sample_table)))
    as (_ & _ & _ & H).
  apply H. vm_compute. reflexivity.
Defined.

Lemma filter_notna_numbers (xs : list num) :
  exists qs, filter notna xs = map Fin qs
             /\ forall q, In q qs -> In (Fin q) xs.
Proof.
  induction xs as [|x xs (qs & E & H)]; [exists []; split; [reflexivity|tauto]|].
  destruct x as [|q]; cbn [filter notna].
  - exists qs. split; auto. intros q Hq. right. auto.
  - exists (q :: qs). split; [rewrite E; reflexivity|].
    intros q' [->|Hq]; [left; reflexivity | right; auto].
Qed.

Lemma qsum_bounds (lo hi : Qc) (qs : list Qc) :
  Forall (fun q => (lo <= q)%Qc /\ (q <= hi)%Qc) qs ->
  let k := Q2Qc (inject_Z (Z.of_nat (length qs))) in
  (k * lo <= qsum_from 0 qs)%Qc /\ (qsum_from 0 qs <= k * hi)%Qc.
Proof.
  induction 1 as [|q qs [Hlo Hhi] Hall IH]; cbv zeta in *.
  - cbn [length]. change (Q2Qc (inject_Z (Z.of_nat 0))) with 0%Qc.
    unfold qsum_from. cbn [fold_left].
    rewrite !Qcmult_0_l. split; apply Qcle_refl.
  - cbn [length]. rewrite Qc_of_nat_succ.
    change (qsum_from 0 (q :: qs)) with (qsum_from (0 + q) qs).
    rewrite (qsum_from_shift qs (0 + q)%Qc).
    destruct IH as [I1 I2].
    set (k := Q2Qc (inject_Z (Z.of_nat (length qs)))) in *.
    set (s := qsum_from 0 qs) in *.
    replace ((k + 1) * lo)%Qc with (lo + k * lo)%Qc by ring.
    replace ((k + 1) * hi)%Qc with (hi + k * hi)%Qc by ring.
    replace (0 + q + s)%Qc with (q + s)%Qc by ring.
    split; apply Qcplus_le_compat; assumption.
Qed.



(* ------------------------------------------------------------------ *)
(** ** Weights as shares, scores as weighted averages *)

Lemma weights_exact (components : matrix) :
  all_finite components ->
  nsum (eig_vals components) <> of_Z 0 ->
  exists ws,
    weights_of components = map Fin ws
    /\ Forall (fun w => (0 <= w)%Qc) ws
    /\ qsum_from 0 ws = 1%Qc
    /\ length ws = length components.
Proof.
  intros Hfin Hnz.
  destruct (eig_vals_finite components Hfin) as (es & Ees & Hes & Hlen).
  unfold weights_of. rewrite Ees in *. rewrite nsum_Fin in Hnz.
  set (t := qsum_from 0 es) in *.
  assert (Ht0 : t <> 0%Qc) by (intros E; apply Hnz; rewrite E; reflexivity).
  assert (Htpos : (0 < t)%Qc).
  { apply Qc_nonneg_neq_pos; auto. apply qsum_from_nonneg. exact Hes. }
  exists (map (fun e => (e / t)%Qc) es). split; [|split; [|split]].
  - apply (ratio_Fin es Ht0).
  - apply Forall_map. eapply Forall_impl; [|exact Hes].
    intros e He. apply Qc_div_nonneg; auto.
  - rewrite qsum_div. fold t. unfold Qcdiv. apply Qcmult_inv_r. exact Ht0.
  - rewrite length_map. exact Hlen.
Qed.

Lemma share_le_total (ws : list Qc) (q : Qc) :
  Forall (fun w => (0 <= w)%Qc) ws -> In q ws -> (q <= qsum_from 0 ws)%Qc.
Proof.
  induction 1 as [|w ws Hw Hws IH]; intros Hin; [destruct Hin|].
  change (qsum_from 0 (w :: ws)) with (qsum_from (0 + w) ws).
  rewrite qsum_from_shift.
  assert (H0 : (0 <= qsum_from 0 ws)%Qc) by (apply qsum_from_nonneg; auto).
  destruct Hin as [->|Hin].
  - replace q with (0 + q + 0)%Qc at 1 by ring.
    apply Qcplus_le_compat; [apply Qcle_refl | exact H0].
  - specialize (IH Hin).
    replace q with (0 + q)%Qc by ring.
    apply Qcplus_le_compat; [|exact IH].
    replace (0 + w)%Qc with w by ring. exact Hw.
Qed.

(** X18: for loadings that are numbers and not all 0 there is one weight
    per factor, and every weight is a share: a number between 0 and 1. *)
Theorem weights_are_shares (components : matrix) :
  all_finite components ->
  nsum (eig_vals components) <> of_Z 0 ->
  length (weights_of components) = length components
  /\ forall w, In w (weights_of components) ->
       exists q, w = Fin q /\ (0 <= q)%Qc /\ (q <= 1)%Qc.
Proof.
  intros Hfin Hnz.
  destruct (weights_exact components Hfin Hnz) as (ws & E & Hpos & Hsum & Hlen).
  rewrite E. split; [rewrite length_map; exact Hlen|].
  intros w Hin. apply in_map_iff in Hin. destruct Hin as (q & <- & Hq).
  exists q. split; [reflexivity|]. split.
  - rewrite Forall_forall in Hpos. apply Hpos. exact Hq.
  - rewrite <- Hsum. apply share_le_total; assumption.
Qed.

Lemma weights_are_shares_witness :
  length (weights_of fixed_loadings) = 3%nat
  /\ exists q, nth 0 (weights_of fixed_loadings) NaN = Fin q
               /\ (0 <= q)%Qc /\ (q <= 1)%Qc.
Proof.
  destruct (weights_are_shares fixed_loadings) as [H1 H2].
  - repeat constructor.
  - intros E. vm_compute in E. discriminate E.
  - split; [exact H1|]. apply H2. apply nth_In. rewrite H1. cbn. lia.
Defined.

Lemma dot_Fin (rs ws : list Qc) :
  dot (map Fin rs) (map Fin ws)
  = Fin (qsum_from 0 (map (fun p => (fst p * snd p)%Qc) (combine rs ws))).
Proof.
  unfold dot. rewrite <- nsum_Fin. f_equal.
  revert ws. induction rs as [|r rs IH]; intros [|w ws]; cbn; auto.
  f_equal. apply IH.
Qed.

Lemma weighted_sum_bounds (lo hi : Qc) (rs ws : list Qc) :
  length rs = length ws ->
  Forall (fun w => (0 <= w)%Qc) ws ->
  (forall q, In q rs -> (lo <= q)%Qc /\ (q <= hi)%Qc) ->
  let s := qsum_from 0 (map (fun p => (fst p * snd p)%Qc) (combine rs ws)) in
  (lo * qsum_from 0 ws <= s)%Qc /\ (s <= hi * qsum_from 0 ws)%Qc.
Proof.
  revert ws. induction rs as [|r rs IH]; intros [|w ws] Hlen Hpos Hb;
    try discriminate Hlen.
  - cbn. unfold qsum_from. cbn.
    replace (lo * 0)%Qc with 0%Qc by ring.
    replace (hi * 0)%Qc with 0%Qc by ring.
    split; apply Qcle_refl.
  - inversion Hpos as [|? ? Hw Hws]; subst.
    cbn [combine map fst snd].
    change (qsum_from 0 (w :: ws)) with (qsum_from (0 + w) ws).
    change (qsum_from 0 ((r * w)%Qc :: ?l)) with (qsum_from (0 + r * w) l).
    cbv zeta.
    match goal with
    | |- context [qsum_from (0 + r * w) ?l] =>
        change (qsum_from 0 ((r * w)%Qc :: l)) with (qsum_from (0 + r * w) l);
        rewrite (qsum_from_shift l (0 + r * w)%Qc)
    end.
    rewrite (qsum_from_shift ws (0 + w)%Qc).
    destruct (IH ws) as [I1 I2]; auto.
    { intros q Hq. apply Hb. right. exact Hq. }
    destruct (Hb r (or_introl eq_refl)) as [B1 B2].
    cbv zeta in I1, I2.
    split.
    + replace (lo * (0 + w + qsum_from 0 ws))%Qc
        with (lo * w + lo * qsum_from 0 ws)%Qc by ring.
      apply Qcplus_le_compat; [|exact I1].
      replace (0 + r * w)%Qc with (r * w)%Qc by ring.
      apply Qcmult_le_compat_r; assumption.
    + replace (hi * (0 + w + qsum_from 0 ws))%Qc
        with (hi * w + hi * qsum_from 0 ws)%Qc by ring.
      apply Qcplus_le_compat; [|exact I2].
      replace (0 + r * w)%Qc with (r * w)%Qc by ring.
      apply Qcmult_le_compat_r; assumption.
Qed.



(** X20: when the scaler and the factor model return one row per row
    they are given, the ranked list names every security of the matrix
    exactly as often as the matrix has it: no security is lost or added
    by the scoring. *)
Theorem ranking_covers_every_security
  (scaler_fit_transform : matrix -> matrix)
  (fa_fit_transform : nat -> matrix -> option (matrix * matrix))
  (wd : window_data) (min_cum_var : num) (max_factor : nat)
  (loadings : matrix) (ranked : list (string * num)) :
  (forall X, length (scaler_fit_transform X) = length X) ->
  (forall k X scores components,
     fa_fit_transform k X = Some (scores, components) ->
     length scores = length X) ->
  ranking_result scaler_fit_transform fa_fit_transform wd min_cum_var
    max_factor loadings ranked ->
  Permutation (map fst (rows wd)) (map fst ranked)
  /\ length ranked = length (rows wd).
Proof.
  intros Hsc Hfa (scored & E & Hperm & _).
  unfold factor_scoring in E.
  destruct (fa_fit_transform _ _) as [[scores1 components1]|];
    [|discriminate].
  destruct (fa_fit_transform (n_factors_of components1 min_cum_var) _)
    as [[scores components]|] eqn:E2; [|discriminate].
  apply Hfa in E2. rewrite length_map, Hsc, length_map in E2.
  inversion E; subst loadings scored. clear E.
  assert (Hlen : length (map fst (rows wd))
                 = length (total_scores scores (weights_of components))).
  { unfold total_scores. rewrite !length_map. symmetry. exact E2. }
  assert (Hfst : forall (a : list string) (b : list num),
            length a = length b -> map fst (combine a b) = a).
  { induction a as [|x a IH]; intros [|y b] Hl; try discriminate Hl; auto.
    cbn. f_equal. apply IH. injection Hl. auto. }
  split.
  - rewrite <- (Hfst _ _ Hlen) at 1. apply Permutation_map. exact Hperm.
  - rewrite <- (Permutation_length Hperm), length_combine, <- Hlen.
    rewrite Nat.min_id. apply length_map.
Qed.

Lemma ranking_covers_every_security_witness :
  Permutation ["A"%string; "B"%string]
    (map fst [("B"%string, qc 1); ("A"%string, qc 1)]).
Proof.
  apply (ranking_covers_every_security id_scaler flat_fit three_indicators
           min_cum_var_default 10 [[qc 1; qc 0; qc 0]]
           [("B"%string, qc 1); ("A"%string, qc 1)]).
  - reflexivity.
  - intros k X scores components H. unfold flat_fit in H.
    inversion H. apply length_map.
  - exists [("A"%string, qc 1); ("B"%string, qc 1)]. split.
    + exact flat_scoring.
    + split; [apply perm_swap|].
      repeat constructor; apply Qcle_refl.
Defined.

(* ------------------------------------------------------------------ *)
(** ** The trade date actually used *)

Lemma find_first {A : Type} (f : A -> bool) (l : list A) (x : A) :
  find f l = Some x ->
  exists pre post, l = pre ++ x :: post /\ f x = true
                   /\ forall y, In y pre -> f y = false.
Proof.
  induction l as [|a l IH]; [discriminate|]. cbn.
  destruct (f a) eqn:Ea.
  - intros H. inversion H; subst. exists [], l. repeat split; auto.
    intros y [].
  - intros H. destruct (IH H) as (pre & post & E & Hx & Hpre).
    exists (a :: pre), post. rewrite E. repeat split; auto.
    intros y [<-|Hy]; auto.
Qed.

(** X21: on a price table in date order, the row a quarter trades on is
    the earliest row dated on or after the trade date; there is no such
    row exactly when every date of the table lies before the trade
    date. *)
Theorem trade_row_is_earliest (ts : price_table) (trade_date : date) :
  StronglySorted date_le (map fst ts) ->
  match actual_trade_row ts trade_date with
  | Some (d, prices) =>
      In (d, prices) ts /\ date_le trade_date d
      /\ forall d' prices', In (d', prices') ts ->
           date_le trade_date d' -> date_le d d'
  | None =>
      forall d' prices', In (d', prices') ts -> ~ date_le trade_date d'
  end.
Proof.
  intros Hs. unfold actual_trade_row.
  destruct (find _ ts) as [[d prices]|] eqn:E.
  - destruct (find_first _ _ _ E) as (pre & post & El & Hd & Hpre).
    cbn [fst] in Hd. apply date_leb_spec in Hd.
    split; [apply (find_some _ _ E)|]. split; [exact Hd|].
    intros d' prices' Hin Hle. rewrite El in Hin.
    apply in_app_or in Hin. destruct Hin as [Hin|[Heq|Hin]].
    + apply Hpre in Hin. cbn [fst] in Hin.
      apply date_leb_spec in Hle. congruence.
    + inversion Heq; subst. apply date_le_refl.
    + rewrite El, map_app in Hs. cbn [map fst] in Hs.
      assert (Hs' : StronglySorted date_le (d :: map fst post)).
      { clear - Hs. induction (map fst pre) as [|a l IH]; [exact Hs|].
        inversion Hs; subst. auto. }
      inversion Hs' as [|? ? _ Hall]; subst.
      rewrite Forall_forall in Hall. apply Hall.
      apply in_map_iff. exists (d', prices'). auto.
  - intros d' prices' Hin Hle.
    pose proof (find_none _ _ E _ Hin) as Hf. cbn [fst] in Hf.
    apply date_leb_spec in Hle. congruence.
Qed.

Lemma trade_row_is_earliest_witness :
  exists d prices,
    actual_trade_row two_dates (mkDate 2021 5 1) = Some (d, prices)
    /\ date_le d (mkDate 2021 7 1).
Proof.
  assert (Hs : StronglySorted date_le (map fst two_dates))
    by (repeat constructor; apply date_leb_spec; reflexivity).
  pose proof (trade_row_is_earliest two_dates (mkDate 2021 5 1) Hs) as H.
  destruct (actual_trade_row two_dates (mkDate 2021 5 1))
    as [[d prices]|] eqn:E.
  - destruct H as (_ & _ & H). exists d, prices. split; [reflexivity|].
    apply (H (mkDate 2021 7 1) [("A"%string, qc 12); ("B"%string, qc 8)]).
    + right. left. reflexivity.
    + apply date_leb_spec. reflexivity.
  - vm_compute in E. discriminate E.
Defined.

(* ------------------------------------------------------------------ *)
(** ** The value of the holdings at a later valuation *)

Lemma buy_loop_holdings (prices : snapshot) (inv : num)
  (names : list string) :
  NoDup names ->
  forall (pf : list (string * num)) (c : num),
    (forall n, In n names -> ~ In n (map fst pf)) ->
    fst (fold_left (buy prices inv) names (pf, c))
    = pf ++ map (fun n => (n, ndiv inv (series_get prices n NaN))) names.
Proof.
  induction 1 as [|n names Hn Hnd IH]; intros pf c Hd.
  - cbn. rewrite app_nil_r. reflexivity.
  - cbn [fold_left map]. unfold buy at 2. cbn [fst snd].
    rewrite (dict_set_fresh String.eqb String.eqb_eq n _ pf
               (Hd n (or_introl eq_refl))).
    rewrite IH.
    + rewrite <- app_assoc. reflexivity.
    + intros m Hm Hin. rewrite map_app in Hin. apply in_app_or in Hin.
      destruct Hin as [Hin|[<-|[]]]; [|contradiction].
      exact (Hd m (or_intror Hm) Hin).
Qed.

Lemma shares_times_price (inv p : Qc) (x : num) :
  p <> 0%Qc ->
  nmul (ndiv (Fin inv) (Fin p)) x = nmul (Fin inv) (ndiv x (Fin p)).
Proof.
  intros Hp. destruct x as [|y]; cbn [ndiv nmul].
  - destruct (Qc_eq_dec p 0%Qc); reflexivity.
  - destruct (Qc_eq_dec p 0%Qc); [contradiction|].
    cbn [nmul]. f_equal. field. exact Hp.
Qed.

Lemma later_value_of_holdings (prices later : snapshot) (inv : Qc)
  (names : list string) :
  Forall (fun n => exists p,
            dict_get String.eqb n prices = Some (Fin p) /\ (0 < p)%Qc) names ->
  stock_value later
    (map (fun n => (n, ndiv (Fin inv) (series_get prices n NaN))) names)
  = nmul (Fin inv) (nsum (map (price_relative prices later) names)).
Proof.
  intros Hval. unfold stock_value. rewrite <- nsum_scale, !map_map.
  f_equal. apply map_ext_in. intros n Hn. cbn [fst snd].
  rewrite Forall_forall in Hval. destruct (Hval n Hn) as (p & Hp & Hpos).
  assert (Eg : series_get prices n NaN = Fin p)
    by (unfold series_get; rewrite Hp; reflexivity).
  unfold price_relative. rewrite Eg.
  apply shares_times_price.
  intros E. rewrite E in Hpos. exact (Qclt_not_eq _ _ Hpos eq_refl).
Qed.



(* ------------------------------------------------------------------ *)
(** ** Returns and growth *)

Lemma compound_steps (first : Qc) (l : list Qc) :
  first <> 0%Qc ->
  Forall (fun q => q <> 0%Qc) l ->
  forall p, p <> 0%Qc ->
    fold_left (fun acc r => nmul acc (nadd (of_Z 1) (ndiv r (of_Z 100))))
      (map (fun x => fillna0 (nmul x (of_Z 100)))
         (map (fun pr => nsub (ndiv (fst pr) (snd pr)) (of_Z 1))
            (combine (map Fin l)
               (firstn (length (map Fin l)) (Fin p :: map Fin l)))))
      (Fin (p / first))
    = Fin (last l p / first).
Proof.
  intros Hf. induction 1 as [|y l Hy Hl IH]; intros p Hp.
  - reflexivity.
  - cbn [map length firstn combine fold_left fst snd].
    assert (E : nmul (Fin (p / first))
                  (nadd (of_Z 1)
                     (ndiv (fillna0
                              (nmul (nsub (ndiv (Fin y) (Fin p)) (of_Z 1))
                                 (of_Z 100)))
                        (of_Z 100)))
                = Fin (y / first)).
    { unfold of_Z. cbn [ndiv].
      destruct (Qc_eq_dec p 0%Qc); [contradiction|].
      cbn [nsub nmul fillna0 ndiv].
      destruct (Qc_eq_dec (Q2Qc (inject_Z 100)) 0%Qc) as [E|_].
      { apply (f_equal this) in E. vm_compute in E. discriminate E. }
      cbn [nadd nmul]. f_equal.
      assert (H100 : Q2Qc (inject_Z 100) <> 0%Qc).
      { intros E. apply (f_equal this) in E. vm_compute in E.
        discriminate E. }
      change (Q2Qc (inject_Z 1)) with 1%Qc.
      field. repeat split; assumption. }
    rewrite E. rewrite (IH y Hy).
    f_equal. f_equal. destruct l as [|q l]; [reflexivity|].
    change (last (y :: q :: l) p) with (last (q :: l) p).
    apply last_indep. discriminate.
Qed.



(* ------------------------------------------------------------------ *)
(** ** File names *)

Lemma starts_with_refl (s t : string) : starts_with s (s ++ t)%string = true.
Proof.
  induction s as [|c s IH]; cbn; [reflexivity|].
  rewrite Ascii.eqb_refl. exact IH.
Qed.

Lemma starts_with_prefix (p s : string) :
  starts_with p s = true -> exists b, s = (p ++ b)%string.
Proof.
  revert s. induction p as [|c p IH]; intros s H.
  - exists s. reflexivity.
  - destruct s as [|d s]; [discriminate|]. cbn in H.
    apply andb_true_iff in H. destruct H as [Hc Hp].
    apply Ascii.eqb_eq in Hc. subst d.
    destruct (IH s Hp) as (b & ->). exists b. reflexivity.
Qed.

Lemma starts_with_app_cases (p a b : string) :
  starts_with p (a ++ b)%string = true ->
  starts_with p a = true
  \/ exists t, p = (a ++ t)%string /\ starts_with t b = true.
Proof.
  revert a. induction p as [|c p IH]; intros a H.
  - left. reflexivity.
  - destruct a as [|d a].
    + right. exists (String c p). split; [reflexivity | exact H].
    + cbn in H. apply andb_true_iff in H. destruct H as [Hc Hp].
      destruct (IH a Hp) as [Hl|(t & -> & Ht)].
      * left. cbn. rewrite Hc. exact Hl.
      * right. exists t. apply Ascii.eqb_eq in Hc. subst d.
        split; [reflexivity | exact Ht].
Qed.

Lemma drop_str_app (a b : string) :
  drop_str (String.length a) (a ++ b)%string = b.
Proof. induction a as [|c a IH]; [destruct b; reflexivity | exact IH]. Qed.

Lemma string_app_nil_r (s : string) : (s ++ EmptyString)%string = s.
Proof. induction s as [|c s IH]; cbn; [reflexivity | f_equal; exact IH]. Qed.

Lemma occurs_tail (old : string) (c : ascii) (s : string) :
  occurs old s -> occurs old (String c s).
Proof. intros (a & b & ->). exists (String c a), b. reflexivity. Qed.

Lemma no_occurrence_at_head (old name : string) :
  head_unique old = true ->
  name <> EmptyString ->
  ~ occurs old name ->
  starts_with old (name ++ old)%string = false.
Proof.
  intros Hu Hne Hno.
  destruct (starts_with old (name ++ old)%string) eqn:E; [|reflexivity].
  exfalso. apply starts_with_app_cases in E.
  destruct E as [E|(t & Eo & Et)].
  - apply starts_with_prefix in E. destruct E as (b & ->).
    apply Hno. exists EmptyString, b. reflexivity.
  - destruct name as [|c n']; [contradiction|].
    destruct t as [|x t'].
    + apply Hno. exists EmptyString, EmptyString.
      rewrite string_app_nil_r in Eo. subst old.
      cbn [append]. rewrite string_app_nil_r. reflexivity.
    + rewrite Eo in Et, Hu. cbn in Et.
      apply andb_true_iff in Et. destruct Et as [Ex _].
      apply Ascii.eqb_eq in Ex. subst x.
      cbn [head_unique append] in Hu.
      apply negb_true_iff in Hu.
      assert (Hin : existsb (Ascii.eqb c)
                      (list_ascii_of_string (n' ++ String c t')) = true).
      { apply existsb_exists. exists c. split; [|apply Ascii.eqb_refl].
        rewrite list_ascii_of_string_app. apply in_or_app. right. left. reflexivity. }
      congruence.
Qed.

Lemma remove_fuel_empty (fuel : nat) (old : string) :
  old <> EmptyString -> remove_fuel fuel old EmptyString = EmptyString.
Proof.
  intros Hne. destruct fuel as [|f]; [reflexivity|].
  destruct old as [|c old]; [contradiction | reflexivity].
Qed.

(** Removing a pattern whose first character is not repeated in it from
    a name it does not occur in, followed by the pattern, leaves the
    name. *)
Lemma remove_suffix (old : string) :
  head_unique old = true ->
  forall (name : string) (fuel : nat),
    (String.length name < fuel)%nat ->
    ~ occurs old name ->
    remove_fuel fuel old (name ++ old)%string = name.
Proof.
  intros Hu.
  assert (Hne : old <> EmptyString) by (intros ->; discriminate Hu).
  induction name as [|c n' IH]; intros fuel Hf Hno.
  - destruct fuel as [|f]; [inversion Hf|].
    cbn [append remove_fuel].
    assert (E1 : starts_with old old = true).
    { pose proof (starts_with_refl old EmptyString) as H.
      rewrite string_app_nil_r in H. exact H. }
    assert (E2 : drop_str (String.length old) old = EmptyString).
    { pose proof (drop_str_app old EmptyString) as H.
      rewrite string_app_nil_r in H. exact H. }
    rewrite E1, E2. apply remove_fuel_empty. exact Hne.
  - destruct fuel as [|f]; [inversion Hf|].
    cbn [remove_fuel].
    rewrite (no_occurrence_at_head old (String c n') Hu) by
      (auto; discriminate).
    cbn [append]. f_equal. apply IH.
    + cbn [String.length] in Hf. lia.
    + intros H. apply Hno. apply occurs_tail. exact H.
Qed.

Lemma occursb_complete (old s : string) :
  occurs old s -> occursb old s = true.
Proof.
  intros (a & b & ->). induction a as [|c a IH].
  - cbn [append]. destruct (old ++ b)%string eqn:E;
      cbn [occursb]; rewrite <- E, starts_with_refl; reflexivity.
  - cbn [append occursb]. rewrite IH. apply orb_true_r.
Qed.

Lemma ends_with_app (old name : string) :
  ends_with old (name ++ old)%string = true.
Proof.
  induction name as [|c n IH].
  - cbn [append]. destruct old; cbn [ends_with];
      rewrite String.eqb_refl; reflexivity.
  - cbn [append ends_with]. rewrite IH.
    destruct (String.eqb _ _); reflexivity.
Qed.

Lemma starts_with_char_app (c : ascii) (a b : string) :
  starts_with (String c EmptyString) (a ++ b)%string
  = match a with
    | EmptyString => starts_with (String c EmptyString) b
    | String _ _ => starts_with (String c EmptyString) a
    end.
Proof. destruct a; reflexivity. Qed.

Lemma str_remove_suffix (old name : string) :
  head_unique old = true ->
  occursb old name = false ->
  str_remove old (name ++ old)%string = name.
Proof.
  intros Hu Hno. unfold str_remove.
  destruct old as [|c old'] eqn:E; [discriminate Hu|]. rewrite <- E in *.
  apply remove_suffix; auto.
  - clear. induction name as [|d n IH]; cbn [append String.length]; lia.
  - intros H. apply occursb_complete in H. congruence.
Qed.

(** X24: a cleaned workbook named after an industry is taken up under
    that industry's name, given that the name does not itself contain
    the suffix [_清洗后.xlsx]; it is passed over exactly when the name
    starts with a tilde. *)
Theorem industry_name_round_trip (industry : string) :
  occursb CLEANED_SUFFIX industry = false ->
  industry_of_file (industry ++ CLEANED_SUFFIX)%string
  = if starts_with "~" industry then None else Some industry.
Proof.
  intros Hno. unfold industry_of_file.
  rewrite ends_with_app,
    (str_remove_suffix CLEANED_SUFFIX industry eq_refl Hno).
  rewrite starts_with_char_app.
  destruct industry as [|c n]; [reflexivity|].
  destruct (starts_with "~" (String c n)); reflexivity.
Qed.

Lemma industry_name_round_trip_witness :
  industry_of_file "银行_清洗后.xlsx" = Some "银行"%string.
Proof.
  apply (industry_name_round_trip "银行"). reflexivity.
Defined.

(** A file name that holds the suffix twice loses both. *)
Example repeated_suffix_is_removed_twice :
  industry_of_file "a_清洗后.xlsx_清洗后.xlsx" = Some "a"%string.
Proof. reflexivity. Qed.

(** X25: the detail workbook written for an industry is one of the
    files the comparison chart collects, unless the name starts with a
    dot, and its legend label is the industry name, given that the name
    does not itself contain the suffix [_收益回测明细.xlsx]. *)
Theorem detail_file_labelled_by_industry (industry : string) :
  occursb DETAIL_SUFFIX industry = false ->
  legend_of_entry (detail_file_name industry) = industry
  /\ glob_detail (detail_file_name industry)
     = negb (starts_with "." industry).
Proof.
  intros Hno. unfold legend_of_entry, glob_detail, detail_file_name.
  rewrite ends_with_app,
    (str_remove_suffix DETAIL_SUFFIX industry eq_refl Hno).
  rewrite starts_with_char_app.
  split; [reflexivity|].
  destruct industry as [|c n]; reflexivity.
Qed.

Lemma detail_file_labelled_by_industry_witness :
  legend_of_entry "银行_收益回测明细.xlsx" = "银行"%string
  /\ glob_detail "银行_收益回测明细.xlsx" = true.
Proof.
  apply (detail_file_labelled_by_industry "银行"). reflexivity.
Defined.

(* ------------------------------------------------------------------ *)
(** ** NaN in the accounts *)

Lemma buy_loop_nan_cash (prices : snapshot) (inv : num)
  (names : list string) (pf : list (string * num)) :
  snd (fold_left (buy prices inv) names (pf, NaN)) = NaN.
Proof.
  revert pf. induction names as [|n names IH]; intros pf; [reflexivity|].
  cbn [fold_left]. unfold buy at 2. cbn [fst snd nsub]. apply IH.
Qed.

Lemma rebalance_nan_cash (prices : snapshot) (names : list string)
  (pf : list (string * num)) :
  snd (rebalance prices names pf NaN) = NaN.
Proof.
  unfold rebalance. destruct names as [|n names]; [reflexivity|].
  apply buy_loop_nan_cash.
Qed.

Lemma open_positions_nan_cash (qs : list date) (trade_date : date)
  (prices : option snapshot) (top : list (string * num)) (st : state) :
  cash st = NaN ->
  cash (open_positions qs trade_date prices top st) = NaN
  /\ portfolio_history (open_positions qs trade_date prices top st)
     = portfolio_history st.
Proof.
  intros Hc. unfold open_positions.
  destruct prices as [p|]; [|auto].
  destruct (date_eqb trade_date (last_quarter qs)); [auto|].
  cbn [cash portfolio_history]. rewrite Hc.
  split; [apply rebalance_nan_cash | reflexivity].
Qed.

Lemma quarter_body_nan_cash (price_ts : option price_table) (qs : list date)
  (score_quarter : date -> option (matrix * list (string * num)))
  (i : nat) (trade_date : date) (st : state) :
  (0 < i)%nat -> cash st = NaN ->
  let st' := quarter_body price_ts qs score_quarter i trade_date st in
  cash st' = NaN
  /\ forall k e, In (k, e) (portfolio_history st') ->
       In (k, e) (portfolio_history st) \/ start_asset e = NaN.
Proof.
  intros Hi Hc st'. unfold st', quarter_body, period_start.
  destruct price_ts as [ts|].
  - destruct (actual_trade_row ts trade_date) as [[d prices]|]; [|auto].
    assert (Ei : (i =? 0)%nat = false) by (apply Nat.eqb_neq; lia).
    rewrite Ei, Hc, nadd_NaN_r.
    assert (Hh : forall k e,
              In (k, e)
                 (dict_set qkey_eqb (quarter_str trade_date)
                    (mkEntry NaN None) (portfolio_history st)) ->
              In (k, e) (portfolio_history st) \/ start_asset e = NaN).
    { intros k e Hin. apply dict_set_In in Hin.
      destruct Hin as [E|Hin]; [|auto].
      inversion E; subst. right. reflexivity. }
    destruct (score_quarter trade_date) as [[loadings ranked]|].
    + match goal with
      | |- context [open_positions qs trade_date ?p ?t ?s] =>
          destruct (open_positions_nan_cash qs trade_date p t s eq_refl)
            as [O1 O2]
      end.
      rewrite O1, O2. split; [reflexivity | exact Hh].
    + split; [reflexivity | exact Hh].
  - destruct (score_quarter trade_date) as [[loadings ranked]|]; auto.
Qed.

(** X26: once the cash is NaN it stays NaN: after any further quarters
    every record written since starts at NaN, and the final asset value
    is NaN whatever the last prices are. *)
Theorem nan_cash_is_absorbing
  (price_ts : option price_table) (qs : list date)
  (score_quarter : date -> option (matrix * list (string * num)))
  (l : list date) (i : nat) (st : state) :
  (0 < i)%nat -> cash st = NaN ->
  let st' := run_quarters price_ts qs score_quarter i l st in
  cash st' = NaN
  /\ (forall k e, In (k, e) (portfolio_history st') ->
        In (k, e) (portfolio_history st) \/ start_asset e = NaN)
  /\ forall ts, final_asset_value ts st' = NaN.
Proof.
  intros Hi Hc st'.
  assert (H : cash st' = NaN
              /\ forall k e, In (k, e) (portfolio_history st') ->
                   In (k, e) (portfolio_history st) \/ start_asset e = NaN).
  { unfold st'. clear st'. revert i st Hi Hc.
    induction l as [|d l IH]; intros i st Hi Hc; [cbn; auto|].
    cbn [run_quarters].
    destruct (quarter_body_nan_cash price_ts qs score_quarter i d st Hi Hc)
      as [Q1 Q2].
    destruct (IH (S i) _ (Nat.lt_0_succ i) Q1) as [R1 R2].
    split; [exact R1|].
    intros k e Hin. destruct (R2 k e Hin) as [Hold|Hnan]; [|auto].
    apply Q2. exact Hold. }
  destruct H as [H1 H2]. split; [exact H1|]. split; [exact H2|].
  intros ts. unfold final_asset_value. rewrite H1.
  destruct (current_portfolio st'); [reflexivity|].
  destruct (rev ts) as [|[d0 final_prices] r]; reflexivity.
Qed.

Lemma nan_cash_is_absorbing_witness :
  let st := run_quarters (Some gap_after_purchase) quarters rank_A_only 0
              (firstn 2 quarters) initial_state in
  cash
    (run_quarters (Some gap_after_purchase) quarters rank_A_only 2
       (skipn 2 quarters) st)
  = NaN.
Proof.
  intros st.
  apply (nan_cash_is_absorbing (Some gap_after_purchase) quarters
           rank_A_only (skipn 2 quarters) 2 st).
  - lia.
  - vm_compute. reflexivity.
Defined.

(** X27: in a quarter after the first, a held security whose cell in
    the trade row is NaN makes the recorded start value NaN and leaves
    the cash NaN at the end of the quarter. *)
Theorem nan_cell_poisons_quarter
  (ts : price_table) (qs : list date)
  (score_quarter : date -> option (matrix * list (string * num)))
  (i : nat) (trade_date d : date) (prices : snapshot) (st : state)
  (name : string) (shares : num) :
  (0 < i)%nat ->
  actual_trade_row ts trade_date = Some (d, prices) ->
  In (name, shares) (current_portfolio st) ->
  dict_get String.eqb name prices = Some NaN ->
  let st' := quarter_body (Some ts) qs score_quarter i trade_date st in
  cash st' = NaN
  /\ dict_get qkey_eqb (quarter_str trade_date) (portfolio_history st')
     = Some (mkEntry NaN None).
Proof.
  intros Hi Hrow Hheld Hcell st'. unfold st', quarter_body, period_start.
  rewrite Hrow.
  assert (Ei : (i =? 0)%nat = false) by (apply Nat.eqb_neq; lia).
  rewrite Ei, (stock_value_nan prices _ name shares Hheld Hcell).
  cbn [nadd].
  assert (Hg : dict_get qkey_eqb (quarter_str trade_date)
                 (dict_set qkey_eqb (quarter_str trade_date)
                    (mkEntry NaN None) (portfolio_history st))
               = Some (mkEntry NaN None))
    by (apply dict_get_set_same; apply qkey_eqb_spec).
  destruct (score_quarter trade_date) as [[loadings ranked]|].
  - match goal with
    | |- context [open_positions qs trade_date ?p ?t ?s] =>
        destruct (open_positions_nan_cash qs trade_date p t s eq_refl)
          as [O1 O2]
    end.
    rewrite O1, O2. split; [reflexivity | exact Hg].
  - split; [reflexivity | exact Hg].
Qed.

Lemma nan_cell_poisons_quarter_witness :
  let st := run_quarters (Some gap_after_purchase) quarters rank_A_only 0
              (firstn 1 quarters) initial_state in
  cash
    (quarter_body (Some gap_after_purchase) quarters rank_A_only 1
       (mkDate 2021 7 1) st)
  = NaN.
Proof.
  intros st.
  apply (nan_cell_poisons_quarter gap_after_purchase quarters rank_A_only
           1 (mkDate 2021 7 1) (mkDate 2021 7 1)
           [("A"%string, NaN); ("B"%string, qc 8)] st
           "A"%string (qc 100000)).
  - lia.
  - reflexivity.
  - assert (E : current_portfolio st = [("A"%string, qc 100000)])
      by (unfold st; num_eq).
    rewrite E. left. reflexivity.
  - reflexivity.
Defined.

(* ------------------------------------------------------------------ *)
(** ** The loading figures *)

Lemma starts_with_year (k1 k2 : qkey) :
  valid_key k1 -> valid_key k2 ->
  (starts_with (year_slice (quarter_label k1)) (quarter_label k2) = true
   <-> fst k1 = fst k2).
Proof.
  intros H1 H2.
  destruct (key_facts k1 H1) as (L1 & Y1 & _).
  destruct (key_facts k2 H2) as (L2 & Y2 & _).
  split.
  - intros Hs.
    assert (E : year_slice (quarter_label k1) = year_slice (quarter_label k2)).
    { rewrite L1, L2 in *. unfold label_by_digits, year_slice in *.
      cbn [substring] in *. cbn [starts_with] in Hs.
      repeat (apply andb_true_iff in Hs; destruct Hs as [?E Hs]).
      repeat match goal with
             | H : Ascii.eqb _ _ = true |- _ =>
                 apply Ascii.eqb_eq in H; rewrite H; clear H
             end.
      reflexivity. }
    rewrite E in Y1. congruence.
  - intros E. rewrite L1, L2. unfold label_by_digits, year_slice.
    rewrite E. cbn [substring starts_with].
    rewrite !Ascii.eqb_refl. reflexivity.
Qed.

Lemma panel_years_spec (ks : list qkey) (year : string) :
  In year (panel_years (map quarter_label ks))
  <-> exists k, In k ks /\ year = year_slice (quarter_label k).
Proof.
  unfold panel_years. rewrite py_sorted_In, nodup_In, map_map, in_map_iff.
  split; intros (k & A & B); exists k; auto.
Qed.

Lemma labels_NoDup (ks : list qkey) :
  Forall valid_key ks -> NoDup ks -> NoDup (map quarter_label ks).
Proof.
  intros Hv Hnd. induction Hnd as [|k ks Hn Hnd IH]; [constructor|].
  inversion Hv as [|? ? Hk Hks]; subst. cbn [map]. constructor; auto.
  intros Hin. apply in_map_iff in Hin. destruct Hin as (k' & E & Hk').
  rewrite Forall_forall in Hks.
  apply (label_inj k' k (Hks k' Hk') Hk) in E. subst k'. contradiction.
Qed.

(** X28: for the keys of a run (four-digit years, each quarter once),
    every quarter has a figure, the figure of a year shows exactly the
    quarters of that year, and a figure has between one and four
    panels. *)
Theorem loadings_panels_by_year (ks : list qkey) :
  Forall valid_key ks ->
  NoDup ks ->
  let keys := map quarter_label ks in
  let years := panel_years keys in
  (forall k, In k ks ->
     exists year, In year years /\ py_int year = Some (fst k))
  /\ (forall year k, In year years -> In k ks ->
        (In (quarter_label k) (quarters_in_year keys year)
         <-> py_int year = Some (fst k)))
  /\ (forall year, In year years ->
        (1 <= length (quarters_in_year keys year) <= 4)%nat).
Proof.
  intros Hv Hnd keys years.
  rewrite Forall_forall in Hv.
  assert (Hmem : forall k' k, In k' ks -> In k ks ->
            (In (quarter_label k)
                (quarters_in_year keys (year_slice (quarter_label k')))
             <-> fst k' = fst k)).
  { intros k' k Hk' Hk. unfold quarters_in_year. rewrite filter_In.
    rewrite (starts_with_year k' k (Hv k' Hk') (Hv k Hk)).
    split; [tauto|]. intros E. split; [|exact E].
    unfold keys. apply in_map. exact Hk. }
  split; [|split].
  - intros k Hk. exists (year_slice (quarter_label k)). split.
    + apply panel_years_spec. exists k. auto.
    + apply (key_facts k (Hv k Hk)).
  - intros year k Hy Hk. apply panel_years_spec in Hy.
    destruct Hy as (k' & Hk' & ->).
    rewrite (Hmem k' k Hk' Hk).
    destruct (key_facts k' (Hv k' Hk')) as (_ & Y & _). rewrite Y.
    split; [congruence|]. intros E. inversion E. reflexivity.
  - intros year Hy. apply panel_years_spec in Hy.
    destruct Hy as (k' & Hk' & ->). split.
    + assert (Hin : In (quarter_label k')
                      (quarters_in_year keys
                         (year_slice (quarter_label k'))))
        by (apply (Hmem k' k' Hk' Hk'); reflexivity).
      destruct (quarters_in_year keys (year_slice (quarter_label k')));
        [destruct Hin | cbn; lia].
    + change 4%nat with
        (length (map (fun q => quarter_label (fst k', q)) [1; 2; 3; 4]%Z)).
      apply NoDup_incl_length.
      * unfold quarters_in_year. apply NoDup_filter.
        apply labels_NoDup; [apply Forall_forall; exact Hv | exact Hnd].
      * intros s Hs.
        assert (Hs' := Hs). unfold quarters_in_year in Hs'.
        apply filter_In in Hs'. destruct Hs' as [Hs1 _].
        unfold keys in Hs1. apply in_map_iff in Hs1.
        destruct Hs1 as (k & <- & Hk).
        apply (Hmem k' k Hk' Hk) in Hs.
        destruct k as [y q]. cbn [fst] in Hs. subst y.
        destruct (Hv _ Hk) as [_ Hq]. cbn [snd] in Hq.
        apply in_map_iff. exists q. split; [reflexivity|].
        cbn. lia.
Qed.

Lemma loadings_panels_by_year_witness :
  (1 <= length
          (quarters_in_year
             (map quarter_label [(2021, 2); (2021, 3); (2022, 1)]%Z)
             "2021") <= 4)%nat.
Proof.
  destruct (loadings_panels_by_year [(2021, 2); (2021, 3); (2022, 1)]%Z)
    as (_ & _ & H).
  - repeat constructor; cbn; lia.
  - repeat constructor; cbn; intuition discriminate.
  - apply H. vm_compute. left. reflexivity.
Defined.

(* ------------------------------------------------------------------ *)
(** ** The fuel of the removal *)

Lemma drop_str_length (n : nat) (s : string) :
  String.length (drop_str n s) = (String.length s - n)%nat.
Proof.
  revert s. induction n as [|n IH]; intros s; cbn [drop_str].
  - lia.
  - destruct s as [|c s]; [reflexivity|]. cbn [String.length]. apply IH.
Qed.

Lemma starts_with_length (p s : string) :
  starts_with p s = true -> (String.length p <= String.length s)%nat.
Proof.
  intros H. apply starts_with_prefix in H. destruct H as (b & ->).
  clear. induction p as [|c p IH]; cbn [append String.length]; lia.
Qed.

(** More fuel than the length of the string changes nothing. *)
Lemma remove_fuel_enough (old : string) :
  old <> EmptyString ->
  forall (f1 : nat) (s : string) (f2 : nat),
    (String.length s < f1)%nat -> (String.length s < f2)%nat ->
    remove_fuel f1 old s = remove_fuel f2 old s.
Proof.
  intros Hne. induction f1 as [|f1 IH]; intros s f2 H1 H2; [lia|].
  destruct f2 as [|f2]; [lia|]. cbn [remove_fuel].
  destruct (starts_with old s) eqn:E.
  - pose proof (starts_with_length _ _ E) as Hl.
    assert (Ho : (0 < String.length old)%nat)
      by (destruct old; [contradiction | cbn; lia]).
    apply IH; rewrite drop_str_length; lia.
  - destruct s as [|c s]; [reflexivity|].
    cbn [String.length] in H1, H2. f_equal. apply IH; lia.
Qed.
